(** * Discussion generator: the browser-side turn driver and its renderer

    A shallow embedding of the page script of the discussion generator
    (the latest revision of [script.js], with the points where the earlier
    revision differs kept under a [revision] switch), together with the
    step contract of the turn sequencer it talks to.

    - [Js]        strings as UTF-16 code units, [parseInt] results, [trim];
    - [Regex]     the fragment of ECMAScript regular expressions the script
                  uses, with [String.prototype.replace] for global patterns;
    - [Render]    [escapeHtml] and [markdownToHtml];
    - [Wire]      the JSON bodies exchanged with the server;
    - [Sequencer] the server-side step contract;
    - [Client]    the event handlers and the request loops;
    - [RolesFile] the import of roles from a file;
    - [RoleFields] the role fields of the form over time. *)

From Stdlib Require Import List Bool Arith ZArith NArith Lia String Ascii DecimalString.
Import ListNotations.

Set Implicit Arguments.

(* ================================================================== *)
(** ** JavaScript values *)

Module Js.

(** A UTF-16 code unit. *)
Definition cu := N.

(** A JavaScript string: its sequence of code units. *)
Definition jsstring := list cu.

(** An ASCII literal as a JavaScript string. *)
Definition js (s : string) : jsstring :=
  map N_of_ascii (list_ascii_of_string s).

Definition cu_eqb (a b : cu) : bool := N.eqb a b.

Fixpoint str_eqb (a b : jsstring) : bool :=
  match a, b with
  | [], [] => true
  | x :: a', y :: b' => cu_eqb x y && str_eqb a' b'
  | _, _ => false
  end.

Definition mem (c : cu) (cs : list cu) : bool := existsb (cu_eqb c) cs.

(** Truthiness of a string: only the empty string is falsy. *)
Definition truthy (s : jsstring) : bool :=
  match s with [] => false | _ :: _ => true end.

(** Truthiness of a possibly missing string ([undefined] is falsy). *)
Definition truthy_opt (o : option jsstring) : bool :=
  match o with Some s => truthy s | None => false end.

(** LineTerminator: LF, CR, LS, PS. *)
Definition line_terminator (c : cu) : bool :=
  mem c [10; 13; 8232; 8233]%N.

(** WhiteSpace and LineTerminator code units, as stripped by [trim]. *)
Definition white_space (c : cu) : bool :=
  mem c [9; 10; 11; 12; 13; 32; 160; 5760; 8192; 8193; 8194; 8195; 8196;
         8197; 8198; 8199; 8200; 8201; 8202; 8232; 8233; 8239; 8287;
         12288; 65279]%N.

Fixpoint trim_start (s : jsstring) : jsstring :=
  match s with
  | c :: s' => if white_space c then trim_start s' else s
  | [] => []
  end.

(** [String.prototype.trim]. *)
Definition trim (s : jsstring) : jsstring :=
  rev (trim_start (rev (trim_start s))).

Fixpoint starts_with (p s : jsstring) : bool :=
  match p, s with
  | [], _ => true
  | x :: p', y :: s' => cu_eqb x y && starts_with p' s'
  | _ :: _, [] => false
  end.

(** [String.prototype.includes]. *)
Fixpoint includes (p s : jsstring) : bool :=
  starts_with p s ||
  match s with
  | [] => false
  | _ :: s' => includes p s'
  end.

(** The value of an [<input type="text">] to which [v] is assigned: the
    field keeps a single line, so line feeds and carriage returns are
    dropped from what it is given (HTML's value sanitization for text
    fields). *)
Definition text_field_value (v : jsstring) : jsstring :=
  filter (fun c => negb (cu_eqb c 10%N || cu_eqb c 13%N)) v.

(** The value a text field takes from [value="..."] in markup assigned to
    [innerHTML], where [v] is the text the markup stands for (the text
    that [escapeHtml] wrote as entities, read back by the parser): inside
    an attribute value the parser reads NUL as U+FFFD, and the field drops
    the line breaks. *)
Definition text_field_attribute (v : jsstring) : jsstring :=
  text_field_value (map (fun c => if cu_eqb c 0%N then 65533%N else c) v).

(** The result of [parseInt]: an integer or [NaN]. *)
Inductive jsnum := NaN | Int (z : Z).

(** [a < b] and [a > b] on numbers: every comparison with [NaN] is false. *)
Definition lt (a b : jsnum) : bool :=
  match a, b with Int x, Int y => Z.ltb x y | _, _ => false end.

Definition gt (a b : jsnum) : bool := lt b a.

Definition mul (a b : jsnum) : jsnum :=
  match a, b with Int x, Int y => Int (x * y) | _, _ => NaN end.

(** [Array.from(new Set(xs))]: a [Set] keeps its members in insertion
    order and ignores the insertion of a member it already has. *)
Definition set_add (s : list jsstring) (x : jsstring) : list jsstring :=
  if existsb (str_eqb x) s then s else s ++ [x].

Definition array_from_set (xs : list jsstring) : list jsstring :=
  fold_left set_add xs [].

(** The distinct names of a list in the order of their first occurrence,
    as the claim words it: a name is kept where it occurs first and dropped
    wherever it occurs again ([seen] holds the names met so far). *)
Fixpoint distinct_in_order (seen names : list jsstring) : list jsstring :=
  match names with
  | [] => []
  | x :: rest =>
      if existsb (str_eqb x) seen then distinct_in_order seen rest
      else x :: distinct_in_order (x :: seen) rest
  end.

End Js.

(* ================================================================== *)
(** ** Regular expressions *)

Module Regex.
Import Js.

(** One-character matchers. *)
Inductive atom :=
| Lit (c : cu)              (* a pattern character *)
| Dot                       (* [.] : anything but a line terminator *)
| OneOf (cs : list cu)      (* [[...]] *)
| NoneOf (cs : list cu)     (* [[^...]] *)
| Digit.                    (* [\d] *)

(** The patterns of the script: concatenations of atoms, starred atoms,
    one capture group and the two line assertions. *)
Inductive re :=
| Eps
| Atom (a : atom)
| Cat (r1 r2 : re)
| Star (greedy : bool) (a : atom)
| Group (r : re)
| Bol                       (* [^] under the [m] flag *)
| Eol.                      (* [$] under the [m] flag *)

(** [a+] (greedy). *)
Definition Plus (a : atom) : re := Cat (Atom a) (Star true a).

Fixpoint lits (s : jsstring) : re :=
  match s with
  | [] => Eps
  | c :: s' => Cat (Atom (Lit c)) (lits s')
  end.

Definition ascii_letter (c : cu) : bool :=
  ((65 <=? c) && (c <=? 90) || (97 <=? c) && (c <=? 122))%N.

Definition swap_case (c : cu) : cu :=
  if (c <=? 90)%N then (c + 32)%N else (c - 32)%N.

(** Equality of an input code unit with a pattern character.  Under the
    [i] flag both sides are canonicalised with [toUpperCase], which never
    maps a code unit above 127 to one below 128; the pattern characters of
    the script are ASCII, U+2022 and U+30FB, and for those the test comes
    down to: an ASCII letter equals its two cases, anything else equals
    itself. *)
Definition char_eq (ignore_case : bool) (p c : cu) : bool :=
  cu_eqb c p || (ignore_case && ascii_letter p && cu_eqb c (swap_case p)).

Definition atom_ok (ignore_case : bool) (a : atom) (c : cu) : bool :=
  match a with
  | Lit p => char_eq ignore_case p c
  | Dot => negb (line_terminator c)
  | OneOf cs => existsb (fun p => char_eq ignore_case p c) cs
  | NoneOf cs => negb (existsb (fun p => char_eq ignore_case p c) cs)
  | Digit => ((48 <=? c) && (c <=? 57))%N
  end.

(** The capture of group 1: offset from the start of the match, length. *)
Definition capture := option (nat * nat).

(** A continuation receives the code unit before the current position,
    the rest of the input, the current offset and the capture so far. *)
Definition cont := option cu -> jsstring -> nat -> capture -> option (nat * capture).

(** Greedy iteration: take as many as possible, give back one at a time. *)
Fixpoint star_greedy (ic : bool) (a : atom) (prev : option cu) (s : jsstring)
         (pos : nat) (cap : capture) (k : cont) : option (nat * capture) :=
  match s with
  | c :: s' =>
      if atom_ok ic a c then
        match star_greedy ic a (Some c) s' (S pos) cap k with
        | Some r => Some r
        | None => k prev s pos cap
        end
      else k prev s pos cap
  | [] => k prev s pos cap
  end.

(** Lazy iteration: try the continuation first, take one more on failure. *)
Fixpoint star_lazy (ic : bool) (a : atom) (prev : option cu) (s : jsstring)
         (pos : nat) (cap : capture) (k : cont) : option (nat * capture) :=
  match k prev s pos cap with
  | Some r => Some r
  | None =>
      match s with
      | c :: s' =>
          if atom_ok ic a c then star_lazy ic a (Some c) s' (S pos) cap k
          else None
      | [] => None
      end
  end.

Definition at_line_start (prev : option cu) : bool :=
  match prev with None => true | Some c => line_terminator c end.

Definition at_line_end (s : jsstring) : bool :=
  match s with [] => true | c :: _ => line_terminator c end.

(** Backtracking matcher, in continuation-passing style. *)
Fixpoint exec (ic : bool) (r : re) (prev : option cu) (s : jsstring)
         (pos : nat) (cap : capture) (k : cont) {struct r} : option (nat * capture) :=
  match r with
  | Eps => k prev s pos cap
  | Atom a =>
      match s with
      | c :: s' => if atom_ok ic a c then k (Some c) s' (S pos) cap else None
      | [] => None
      end
  | Cat r1 r2 =>
      exec ic r1 prev s pos cap (fun prev' s' pos' cap' => exec ic r2 prev' s' pos' cap' k)
  | Star true a => star_greedy ic a prev s pos cap k
  | Star false a => star_lazy ic a prev s pos cap k
  | Group r1 =>
      exec ic r1 prev s pos cap
           (fun prev' s' pos' _ => k prev' s' pos' (Some (pos, pos' - pos)))
  | Bol => if at_line_start prev then k prev s pos cap else None
  | Eol => if at_line_end s then k prev s pos cap else None
  end.

(** A match of [r] starting exactly here: its length and its capture. *)
Definition match_here (ic : bool) (r : re) (prev : option cu) (s : jsstring)
  : option (nat * capture) :=
  exec ic r prev s 0 None (fun _ _ pos cap => Some (pos, cap)).

(** The second argument of [replace]: a template with [$1], or a function
    of the matched text. *)
Inductive piece := Text (t : jsstring) | Cap1.

Inductive replacement :=
| Template (ps : list piece)
| Callback (f : jsstring -> jsstring).

Section Replace.
(** The characters being rewritten carry a code unit; the matcher looks
    at nothing else.  [mk] builds the characters a replacement adds. *)
Variable A : Type.
Variable code : A -> cu.
Variable mk : cu -> A.

Definition last_code (prev : option cu) (xs : list A) : option cu :=
  match rev xs with x :: _ => Some (code x) | [] => prev end.

Definition expand_piece (matched : list A) (cap : capture) (p : piece) : list A :=
  match p with
  | Text t => map mk t
  | Cap1 =>
      match cap with
      | Some (off, len) => firstn len (skipn off matched)
      | None => []
      end
  end.

Definition expand (rp : replacement) (matched : list A) (cap : capture) : list A :=
  match rp with
  | Template ps => flat_map (expand_piece matched cap) ps
  | Callback f => map mk (f (map code matched))
  end.

(** [s.replace(/r/g, rp)]: leftmost matches, found from left to right;
    after an empty match the search moves on by one code unit. *)
Fixpoint replace_from (fuel : nat) (ic : bool) (r : re) (rp : replacement)
         (prev : option cu) (s : list A) : list A :=
  match fuel with
  | O => s
  | S fuel' =>
      match match_here ic r prev (map code s) with
      | Some (len, cap) =>
          let matched := firstn len s in
          let out := expand rp matched cap in
          match len with
          | O =>
              match s with
              | [] => out
              | c :: s' => out ++ c :: replace_from fuel' ic r rp (Some (code c)) s'
              end
          | S _ =>
              out ++ replace_from fuel' ic r rp (last_code prev matched) (skipn len s)
          end
      | None =>
          match s with
          | [] => []
          | c :: s' => c :: replace_from fuel' ic r rp (Some (code c)) s'
          end
      end
  end.

Definition replace (ic : bool) (r : re) (rp : replacement) (s : list A) : list A :=
  replace_from (S (List.length s)) ic r rp None s.

End Replace.

(** What a replacement may add: the texts of a template, the results of
    a callback. *)
Definition adds_only (Q : cu -> Prop) (rp : replacement) : Prop :=
  match rp with
  | Template ps => forall t, In (Text t) ps -> Forall Q t
  | Callback f => forall m, Forall Q (f m)
  end.

End Regex.

(* ================================================================== *)
(** ** Rendering: [escapeHtml] and [markdownToHtml] *)

Module Render.
Import Js Regex.

(** Where a character of the rendered text comes from: the utterance
    content (possibly through an entity) or the markup the renderer adds. *)
Inductive origin := Content | Markup.

(** The [map] object of [escapeHtml]. *)
Definition entity_map : list (jsstring * jsstring) :=
  [ (js "&", js "&amp;");
    (js "<", js "&lt;");
    (js ">", js "&gt;");
    ([34%N], js "&quot;");
    (js "'", js "&#039;") ].

(** [map[m]]; a missing key gives [undefined], which [replace] prints. *)
Fixpoint lookup (tbl : list (jsstring * jsstring)) (m : jsstring) : jsstring :=
  match tbl with
  | [] => js "undefined"
  | (key, v) :: tbl' => if str_eqb m key then v else lookup tbl' m
  end.

(** The character class of [escapeHtml]: ampersand, less-than,
    greater-than, double quote, single quote. *)
Definition special : re := Atom (OneOf [38; 60; 62; 34; 39]%N).

(** [(.*$)] *)
Definition line_rest : re := Group (Cat (Star true Dot) Eol).

(** [^prefix(.*$)] *)
Definition line_starting (prefix : jsstring) : re :=
  Cat Bol (Cat (lits prefix) line_rest).

Definition wrap (open close : string) : replacement :=
  Template [Text (js open); Cap1; Text (js close)].

(** The substitutions of [markdownToHtml], in the order they are applied;
    every pattern carries the flags [gim]. *)
Definition markdown_rules : list (re * replacement) :=
  [ (* headings *)
    (line_starting (js "### "), wrap "<h5>" "</h5>");
    (line_starting (js "## "), wrap "<h4>" "</h4>");
    (line_starting (js "# "), wrap "<h3>" "</h3>");
    (* bold and italic *)
    (Cat (lits (js "**")) (Cat (Group (Star false Dot)) (lits (js "**"))),
     wrap "<strong>" "</strong>");
    (Cat (lits (js "*")) (Cat (Group (Star false Dot)) (lits (js "*"))),
     wrap "<em>" "</em>");
    (* code *)
    (Cat (lits (js "```")) (Cat (Group (Plus (NoneOf (js "`")))) (lits (js "```"))),
     wrap "<pre><code>" "</code></pre>");
    (Cat (lits (js "`")) (Cat (Group (Plus (NoneOf (js "`")))) (lits (js "`"))),
     wrap "<code>" "</code>");
    (* numbered lists *)
    (Cat Bol (Cat (Plus Digit) (Cat (lits (js ". ")) line_rest)),
     wrap "<li>" "</li>");
    (Cat (lits (js "</li>")) (Cat (Atom (Lit 10%N)) (lits (js "<li>"))),
     Template [Text (js "</li><li>")]);
    (Group (Cat (lits (js "<li>")) (Cat (Star true Dot) (lits (js "</li>")))),
     wrap "<ol>" "</ol>");
    (* bullet lists *)
    (line_starting (js "- "), wrap "<li>" "</li>");
    (line_starting [8226; 32]%N, wrap "<li>" "</li>");
    (line_starting [12539%N], wrap "<li>" "</li>");
    (* horizontal rule *)
    (Cat Bol (Cat (lits (js "--")) (Cat (Plus (Lit 45%N)) Eol)),
     Template [Text (js "<hr>")]);
    (* line breaks *)
    (Atom (Lit 10%N), Template [Text (js "<br>")]) ].

Section Pipeline.
Variable A : Type.
Variable code : A -> cu.
(** How the characters of an entity and of a tag are built. *)
Variable mk_entity : cu -> A.
Variable mk_tag : cu -> A.

(** [text.replace(special, m => map[m])], the pattern being global. *)
Definition escape (text : list A) : list A :=
  replace code mk_entity false special (Callback (lookup entity_map)) text.

(** [html = html.replace(pattern, template)], one rule after the other. *)
Definition apply_rules (rules : list (re * replacement)) (html : list A) : list A :=
  fold_left (fun h rule => replace code mk_tag true (fst rule) (snd rule) h) rules html.

(** The body of [markdownToHtml] past its guard. *)
Definition render (markdown : list A) : list A :=
  apply_rules markdown_rules (escape markdown).
End Pipeline.

(** [escapeHtml(text)].  The latest revision returns [''] for [undefined]
    and [null]; the earlier one is only ever called on strings, where the
    two agree. *)
Definition escapeHtml (text : option jsstring) : jsstring :=
  match text with
  | None => []
  | Some t => escape (fun c => c) (fun c => c) t
  end.

(** [markdownToHtml(markdown)]: [''] for a falsy argument, otherwise the
    escaped text with the markdown rules applied. *)
Definition markdownToHtml (markdown : option jsstring) : jsstring :=
  match markdown with
  | None => []
  | Some m =>
      if truthy m
      then apply_rules (fun c => c) (fun c => c) markdown_rules (escapeHtml (Some m))
      else []
  end.

(** The same function run on characters that remember their origin. *)
Definition markdownToHtml_traced (markdown : jsstring) : list (cu * origin) :=
  if truthy markdown
  then render (@fst cu origin) (fun c => (c, Content)) (fun c => (c, Markup))
              (map (fun c => (c, Content)) markdown)
  else [].

(** The characters that delimit tags and attribute values. *)
Definition delimiter (c : cu) : bool := mem c [60; 62; 34; 39]%N.

(** The replacement of one character, as the claim words it. *)
Definition entity_of (c : cu) : jsstring :=
  if cu_eqb c 38%N then js "&amp;"
  else if cu_eqb c 60%N then js "&lt;"
  else if cu_eqb c 62%N then js "&gt;"
  else if cu_eqb c 34%N then js "&quot;"
  else if cu_eqb c 39%N then js "&#039;"
  else [c].

End Render.

(* ================================================================== *)
(** ** The JSON bodies on the wire *)

Module Wire.
Import Js.

(** [{ role, content }] *)
Record utterance := { role : jsstring; content : jsstring }.

(** A slot of a transcript array: an utterance, or [undefined]. *)
Definition entry := option utterance.

(** The model parameters read from the settings dialog.  The temperature
    is kept as the slider's value; the script sends its [parseFloat]. *)
Record settings := {
  model : jsstring;
  temperature : jsstring;
  maxOutputTokens : jsnum }.

(** Body of [POST /generate-next-turn]. *)
Record turn_request := {
  tr_topic : jsstring;
  tr_roles : list jsstring;
  tr_numTurns : jsnum;
  tr_discussion : list entry;
  tr_currentTurn : Z;
  tr_currentRoleIndex : Z;
  tr_language : jsstring;
  tr_use_document : option bool;
  tr_settings : option settings }.

(** The [requestData] object of a continuation.  While it lives in the
    page its [discussion_data] is a reference to an array ([D] is a
    reference); serialised, it holds the array's elements. *)
Record continuation_request (D : Type) := {
  cr_discussion_data : D;
  cr_topic : jsstring;
  cr_roles : list jsstring;
  cr_num_additional_turns : jsnum;
  cr_language : jsstring;
  cr_use_document : bool;
  cr_current_turn : Z;
  cr_current_role_index : Z;
  cr_settings : option settings }.

(** Body of [POST /provide-guidance]. *)
Record guidance_request := {
  gr_discussion_data : list utterance;
  gr_topic : jsstring;
  gr_instruction : jsstring;
  gr_num_additional_turns : jsnum;
  gr_use_document : bool;
  gr_language : jsstring;
  gr_settings : option settings }.

Inductive request :=
| GenerateNextTurn (q : turn_request)
| ContinueDiscussion (q : continuation_request (list entry))
| ProvideGuidance (q : guidance_request)
| GetDocumentText.

(** The fields the script reads from a JSON reply; a field the reply
    lacks is [None] (or [false], or 0 for the two cursor fields, which
    the script reads only from replies that carry them). *)
Record data := {
  error : option jsstring;
  message : option utterance;
  is_complete : bool;
  next_turn : Z;
  next_role_index : Z;
  success : bool;
  document_text : option jsstring;
  discussion : option (list utterance) }.

Definition no_data : data :=
  {| error := None; message := None; is_complete := false; next_turn := 0;
     next_role_index := 0; success := false; document_text := None;
     discussion := None |}.

(** What [fetch] resolves to: status line, whether the content type
    announces JSON, the body as text and as parsed JSON (when it parses). *)
Record http_response := {
  ok : bool;
  status : Z;
  json_content_type : bool;
  body_text : jsstring;
  body_json : option data }.

(** A [fetch]: rejected (network failure, timeout) or answered. *)
Inductive fetched :=
| Rejected (reason : jsstring)
| Responded (r : http_response).

(** The server as the page sees it: the reply to the [n]-th request. *)
Definition server := nat -> request -> fetched.

End Wire.

(* ================================================================== *)
(** ** The turn sequencer *)

Module Sequencer.
Import Js Wire.

Inductive result (A E : Type) := Ok (a : A) | Err (e : E).
Arguments Ok {A E} a.
Arguments Err {A E} e.

(** Modelled from the spec: the DocumentContext of section 3 (the server
    side document slot is not part of the page script): raw extracted
    text plus optional derived analysis. *)
Record DocumentContext := { text : jsstring; analysis : option jsstring }.

(** Modelled from the spec: the Cursor of section 3. *)
Record Cursor := { turn : Z; roleIndex : Z }.

(** Modelled from the spec: which bound applies to the requested turns:
    total turns of a fresh generation, or additional turns of a
    continuation or guidance run. *)
Inductive protocol := FreshRun | ContinuationRun.

(** Modelled from the spec: the DiscussionRequest of section 3. *)
Record DiscussionRequest := {
  topic : jsstring;
  roleList : list jsstring;
  turns : jsnum;
  priorUtterances : list entry;
  cursor : Cursor;
  language : jsstring;
  useDocument : bool;
  modelParams : option settings;
  run : protocol }.

(** Modelled from the spec: the failures of the Model Gateway (section 6). *)
Inductive gateway_error := Auth | QuotaExceeded | Transient | Other.

(** Modelled from the spec: the error taxonomy of section 7. *)
Inductive fault := InvalidInput | DocumentUnavailable | Model (e : gateway_error).

(** Modelled from the spec: the reply of one step,
    [{ utterance, nextCursor, isComplete }]. *)
Record StepResult := {
  produced : utterance;
  nextCursor : Cursor;
  isComplete : bool }.

Definition max_turns (k : protocol) : Z :=
  match k with FreshRun => 10 | ContinuationRun => 5 end.

(** Modelled from the spec: the preconditions of [produceNextUtterance]
    (section 4.1): at least two roles, the requested turns within the
    bound of the protocol, the cursor inside the roster.  Gives the
    requested turns when they hold. *)
Definition in_contract (req : DiscussionRequest) : option Z :=
  match turns req with
  | NaN => None
  | Int t =>
      if (2 <=? Z.of_nat (List.length (roleList req)))%Z
         && (1 <=? t)%Z && (t <=? max_turns (run req))%Z
         && (0 <=? turn (cursor req))%Z
         && (0 <=? roleIndex (cursor req))%Z
         && (roleIndex (cursor req) <? Z.of_nat (List.length (roleList req)))%Z
      then Some t else None
  end.

(** Modelled from the spec: step 6 of [produceNextUtterance]. *)
Definition advance (roleCount : Z) (c : Cursor) : Cursor :=
  if (roleIndex c + 1 <? roleCount)%Z
  then {| turn := turn c; roleIndex := roleIndex c + 1 |}
  else {| turn := turn c + 1; roleIndex := 0 |}.

(** Modelled from the spec: the synthetic directive of a guidance run. *)
Definition system_utterance (instruction : jsstring) : utterance :=
  {| role := js "system"; content := instruction |}.


Section Collaborators.
(** The Prompt Builder: a pure function of the request, the speaking
    role and the document (when grounding is active). *)
Variable build_prompt :
  DiscussionRequest -> jsstring -> option DocumentContext -> jsstring.

(** One call of the Model Gateway. *)
Definition generator := jsstring -> option settings -> result jsstring gateway_error.

(** Modelled from the spec: [produceNextUtterance] (section 4.1, steps
    1 to 7), the server side of [/generate-next-turn], which is not
    part of the page script. *)
Definition produceNextUtterance (generate : generator)
           (store : option DocumentContext) (req : DiscussionRequest)
  : result StepResult fault :=
  match in_contract req with
  | None => Err InvalidInput
  | Some total =>
      match nth_error (roleList req) (Z.to_nat (roleIndex (cursor req))) with
      | None => Err InvalidInput
      | Some speaker =>
          match useDocument req, store with
          | true, None => Err DocumentUnavailable
          | grounded, document =>
              let context := if grounded then document else None in
              match generate (build_prompt req speaker context) (modelParams req) with
              | Err e => Err (Model e)
              | Ok generated =>
                  let next := advance (Z.of_nat (List.length (roleList req))) (cursor req) in
                  Ok {| produced := {| role := speaker; content := generated |};
                        nextCursor := next;
                        isComplete := (total <=? turn next)%Z |}
              end
          end
      end
  end.

(** The request of the next step: the same discussion, on the transcript
    and at the cursor reached so far. *)
Definition resume (req : DiscussionRequest) (transcript : list entry) (c : Cursor)
  : DiscussionRequest :=
  {| topic := topic req; roleList := roleList req; turns := turns req;
     priorUtterances := transcript; cursor := c; language := language req;
     useDocument := useDocument req; modelParams := modelParams req;
     run := run req |}.

(** The Model Gateway over a whole run: the [n]-th request of the page,
    and within it the [k]-th call, may each answer differently. *)
Variable gateway : nat -> nat -> generator.

(** Modelled from the spec: the loop of a guidance run on the server:
    steps are taken one after the other, each on the transcript
    extended by the utterances produced so far, until a step reports
    completion.  [None] when the fuel runs out first. *)
Fixpoint drive (fuel : nat) (n k : nat) (store : option DocumentContext)
         (req : DiscussionRequest) : option (result (list entry) fault) :=
  match fuel with
  | O => None
  | S fuel' =>
      match produceNextUtterance (gateway n k) store req with
      | Err e => Some (Err e)
      | Ok r =>
          let transcript := priorUtterances req ++ [Some (produced r)] in
          if isComplete r then Some (Ok transcript)
          else drive fuel' n (S k) store (resume req transcript (nextCursor r))
      end
  end.

(** Modelled from the spec: the step request of section 6 read from the
    body of [/generate-next-turn]. *)
Definition of_turn_request (q : turn_request) : DiscussionRequest :=
  {| topic := tr_topic q; roleList := tr_roles q; turns := tr_numTurns q;
     priorUtterances := tr_discussion q;
     cursor := {| turn := tr_currentTurn q; roleIndex := tr_currentRoleIndex q |};
     language := tr_language q;
     useDocument := match tr_use_document q with Some b => b | None => false end;
     modelParams := tr_settings q; run := FreshRun |}.

(** Modelled from the spec: the same for [/continue-discussion]. *)
Definition of_continuation_request (q : continuation_request (list entry))
  : DiscussionRequest :=
  {| topic := cr_topic q; roleList := cr_roles q;
     turns := cr_num_additional_turns q;
     priorUtterances := cr_discussion_data q;
     cursor := {| turn := cr_current_turn q; roleIndex := cr_current_role_index q |};
     language := cr_language q; useDocument := cr_use_document q;
     modelParams := cr_settings q; run := ContinuationRun |}.

(** Modelled from the spec: the guidance step of section 6: the roster
    is the distinct role set of the carried-in transcript, the history
    is extended by the system utterance, the cursor starts at (0, 0). *)
Definition of_guidance_request (q : guidance_request) : DiscussionRequest :=
  {| topic := gr_topic q;
     roleList := array_from_set (map role (gr_discussion_data q));
     turns := gr_num_additional_turns q;
     priorUtterances :=
       map Some (gr_discussion_data q) ++ [Some (system_utterance (gr_instruction q))];
     cursor := {| turn := 0; roleIndex := 0 |};
     language := gr_language q; useDocument := gr_use_document q;
     modelParams := gr_settings q; run := ContinuationRun |}.

Definition error_label (e : fault) : jsstring :=
  match e with
  | InvalidInput => js "InvalidInput"
  | DocumentUnavailable => js "DocumentUnavailable"
  | Model Auth => js "ModelAuthError"
  | Model QuotaExceeded => js "ModelQuotaExceeded"
  | Model Transient => js "ModelTransient"
  | Model Other => js "ModelOther"
  end.

Definition reply (d : data) : fetched :=
  Responded {| ok := true; status := 200; json_content_type := true;
               body_text := []; body_json := Some d |}.

(** Modelled from the spec: errors reach the caller as structured,
    classifiable errors. *)
Definition reply_error (e : fault) : fetched :=
  Responded {| ok := false; status := 400; json_content_type := true;
               body_text := [];
               body_json := Some {| error := Some (error_label e);
                                    message := None; is_complete := false;
                                    next_turn := 0; next_role_index := 0;
                                    success := false; document_text := None;
                                    discussion := None |} |}.

(** Modelled from the spec: the step response of section 6. *)
Definition reply_step (r : result StepResult fault) : fetched :=
  match r with
  | Err e => reply_error e
  | Ok s =>
      reply {| error := None; message := Some (produced s);
               is_complete := isComplete s;
               next_turn := turn (nextCursor s);
               next_role_index := roleIndex (nextCursor s);
               success := true; document_text := None; discussion := None |}
  end.

Fixpoint utterances (t : list entry) : list utterance :=
  match t with
  | [] => []
  | Some u :: t' => u :: utterances t'
  | None :: t' => utterances t'
  end.

(** Modelled from the spec: the endpoints of the server, none of which
    is part of the page script: one sequencer step for a fresh run and
    (started directly at the first real utterance) for a continuation,
    the whole additional window for a guidance run, and [get] of the
    Document Store.  [patience] bounds the steps of a guidance run
    before the page gives up waiting. *)
Definition serve (patience : nat) (store : option DocumentContext) : server :=
  fun n q =>
    match q with
    | GenerateNextTurn t =>
        reply_step (produceNextUtterance (gateway n 0) store (of_turn_request t))
    | ContinueDiscussion c =>
        reply_step (produceNextUtterance (gateway n 0) store (of_continuation_request c))
    | ProvideGuidance g =>
        match drive patience n 0 store (of_guidance_request g) with
        | None => Rejected (js "timeout")
        | Some (Err e) => reply_error e
        | Some (Ok t) =>
            reply {| error := None; message := None; is_complete := true;
                     next_turn := 0; next_role_index := 0; success := true;
                     document_text := None; discussion := Some (utterances t) |}
        end
    | GetDocumentText =>
        match store with
        | Some d =>
            reply {| error := None; message := None; is_complete := false;
                     next_turn := 0; next_role_index := 0; success := true;
                     document_text := Some (text d); discussion := None |}
        | None => reply_error DocumentUnavailable
        end
    end.

End Collaborators.

End Sequencer.

(* ================================================================== *)
(** ** The page script *)

Module Client.
Import Js Wire Render.
Export Sequencer (result, Ok, Err).

(** The two revisions of the script that carry the turn loops. *)
Inductive revision := Earlier | Latest.

(** *** Arrays shared by reference *)

Definition ref := nat.

Record heap := { cells : ref -> list entry; next_ref : ref }.

Definition new_array (items : list entry) (h : heap) : ref * heap :=
  (next_ref h,
   {| cells := fun r => if Nat.eqb r (next_ref h) then items else cells h r;
      next_ref := S (next_ref h) |}).

(** [array.push(x)] *)
Definition array_push (r : ref) (x : entry) (h : heap) : heap :=
  {| cells := fun r' => if Nat.eqb r' r then cells h r ++ [x] else cells h r';
     next_ref := next_ref h |}.

(** *** What the page shows and holds *)

(** What a rejected promise carries into a [catch] handler. *)
Inductive exception :=
| NetworkError (reason : jsstring)            (* [fetch] rejected *)
| ServerError (msg : option jsstring) (st : Z) (* [errorData.error], or the status *)
| ServerPage                                  (* an HTML error page *)
| ServerText (st : Z) (excerpt : jsstring)    (* status and first 100 code units *)
| InvalidFormat                               (* a reply that is not JSON *)
| SyntaxError                                 (* [response.json()] rejected *)
| TypeError                                   (* a property of [undefined] read *)
| DocumentNotFound.                           (* thrown when the document check fails *)

(** The argument of [showError]. *)
Inductive notice :=
| TopicMissing
| TooFewRoles
| TurnsOutOfRange
| AdditionalTurnsOutOfRange
| InstructionMissing
| TooManyRoles
| DocumentMissing
| DocumentCheckFailed
| Reported (msg : jsstring)                   (* [data.error] *)
| Thrown (e : exception).

(** The values of the form controls; numeric fields through [parseInt]. *)
Record inputs := {
  topicInput : jsstring;
  numTurnsInput : jsnum;
  roleInputs : list jsstring;
  languageSelect : jsstring;
  additionalTurnsInput : jsnum;
  useDocumentForContinuation : bool;
  guidanceInstructionInput : jsstring;
  guidanceAdditionalTurns : jsnum;
  useDocumentForGuidance : bool;
  settingsDialog : settings }.

(** A [.discussion-bubble]: the inner HTML of its two children. *)
Record bubble := { role_tag : jsstring; message_content : jsstring }.

(** One [fetch]: the progress label on display when it was issued, the
    delay after which it was scheduled, the request and what came back. *)
Record exchange := {
  shown : option (Z * jsnum);
  delay : Z;
  sent : request;
  received : fetched }.

Record page := {
  form : inputs;
  discussionTopicHeader : jsstring;
  bubbles : list bubble;
  consultantMessages : list jsstring;
  errorShown : option notice;
  loading : bool;
  uploadedDocument : bool;        (* [sessionStorage] holds 'uploadedDocument' *)
  arrays : heap;
  currentDiscussion : option ref;
  log : list exchange }.

Inductive outcome :=
| Refused      (* the handler returned without starting anything *)
| Completed
| Failed
| Pending.     (* still waiting when the fuel ran out *)

Definition with_form (f : inputs) (p : page) : page :=
  {| form := f; discussionTopicHeader := discussionTopicHeader p;
     bubbles := bubbles p; consultantMessages := consultantMessages p;
     errorShown := errorShown p; loading := loading p;
     uploadedDocument := uploadedDocument p; arrays := arrays p;
     currentDiscussion := currentDiscussion p; log := log p |}.

Definition with_header (h : jsstring) (p : page) : page :=
  {| form := form p; discussionTopicHeader := h;
     bubbles := bubbles p; consultantMessages := consultantMessages p;
     errorShown := errorShown p; loading := loading p;
     uploadedDocument := uploadedDocument p; arrays := arrays p;
     currentDiscussion := currentDiscussion p; log := log p |}.

Definition with_container (bs : list bubble) (cs : list jsstring) (p : page) : page :=
  {| form := form p; discussionTopicHeader := discussionTopicHeader p;
     bubbles := bs; consultantMessages := cs;
     errorShown := errorShown p; loading := loading p;
     uploadedDocument := uploadedDocument p; arrays := arrays p;
     currentDiscussion := currentDiscussion p; log := log p |}.

Definition with_error (e : option notice) (p : page) : page :=
  {| form := form p; discussionTopicHeader := discussionTopicHeader p;
     bubbles := bubbles p; consultantMessages := consultantMessages p;
     errorShown := e; loading := loading p;
     uploadedDocument := uploadedDocument p; arrays := arrays p;
     currentDiscussion := currentDiscussion p; log := log p |}.

Definition with_loading (b : bool) (p : page) : page :=
  {| form := form p; discussionTopicHeader := discussionTopicHeader p;
     bubbles := bubbles p; consultantMessages := consultantMessages p;
     errorShown := errorShown p; loading := b;
     uploadedDocument := uploadedDocument p; arrays := arrays p;
     currentDiscussion := currentDiscussion p; log := log p |}.

Definition with_uploaded (b : bool) (p : page) : page :=
  {| form := form p; discussionTopicHeader := discussionTopicHeader p;
     bubbles := bubbles p; consultantMessages := consultantMessages p;
     errorShown := errorShown p; loading := loading p;
     uploadedDocument := b; arrays := arrays p;
     currentDiscussion := currentDiscussion p; log := log p |}.

Definition with_arrays (h : heap) (p : page) : page :=
  {| form := form p; discussionTopicHeader := discussionTopicHeader p;
     bubbles := bubbles p; consultantMessages := consultantMessages p;
     errorShown := errorShown p; loading := loading p;
     uploadedDocument := uploadedDocument p; arrays := h;
     currentDiscussion := currentDiscussion p; log := log p |}.

Definition with_current (r : option ref) (p : page) : page :=
  {| form := form p; discussionTopicHeader := discussionTopicHeader p;
     bubbles := bubbles p; consultantMessages := consultantMessages p;
     errorShown := errorShown p; loading := loading p;
     uploadedDocument := uploadedDocument p; arrays := arrays p;
     currentDiscussion := r; log := log p |}.

Definition with_log (l : list exchange) (p : page) : page :=
  {| form := form p; discussionTopicHeader := discussionTopicHeader p;
     bubbles := bubbles p; consultantMessages := consultantMessages p;
     errorShown := errorShown p; loading := loading p;
     uploadedDocument := uploadedDocument p; arrays := arrays p;
     currentDiscussion := currentDiscussion p; log := l |}.

Definition showError (n : notice) (p : page) : page := with_error (Some n) p.
Definition hideError (p : page) : page := with_error None p.
Definition showLoading (b : bool) (p : page) : page := with_loading b p.

(** The common shape of the failure paths: the spinner goes, the error
    shows. *)
Definition fail (n : notice) (p : page) : page := showError n (showLoading false p).

(** [array.push(x)] on an array of the page. *)
Definition push (r : ref) (x : entry) (p : page) : page :=
  with_arrays (array_push r x (arrays p)) p.

Definition transcript (r : ref) (p : page) : list entry := cells (arrays p) r.

(** *** Constants of the script *)

(** The prefix and the suffix of the topic header. *)
Definition header_prefix : jsstring :=
  [12487; 12451; 12473; 12459; 12483; 12471; 12519; 12531; 58; 32]%N.
Definition document_suffix : jsstring :=
  [32; 40; 25991; 26360; 21442; 29031; 41]%N.

(** The role names of system and consultant messages. *)
Definition system_role : jsstring := [12471; 12473; 12486; 12512]%N.
Definition consultant_role : jsstring :=
  [12467; 12531; 12469; 12523; 12479; 12531; 12488]%N.

(** *** Strings *)

(** [s.replace(pattern, '')] with a string pattern: the first occurrence. *)
Fixpoint remove_first (pattern s : jsstring) : jsstring :=
  if starts_with pattern s then skipn (List.length pattern) s
  else match s with
       | [] => []
       | c :: s' => c :: remove_first pattern s'
       end.

Definition ends_with (suffix s : jsstring) : bool :=
  starts_with (rev suffix) (rev s).

(** The topic as the continuation handlers recover it from the header. *)
Definition topic_of_header (header : jsstring) : jsstring :=
  let topic := remove_first header_prefix header in
  if ends_with document_suffix topic then remove_first document_suffix topic
  else topic.

(** *** The network *)

(** [fetch], recorded in the log. *)
Definition fetch (srv : server) (label : option (Z * jsnum)) (after : Z)
           (q : request) (p : page) : fetched * page :=
  let r := srv (List.length (log p)) q in
  (r, with_log (log p ++ [{| shown := label; delay := after; sent := q; received := r |}]) p).

(** The [if (!response.ok)] block shared by the handlers. *)
Definition not_ok (r : http_response) : exception :=
  if json_content_type r then
    match body_json r with
    | Some d => ServerError (if truthy_opt (error d) then error d else None) (status r)
    | None => SyntaxError
    end
  else if includes (js "<html>") (body_text r) then ServerPage
  else ServerText (status r) (firstn 100 (body_text r)).

Definition json (r : http_response) : result data exception :=
  match body_json r with Some d => Ok d | None => Err SyntaxError end.

(** The first [then] of [generateNextTurn]. *)
Definition read_turn_reply (f : fetched) : result data exception :=
  match f with
  | Rejected reason => Err (NetworkError reason)
  | Responded r =>
      if negb (ok r) then Err (not_ok r)
      else if json_content_type r then json r
      else Err InvalidFormat
  end.

(** The first [then] of [fetchNextContinuationTurn] and of
    [handleProvideGuidance]. *)
Definition read_reply (f : fetched) : result data exception :=
  match f with
  | Rejected reason => Err (NetworkError reason)
  | Responded r => if negb (ok r) then Err (not_ok r) else json r
  end.

(** [response => response.json()], as used on [/get-document-text]. *)
Definition read_json (f : fetched) : result data exception :=
  match f with
  | Rejected reason => Err (NetworkError reason)
  | Responded r => json r
  end.

(** [data.error] when it is truthy. *)
Definition reported (d : data) : option jsstring :=
  match error d with
  | Some msg => if truthy msg then Some msg else None
  | None => None
  end.

(** [data.success && data.document_text] *)
Definition has_document (d : data) : bool :=
  success d && truthy_opt (document_text d).

(** *** Rendering into the page *)

Definition bubble_of (m : utterance) : bubble :=
  {| role_tag := role m; message_content := markdownToHtml (Some (content m)) |}.

Definition appendMessage (m : utterance) (p : page) : page :=
  with_container (bubbles p ++ [bubble_of m]) (consultantMessages p) p.

Definition current_settings (rv : revision) (p : page) : option settings :=
  match rv with
  | Earlier => None
  | Latest => Some (settingsDialog (form p))
  end.

(** *** Fresh generation *)

(** [generateNextTurn] and [generateNextTurnWithDocument] differ in the
    header they write, in the [use_document] field they send and, in the
    latest revision, in a request for the document text on first display. *)
Inductive mode := Plain | Grounded (useDocument : bool).

Definition use_document_field (md : mode) : option bool :=
  match md with Plain => None | Grounded b => Some b end.

(** The block run when [currentIteration === 1]. *)
Definition first_display (rv : revision) (srv : server) (md : mode)
           (topic : jsstring) (p : page) : page :=
  let p1 := with_container [] [] p in
  match md with
  | Plain => with_header topic p1
  | Grounded _ =>
      let p2 := with_header (topic ++ document_suffix) p1 in
      match rv with
      | Earlier => p2
      | Latest => snd (fetch srv None 0 GetDocumentText p2)
      end
  end.

(** What an invocation leaves behind: the run is over, or the next
    invocation is scheduled with new arguments after a delay. *)
Inductive next (X : Type) :=
| Stop (o : outcome)
| Again (x : X) (after : Z).
Arguments Stop {X} o.
Arguments Again {X} x after.

(** The body of [generateNextTurn] and of [generateNextTurnWithDocument]:
    one request and the handling of its reply. *)
Definition turn_step (rv : revision) (srv : server) (md : mode)
           (topic : jsstring) (roles : list jsstring) (numTurns : jsnum)
           (discussion : ref) (currentTurn currentRoleIndex : Z)
           (language : jsstring) (after : Z) (p : page) : page * next (Z * Z) :=
  let totalRoles := Z.of_nat (List.length roles) in
  let totalIterations := mul numTurns (Int totalRoles) in
  let currentIteration := (currentTurn * totalRoles + currentRoleIndex + 1)%Z in
  let p1 := if (currentIteration =? 1)%Z then first_display rv srv md topic p else p in
  let requestData :=
    {| tr_topic := topic; tr_roles := roles; tr_numTurns := numTurns;
       tr_discussion := transcript discussion p1;
       tr_currentTurn := currentTurn; tr_currentRoleIndex := currentRoleIndex;
       tr_language := language; tr_use_document := use_document_field md;
       tr_settings := current_settings rv p1 |} in
  let (answer, p2) :=
    fetch srv (Some (currentIteration, totalIterations)) after
          (GenerateNextTurn requestData) p1 in
  match read_turn_reply answer with
  | Err e => (fail (Thrown e) p2, Stop Failed)
  | Ok d =>
      match reported d with
      | Some msg => (fail (Reported msg) p2, Stop Failed)
      | None =>
          let p3 := push discussion (message d) p2 in
          match message d with
          | None =>
              (* [appendMessage] reads [message.content] *)
              (fail (Thrown TypeError) p3, Stop Failed)
          | Some newMessage =>
              let p4 := appendMessage newMessage p3 in
              if is_complete d
              then (with_current (Some discussion) (showLoading false p4), Stop Completed)
              else (p4, Again (next_turn d, next_role_index d) 500)
          end
      end
  end.

(** The chain of invocations; [fuel] bounds the number of requests. *)
Fixpoint turn_loop (rv : revision) (srv : server) (fuel : nat) (md : mode)
         (topic : jsstring) (roles : list jsstring) (numTurns : jsnum)
         (discussion : ref) (currentTurn currentRoleIndex : Z)
         (language : jsstring) (after : Z) (p : page) : page * outcome :=
  match fuel with
  | O => (p, Pending)
  | S fuel' =>
      match turn_step rv srv md topic roles numTurns discussion
                      currentTurn currentRoleIndex language after p with
      | (p', Stop o) => (p', o)
      | (p', Again (t, r) after') =>
          turn_loop rv srv fuel' md topic roles numTurns discussion t r language after' p'
      end
  end.

Definition generateNextTurn (rv : revision) (srv : server) (fuel : nat) :=
  turn_loop rv srv fuel Plain.

Definition generateNextTurnWithDocument (rv : revision) (srv : server) (fuel : nat)
           (topic : jsstring) (roles : list jsstring) (numTurns : jsnum)
           (discussion : ref) (currentTurn currentRoleIndex : Z)
           (language : jsstring) (useDocument : bool) :=
  turn_loop rv srv fuel (Grounded useDocument) topic roles numTurns discussion
            currentTurn currentRoleIndex language.

(** [currentDiscussion = []] *)
Definition reset_discussion (p : page) : ref * page :=
  let (r, h) := new_array [] (arrays p) in
  (r, with_current (Some r) (with_arrays h p)).

Definition generateDiscussion (rv : revision) (srv : server) (fuel : nat)
           (topic : jsstring) (roles : list jsstring) (numTurns : jsnum)
           (p : page) : page * outcome :=
  let p1 := hideError (showLoading true p) in
  let language := languageSelect (form p1) in
  let (currentDiscussion, p2) := reset_discussion p1 in
  generateNextTurn rv srv fuel topic roles numTurns currentDiscussion 0 0 language 0 p2.

(** The role list both submit handlers read from the form. *)
Definition roles_of_form (p : page) : list jsstring :=
  filter truthy (map trim (roleInputs (form p))).

(** The validation shared by [handleFormSubmit] and
    [handleGenerateWithDocument]. *)
Definition validate (p : page) : option notice :=
  let topic := trim (topicInput (form p)) in
  let numTurns := numTurnsInput (form p) in
  let roles := roles_of_form p in
  if negb (truthy topic) then Some TopicMissing
  else if Nat.ltb (List.length roles) 2 then Some TooFewRoles
  else if lt numTurns (Int 1) || gt numTurns (Int 10) then Some TurnsOutOfRange
  else None.

Definition handleFormSubmit (rv : revision) (srv : server) (fuel : nat)
           (p : page) : page * outcome :=
  match validate p with
  | Some n => (showError n p, Refused)
  | None =>
      generateDiscussion rv srv fuel (trim (topicInput (form p))) (roles_of_form p)
                         (numTurnsInput (form p)) p
  end.

(** *** Generation grounded in the uploaded document *)

Definition generateDiscussionWithDocument (rv : revision) (srv : server) (fuel : nat)
           (topic : jsstring) (roles : list jsstring) (numTurns : jsnum)
           (p : page) : page * outcome :=
  let p1 := hideError (showLoading true p) in
  let language := languageSelect (form p1) in
  match rv with
  | Earlier =>
      let (currentDiscussion, p2) := reset_discussion p1 in
      generateNextTurnWithDocument rv srv fuel topic roles numTurns
                                   currentDiscussion 0 0 language true 0 p2
  | Latest =>
      let (answer, p2) := fetch srv None 0 GetDocumentText p1 in
      match read_json answer with
      | Err e => (fail (Thrown e) p2, Failed)
      | Ok d =>
          if negb (success d) || negb (truthy_opt (document_text d))
          then (fail (Thrown DocumentNotFound) p2, Failed)
          else
            let (currentDiscussion, p3) := reset_discussion p2 in
            generateNextTurnWithDocument rv srv fuel topic roles numTurns
                                         currentDiscussion 0 0 language true 0 p3
      end
  end.

Definition handleGenerateWithDocument (rv : revision) (srv : server) (fuel : nat)
           (p : page) : page * outcome :=
  match validate p with
  | Some n => (showError n p, Refused)
  | None =>
      let topic := trim (topicInput (form p)) in
      let roles := roles_of_form p in
      let numTurns := numTurnsInput (form p) in
      match rv with
      | Earlier =>
          if negb (uploadedDocument p) then (showError DocumentMissing p, Refused)
          else generateDiscussionWithDocument rv srv fuel topic roles numTurns p
      | Latest =>
          let (answer, p1) := fetch srv None 0 GetDocumentText p in
          match read_json answer with
          | Err e => (with_uploaded false (showError DocumentCheckFailed p1), Failed)
          | Ok d =>
              if has_document d
              then generateDiscussionWithDocument rv srv fuel topic roles numTurns p1
              else (showError DocumentMissing (with_uploaded false p1), Failed)
          end
      end
  end.

(** *** Continuation and guidance *)

Section Continuation.
(** [element.textContent] of an element whose inner HTML is given: the
    browser's HTML parser, not part of the script. *)
Variable textContent : jsstring -> jsstring.

(** The [discussionData] both continuation handlers collect from the
    page: in the latest revision the consultant analyses first, then
    the discussion bubbles in document order. *)
Definition collect (rv : revision) (p : page) : list utterance :=
  match rv with
  | Earlier => []
  | Latest =>
      map (fun c => {| role := consultant_role; content := textContent c |})
          (consultantMessages p)
  end ++
  map (fun b => {| role := textContent (role_tag b);
                   content := textContent (message_content b) |})
      (bubbles p).

(** [JSON.stringify(requestData)]: the array is read at that moment. *)
Definition stringify (h : heap) (q : continuation_request ref)
  : continuation_request (list entry) :=
  {| cr_discussion_data := cells h (cr_discussion_data q);
     cr_topic := cr_topic q; cr_roles := cr_roles q;
     cr_num_additional_turns := cr_num_additional_turns q;
     cr_language := cr_language q; cr_use_document := cr_use_document q;
     cr_current_turn := cr_current_turn q;
     cr_current_role_index := cr_current_role_index q;
     cr_settings := cr_settings q |}.

(** The assignments to [requestData] between two requests. *)
Definition move_on (q : continuation_request ref) (discussion_data : ref)
           (d : data) : continuation_request ref :=
  {| cr_discussion_data := discussion_data;
     cr_topic := cr_topic q; cr_roles := cr_roles q;
     cr_num_additional_turns := cr_num_additional_turns q;
     cr_language := cr_language q; cr_use_document := cr_use_document q;
     cr_current_turn := next_turn d;
     cr_current_role_index := next_role_index d;
     cr_settings := cr_settings q |}.

Definition continuation_header (q : continuation_request ref) : jsstring :=
  if cr_use_document q then header_prefix ++ cr_topic q ++ document_suffix
  else header_prefix ++ cr_topic q.

(** The body of [fetchNextContinuationTurn]: one request and the
    handling of its reply. *)
Definition continuation_step (srv : server)
           (requestData : continuation_request ref) (currentDiscussionData : ref)
           (after : Z) (p : page) : page * next (continuation_request ref) :=
  let totalRoles := Z.of_nat (List.length (cr_roles requestData)) in
  let totalIterations := mul (cr_num_additional_turns requestData) (Int totalRoles) in
  let currentIteration :=
    (cr_current_turn requestData * totalRoles + cr_current_role_index requestData)%Z in
  let (answer, p1) :=
    fetch srv (Some ((currentIteration + 1)%Z, totalIterations)) after
          (ContinueDiscussion (stringify (arrays p) requestData)) p in
  match read_reply answer with
  | Err e => (fail (Thrown e) p1, Stop Failed)
  | Ok d =>
      match reported d with
      | Some msg => (fail (Reported msg) p1, Stop Failed)
      | None =>
          match message d with
          | None =>
              (* the initialisation reply: on to the next request at once *)
              (p1, Again (move_on requestData (cr_discussion_data requestData) d) 0)
          | Some m =>
              let p2 := push currentDiscussionData (Some m) p1 in
              let p3 := appendMessage m p2 in
              let p4 := with_header (continuation_header requestData) p3 in
              if is_complete d then (showLoading false p4, Stop Completed)
              else (p4, Again (move_on requestData currentDiscussionData d) 500)
          end
      end
  end.

(** The chain of invocations of [fetchNextContinuationTurn]. *)
Fixpoint fetchNextContinuationTurn (srv : server) (fuel : nat)
         (requestData : continuation_request ref) (currentDiscussionData : ref)
         (after : Z) (p : page) : page * outcome :=
  match fuel with
  | O => (p, Pending)
  | S fuel' =>
      match continuation_step srv requestData currentDiscussionData after p with
      | (p', Stop o) => (p', o)
      | (p', Again requestData' after') =>
          fetchNextContinuationTurn srv fuel' requestData' currentDiscussionData after' p'
      end
  end.

Definition handleContinueDiscussion (rv : revision) (srv : server) (fuel : nat)
           (p : page) : page * outcome :=
  let additionalTurns := additionalTurnsInput (form p) in
  let useDocument := useDocumentForContinuation (form p) in
  if lt additionalTurns (Int 1) || gt additionalTurns (Int 5)
  then (showError AdditionalTurnsOutOfRange p, Refused)
  else
    let (discussionData, h) := new_array (map Some (collect rv p)) (arrays p) in
    let p1 := with_arrays h p in
    let roles := array_from_set (map role (collect rv p)) in
    let topic := topic_of_header (discussionTopicHeader p1) in
    let language := languageSelect (form p1) in
    let p2 := hideError (showLoading true p1) in
    let requestData :=
      {| cr_discussion_data := discussionData; cr_topic := topic;
         cr_roles := roles; cr_num_additional_turns := additionalTurns;
         cr_language := language; cr_use_document := useDocument;
         cr_current_turn := 0; cr_current_role_index := 0;
         cr_settings := current_settings rv p2 |} in
    fetchNextContinuationTurn srv fuel requestData discussionData 0 p2.

(** One pass of the loop of [displayDiscussion] over a new message. *)
Definition display_one (rv : revision) (p : page) (msg : utterance) : page :=
  if str_eqb (role msg) system_role then p
  else
    match rv with
    | Latest =>
        if str_eqb (role msg) consultant_role
        then with_container (bubbles p)
               (consultantMessages p ++ [markdownToHtml (Some (content msg))]) p
        else appendMessage msg p
    | Earlier => appendMessage msg p
    end.

(** [displayDiscussion(discussion, topic, true)]: the messages past the
    bubbles already on the page are added to it. *)
Definition displayDiscussion (rv : revision) (msgs : list utterance)
           (topic : jsstring) (p : page) : page :=
  let p1 := match rv with
            | Latest => with_header (header_prefix ++ topic) p
            | Earlier => p
            end in
  let startIndex := List.length (bubbles p1) in
  fold_left (display_one rv) (skipn startIndex msgs) p1.

Definition handleProvideGuidance (rv : revision) (srv : server) (p : page)
  : page * outcome :=
  let instruction := trim (guidanceInstructionInput (form p)) in
  let numAdditionalTurns := guidanceAdditionalTurns (form p) in
  let useDocument := useDocumentForGuidance (form p) in
  if negb (truthy instruction) then (showError InstructionMissing p, Refused)
  else if lt numAdditionalTurns (Int 1) || gt numAdditionalTurns (Int 5)
  then (showError AdditionalTurnsOutOfRange p, Refused)
  else
    let discussionData := collect rv p in
    let topic := topic_of_header (discussionTopicHeader p) in
    let language := languageSelect (form p) in
    let p1 := hideError (showLoading true p) in
    let requestData :=
      {| gr_discussion_data := discussionData; gr_topic := topic;
         gr_instruction := instruction;
         gr_num_additional_turns := numAdditionalTurns;
         gr_use_document := useDocument; gr_language := language;
         gr_settings := current_settings rv p1 |} in
    let (answer, p2) := fetch srv None 0 (ProvideGuidance requestData) p1 in
    match read_reply answer with
    | Err e => (fail (Thrown e) p2, Failed)
    | Ok d =>
        let p3 := showLoading false p2 in
        match reported d with
        | Some msg => (showError (Reported msg) p3, Failed)
        | None =>
            match discussion d with
            | None =>
                (* [displayDiscussion] reads [discussion.length] *)
                let p4 := match rv with
                          | Latest => with_header (header_prefix ++ topic) p3
                          | Earlier => p3
                          end in
                (fail (Thrown TypeError) (with_current None p4), Failed)
            | Some msgs =>
                let (r, h) := new_array (map Some msgs) (arrays p3) in
                let p4 := with_current (Some r) (with_arrays h p3) in
                let p5 := displayDiscussion rv msgs topic p4 in
                let header := if useDocument
                              then header_prefix ++ topic ++ document_suffix
                              else header_prefix ++ topic in
                (with_header header p5, Completed)
            end
        end
    end.

End Continuation.

(** *** The role fields of the form *)

Definition set_roles (rs : list jsstring) (p : page) : page :=
  with_form {| topicInput := topicInput (form p);
               numTurnsInput := numTurnsInput (form p);
               roleInputs := rs;
               languageSelect := languageSelect (form p);
               additionalTurnsInput := additionalTurnsInput (form p);
               useDocumentForContinuation := useDocumentForContinuation (form p);
               guidanceInstructionInput := guidanceInstructionInput (form p);
               guidanceAdditionalTurns := guidanceAdditionalTurns (form p);
               useDocumentForGuidance := useDocumentForGuidance (form p);
               settingsDialog := settingsDialog (form p) |} p.

(** [addRoleInput], unless six fields are there already: a new field,
    empty in the earlier revision; in the latest one its markup is
    [value="${escapeHtml(roleText)}"], so it holds [roleText] as a text
    field takes it from an attribute.  ([roleText] is what the caller
    passes, [importRoles] a role text; the click on the add button passes
    its event, whose string form is the text then.) *)
Definition addRoleInput (rv : revision) (roleText : jsstring) (p : page) : page :=
  if Nat.leb 6 (List.length (roleInputs (form p)))
  then showError TooManyRoles p
  else set_roles (roleInputs (form p) ++
                  [match rv with
                   | Earlier => []
                   | Latest => text_field_attribute roleText
                   end]) p.






(** *** Reading the log *)

(** The exchanges that ask for an utterance. *)
Definition generation (e : exchange) : bool :=
  match sent e with
  | GenerateNextTurn _ | ContinueDiscussion _ | ProvideGuidance _ => true
  | GetDocumentText => false
  end.

Definition generations (l : list exchange) : list exchange := filter generation l.

(** The transcript and the cursor a request carries. *)
Definition carried (q : request) : option (list entry * (Z * Z)) :=
  match q with
  | GenerateNextTurn t =>
      Some (tr_discussion t, (tr_currentTurn t, tr_currentRoleIndex t))
  | ContinueDiscussion c =>
      Some (cr_discussion_data c, (cr_current_turn c, cr_current_role_index c))
  | _ => None
  end.

(** How the handler of a request reads what came back. *)
Definition read (e : exchange) : result data exception :=
  match sent e with
  | GenerateNextTurn _ => read_turn_reply (received e)
  | ContinueDiscussion _ | ProvideGuidance _ => read_reply (received e)
  | GetDocumentText => read_json (received e)
  end.

(** A step fails when its request fails or its reply reports an error. *)
Definition step_failed (e : exchange) : bool :=
  match read e with
  | Err _ => true
  | Ok d => match reported d with Some _ => true | None => false end
  end.

(** The utterances a reply returns. *)
Definition returned (d : data) : list entry :=
  match message d with Some m => [Some m] | None => [] end.

(** Successive requests: each carries the given transcript and cursor,
    and the next one carries the transcript extended by what the reply
    returned, with the cursor of that reply. *)
Fixpoint chained (history : list entry) (cursor : Z * Z) (es : list exchange) : Prop :=
  match es with
  | [] => True
  | e :: es' =>
      carried (sent e) = Some (history, cursor) /\
      match es' with
      | [] => True
      | _ :: _ =>
          exists d, read e = Ok d /\ reported d = None /\
                    chained (history ++ returned d) (next_turn d, next_role_index d) es'
      end
  end.

(** What the handler of a request takes from its reply as the new
    message, [data.message]; a reply that cannot be read has none. *)
Definition answer (e : exchange) : entry :=
  match read e with
  | Ok d => message d
  | Err _ => None
  end.

(** The exchange of a fresh run over [roles] and [T] turns in which role
    [i] speaks in turn [t]: the request carries that cursor and the
    [t * R + i] utterances produced so far, the progress label counts it
    as number [t * R + i + 1] of [T * R], the reply carries an utterance of
    that role, and it reports completion exactly when it is the last one. *)
Definition fresh_exchange (roles : list jsstring) (T t i : nat) (e : exchange) : Prop :=
  exists q d speaker generated,
    sent e = GenerateNextTurn q /\
    tr_roles q = roles /\
    tr_currentTurn q = Z.of_nat t /\ tr_currentRoleIndex q = Z.of_nat i /\
    List.length (tr_discussion q) = t * List.length roles + i /\
    shown e = Some (Z.of_nat (t * List.length roles + i + 1),
                    Int (Z.of_nat T * Z.of_nat (List.length roles))) /\
    read e = Ok d /\ reported d = None /\
    nth_error roles i = Some speaker /\
    message d = Some {| role := speaker; content := generated |} /\
    is_complete d = Nat.eqb (t * List.length roles + i + 1) (List.length roles * T).


(** No document is stored for the session, as far as the page can tell:
    the earlier revision asks its own session storage, the latest one asks
    the server for the document text. *)
Definition document_absent (rv : revision) (srv : server) (p : page) : Prop :=
  match rv with
  | Earlier => uploadedDocument p = false
  | Latest => forall n d, read_json (srv n GetDocumentText) = Ok d -> has_document d = false
  end.

(** The request issued last. *)
Definition last_exchange (p : page) : option exchange :=
  last (map Some (log p)) None.

(** *** What an invocation does with a reply *)

(** What one invocation of the fresh loop does with the reply [a]. *)
Definition turn_step_handles (discussion : ref) (a : fetched) (p : page)
           (res : page * next (Z * Z)) : Prop :=
  form (fst res) = form p /\
  match read_turn_reply a with
  | Err x =>
      snd res = Stop Failed /\ arrays (fst res) = arrays p /\
      currentDiscussion (fst res) = currentDiscussion p /\
      errorShown (fst res) = Some (Thrown x) /\ loading (fst res) = false
  | Ok d =>
      match reported d with
      | Some msg =>
          snd res = Stop Failed /\ arrays (fst res) = arrays p /\
          currentDiscussion (fst res) = currentDiscussion p /\
          errorShown (fst res) = Some (Reported msg) /\ loading (fst res) = false
      | None =>
          arrays (fst res) = array_push discussion (message d) (arrays p) /\
          match message d with
          | None =>
              snd res = Stop Failed /\
              errorShown (fst res) = Some (Thrown TypeError)
          | Some m =>
              if is_complete d
              then snd res = Stop Completed /\
                   currentDiscussion (fst res) = Some discussion /\
                   loading (fst res) = false
              else snd res = Again (next_turn d, next_role_index d) 500 /\
                   currentDiscussion (fst res) = currentDiscussion p
          end
      end
  end.

(** What one invocation of the continuation loop does with the reply. *)
Definition continuation_step_handles (q : continuation_request ref)
           (discussionData : ref) (a : fetched) (p : page)
           (res : page * next (continuation_request ref)) : Prop :=
  form (fst res) = form p /\
  match read_reply a with
  | Err x =>
      snd res = Stop Failed /\ arrays (fst res) = arrays p /\
      errorShown (fst res) = Some (Thrown x) /\ loading (fst res) = false /\
      bubbles (fst res) = bubbles p
  | Ok d =>
      match reported d with
      | Some msg =>
          snd res = Stop Failed /\ arrays (fst res) = arrays p /\
          errorShown (fst res) = Some (Reported msg) /\ loading (fst res) = false /\
          bubbles (fst res) = bubbles p
      | None =>
          match message d with
          | None =>
              snd res = Again (move_on q (cr_discussion_data q) d) 0 /\
              arrays (fst res) = arrays p /\ bubbles (fst res) = bubbles p
          | Some m =>
              arrays (fst res) = array_push discussionData (Some m) (arrays p) /\
              bubbles (fst res) = bubbles p ++ [bubble_of m] /\
              snd res = if is_complete d then Stop Completed
                        else Again (move_on q discussionData d) 500
          end
      end
  end.

End Client.

(* ================================================================== *)
(** ** Sample pages and servers *)

Module Samples.
Import Js Wire Client.

Definition sample_settings : settings :=
  {| model := js "gemini-2.0-flash-lite"; temperature := js "0.7";
     maxOutputTokens := Int 1024 |}.

(** Two roles (a third field is left blank), two turns. *)
Definition sample_form : inputs :=
  {| topicInput := js " Remote work ";
     numTurnsInput := Int 2;
     roleInputs := [js "Analyst"; js " Engineer "; js "  "];
     languageSelect := js "ja";
     additionalTurnsInput := Int 2;
     useDocumentForContinuation := false;
     guidanceInstructionInput := js " Focus on costs ";
     guidanceAdditionalTurns := Int 1;
     useDocumentForGuidance := false;
     settingsDialog := sample_settings |}.

Definition empty_heap : heap := {| cells := fun _ => []; next_ref := 0 |}.

(** The page before anything was generated. *)
Definition sample_page : page :=
  {| form := sample_form; discussionTopicHeader := []; bubbles := [];
     consultantMessages := []; errorShown := None; loading := false;
     uploadedDocument := false; arrays := empty_heap;
     currentDiscussion := None; log := [] |}.

(** The page after a discussion of two roles was displayed. *)
Definition discussed_page : page :=
  {| form := sample_form;
     discussionTopicHeader := js "Remote work";
     bubbles := [ {| role_tag := js "Analyst"; message_content := js "Costs fall." |};
                  {| role_tag := js "Engineer"; message_content := js "Latency grows." |};
                  {| role_tag := js "Analyst"; message_content := js "Agreed." |} ];
     consultantMessages := []; errorShown := None; loading := false;
     uploadedDocument := false; arrays := empty_heap;
     currentDiscussion := None; log := [] |}.

(** The text of an element that holds no markup is its inner HTML. *)
Definition plain_text : jsstring -> jsstring := fun html => html.

(** A server that cannot be reached. *)
Definition offline : server := fun _ _ => Rejected (js "offline").

(** A prompt builder and a gateway for the sequencer: the prompt is the
    name of the speaking role, and the model answers with its prompt. *)
Definition speaker_prompt :
  Sequencer.DiscussionRequest -> jsstring -> option Sequencer.DocumentContext -> jsstring :=
  fun _ speaker _ => speaker.

Definition echo : nat -> nat -> Sequencer.generator :=
  fun _ _ prompt _ => Ok prompt.

(** The page after a discussion in which every bubble bears the same role
    name (a fresh run accepts the same role text in two fields). *)
Definition monologue_page : page :=
  {| form := sample_form;
     discussionTopicHeader := js "Remote work";
     bubbles := [ {| role_tag := js "Analyst"; message_content := js "Costs fall." |};
                  {| role_tag := js "Analyst"; message_content := js "Indeed." |} ];
     consultantMessages := []; errorShown := None; loading := false;
     uploadedDocument := false; arrays := empty_heap;
     currentDiscussion := None; log := [] |}.

(** The form with given role fields and a given turn count. *)
Definition form_with (roles : list jsstring) (turns : jsnum) : inputs :=
  {| topicInput := js "Remote work";
     numTurnsInput := turns;
     roleInputs := roles;
     languageSelect := js "ja";
     additionalTurnsInput := Int 6;
     useDocumentForContinuation := false;
     guidanceInstructionInput := js "Focus on costs";
     guidanceAdditionalTurns := Int 0;
     useDocumentForGuidance := false;
     settingsDialog := sample_settings |}.

Definition page_with (roles : list jsstring) (turns : jsnum) : page :=
  with_form (form_with roles turns) discussed_page.

(** A server that answers the first request of a continuation with a bare
    cursor, and every later request with a last utterance. *)
Definition initialising : server :=
  fun n _ =>
    match n with
    | O =>
        Sequencer.reply
          {| error := None; message := None; is_complete := false;
             next_turn := 0; next_role_index := 0; success := true;
             document_text := None; discussion := None |}
    | S _ =>
        Sequencer.reply
          {| error := None;
             message := Some {| role := js "Analyst"; content := js "One more point." |};
             is_complete := true; next_turn := 1; next_role_index := 0;
             success := true; document_text := None; discussion := None |}
    end.


End Samples.

(* ================================================================== *)
(** ** More of JavaScript's strings *)

Module Text.
Import Js Regex.

(** [s.split(sep)] for a separator of one code unit: the pieces between
    its occurrences; a string without any is its only piece. *)
Fixpoint split (sep : cu) (s : jsstring) : list jsstring :=
  match s with
  | [] => [[]]
  | c :: s' =>
      if cu_eqb c sep then [] :: split sep s'
      else match split sep s' with
           | piece :: pieces => (c :: piece) :: pieces
           | [] => [[c]]
           end
  end.

(** [s.split(/\r?\n/)]: the pattern matches a line feed, together with
    the carriage return right before it when there is one. *)
Fixpoint split_lines (s : jsstring) : list jsstring :=
  match s with
  | [] => [[]]
  | c :: s' =>
      if cu_eqb c 10%N then [] :: split_lines s'
      else
        match s' with
        | d :: s'' =>
            if cu_eqb c 13%N && cu_eqb d 10%N then [] :: split_lines s''
            else match split_lines s' with
                 | line :: lines => (c :: line) :: lines
                 | [] => [[c]]
                 end
        | [] => [[c]]
        end
  end.

(** The code units of [\s]: white space and line terminators. *)
Definition space_units : list cu :=
  [9; 10; 11; 12; 13; 32; 160; 5760; 8192; 8193; 8194; 8195; 8196;
   8197; 8198; 8199; 8200; 8201; 8202; 8232; 8233; 8239; 8287;
   12288; 65279]%N.

(** [s.match(r)] for a pattern without the [g] flag: the leftmost match,
    as the matched text and the text of group 1. *)
Fixpoint search (ic : bool) (r : re) (prev : option cu) (s : jsstring)
  : option (jsstring * option jsstring) :=
  let here :=
    match match_here ic r prev s with
    | Some (len, cap) =>
        let matched := firstn len s in
        Some (matched,
              match cap with
              | Some (off, n) => Some (firstn n (skipn off matched))
              | None => None
              end)
    | None => None
    end in
  match here with
  | Some m => Some m
  | None =>
      match s with
      | c :: s' => search ic r (Some c) s'
      | [] => None
      end
  end.

(** A number in a template literal. *)
Definition decimal (n : nat) : jsstring :=
  js (NilZero.string_of_uint (Nat.to_uint n)).

End Text.

(* ================================================================== *)
(** ** Roles read from a file *)

Module RolesFile.
Import Js Regex Render Wire Client Text.

(** [{ name, description }] *)
Record role_row := { name : jsstring; description : jsstring }.

(** [{ roles, topic }]; the topic is [null] unless the file is read with
    its first line as the topic. *)
Record roles_file := { roles : list role_row; topic : option jsstring }.

(** The errors thrown by the parsers, [processFile] and [importRoles],
    and the two messages [handleRolesFileSelect] shows by itself. *)
Inductive file_error :=
| EmptyCsv
| EmptyTxt
| UnsupportedFormat
| NoValidRole
| NothingToImport
| ParseFailed
| ReadFailed.

(** [content.split(/\r?\n/).map(line => line.trim()).filter(line => line !== '')] *)
Definition lines_of (content : jsstring) : list jsstring :=
  filter truthy (map trim (split_lines content)).

(** The body of the loops over the lines: a line of two columns or more
    gives a role, from its first two columns. *)
Definition row_of (sep : cu) (line : jsstring) : list role_row :=
  match split sep line with
  | first :: second :: _ => [{| name := trim first; description := trim second |}]
  | _ => []
  end.

(** The topic read from the first line: its second column when it has
    one, its only column otherwise. *)
Definition topic_of (sep : cu) (line : jsstring) : jsstring :=
  match split sep line with
  | _ :: second :: _ => trim second
  | first :: _ => trim first
  | [] => []
  end.

(** [parseRolesCsv] and [parseRolesTxt] are the same text but for the
    separator (a comma, a colon) and the error thrown on a file without
    lines; [includesTopic] is the state of the switch in the dialog. *)
Definition parse_rows (sep : cu) (empty : file_error) (includesTopic : bool)
           (content : jsstring) : result roles_file file_error :=
  match lines_of content with
  | [] => Err empty
  | first :: rest =>
      let rows := if includesTopic
                  then flat_map (row_of sep) rest
                  else flat_map (row_of sep) (first :: rest) in
      Ok {| roles := filter (fun r => truthy (name r)) rows;
            topic := if includesTopic then Some (topic_of sep first) else None |}
  end.

Definition parseRolesCsv : bool -> jsstring -> result roles_file file_error :=
  parse_rows 44%N EmptyCsv.

Definition parseRolesTxt : bool -> jsstring -> result roles_file file_error :=
  parse_rows 58%N EmptyTxt.

(** An [li] of the preview: its inner HTML and its two data attributes. *)
Record preview_item := {
  item_html : jsstring;
  roleName : jsstring;
  roleDescription : jsstring }.

(** What [rolesPreviewContainer] holds after [displayRolesPreview]: the
    inner HTML of the topic header when there is one, the list items and
    the line with the count. *)
Record preview := {
  topicHeader : option jsstring;
  items : list preview_item;
  countInfo : jsstring }.

(** The text before the topic in its header (a bold label and a space). *)
Definition topic_label : jsstring :=
  js "<strong>" ++ [12486; 12540; 12510; 58]%N ++ js "</strong> ".

Definition preview_item_of (index : nat) (r : role_row) : preview_item :=
  {| item_html := js "<small>" ++ decimal (index + 1) ++ js ".</small> <strong>"
                  ++ escapeHtml (Some (name r)) ++ js "</strong>: "
                  ++ escapeHtml (Some (description r));
     roleName := name r;
     roleDescription := description r |}.

Fixpoint preview_items (index : nat) (rs : list role_row) : list preview_item :=
  match rs with
  | [] => []
  | r :: rs' => preview_item_of index r :: preview_items (S index) rs'
  end.

(** [displayRolesPreview(result)] *)
Definition displayRolesPreview (result : roles_file) : preview :=
  {| topicHeader :=
       match topic result with
       | Some t => if truthy t then Some (topic_label ++ escapeHtml (Some t)) else None
       | None => None
       end;
     items := preview_items 0 (roles result);
     countInfo := [21512; 35336; 32]%N ++ decimal (List.length (roles result))
                  ++ [32; 20491; 12398; 24441; 21106]%N |}.

(** What [rolesPreviewContainer] holds: one of three notes, or a preview. *)
Inductive preview_area :=
| Reading                   (* the file is being read *)
| NoPreview                 (* no preview can be shown *)
| NotRead                   (* the file could not be read *)
| Previewed (v : preview).

(** The dialog of the role upload: the preview area, the import button,
    the two switches and the two message areas (the status holds the
    number of roles and the topic its message names). *)
Record dialog := {
  rolesPreviewContainer : preview_area;
  importRolesBtn_disabled : bool;
  includesTopicSwitch : bool;
  clearExistingRoles : bool;
  rolesUploadStatus : option (nat * option jsstring);
  rolesUploadError : option file_error }.

(** The files [processFile] reads by itself; a JSON file is sent to the
    server before [processFile] is reached. *)
Inductive extension := Csv | Txt | Other.

(** [processFile(content)]: parse, refuse a file without roles, show the
    preview and enable the import button; [false] when anything is
    thrown on the way. *)
Definition processFile (ext : extension) (content : jsstring) (dl : dialog)
  : dialog * bool :=
  let parsed :=
    match ext with
    | Csv => parseRolesCsv (includesTopicSwitch dl) content
    | Txt => parseRolesTxt (includesTopicSwitch dl) content
    | Other => Err UnsupportedFormat
    end in
  match parsed with
  | Err _ => (dl, false)
  | Ok result =>
      match roles result with
      | [] => (dl, false)
      | _ :: _ =>
          ({| rolesPreviewContainer := Previewed (displayRolesPreview result);
              importRolesBtn_disabled := false;
              includesTopicSwitch := includesTopicSwitch dl;
              clearExistingRoles := clearExistingRoles dl;
              rolesUploadStatus := rolesUploadStatus dl;
              rolesUploadError := rolesUploadError dl |}, true)
      end
  end.

(** The encodings [handleRolesFileSelect] reads a file with. *)
Inductive encoding := Utf8 | ShiftJis | EucJp.

(** The encoding tried first: UTF-8 for a file that starts with its byte
    order mark; otherwise Shift-JIS as soon as some byte lies in 0x81-0x9F
    or in 0xE0-0xEF; UTF-8 for the rest. *)
Definition detect (content : list N) : encoding :=
  if starts_with [239; 187; 191]%N content then Utf8
  else if existsb (fun byte => (129 <=? byte) && (byte <=? 159)
                               || (224 <=? byte) && (byte <=? 239))%N content
       then ShiftJis
       else Utf8.

Definition with_failure (area : preview_area) (e : file_error) (dl : dialog) : dialog :=
  {| rolesPreviewContainer := area;
     importRolesBtn_disabled := importRolesBtn_disabled dl;
     includesTopicSwitch := includesTopicSwitch dl;
     clearExistingRoles := clearExistingRoles dl;
     rolesUploadStatus := rolesUploadStatus dl;
     rolesUploadError := Some e |}.

(** The second reading of a file whose first reading did not parse. *)
Definition retry (ext : extension) (read : encoding -> option jsstring)
           (second : encoding) (dl : dialog) : dialog :=
  match read second with
  | None => with_failure NotRead ReadFailed dl
  | Some text =>
      let (dl', success) := processFile ext text dl in
      if success then dl' else with_failure NoPreview ParseFailed dl'
  end.

(** A file chosen in the dialog, as the handler meets it: its extension,
    and what the browser's [FileReader] gives for its bytes and for its
    text in an encoding ([None] when the reader reports an error). *)
Record chosen_file := {
  fileExt : extension;
  readAsArrayBuffer : option (list N);
  readAsText : encoding -> option jsstring }.

(** [handleRolesFileSelect] for the files it reads by itself (a JSON file
    is sent to the server instead): nothing without a file; otherwise the
    preview, the import button and the messages are reset, the bytes are
    read to choose an encoding, the text is read in that encoding and,
    when it does not parse, once more in the next one. *)
Definition handleRolesFileSelect (file : option chosen_file) (dl : dialog) : dialog :=
  match file with
  | None => dl
  | Some f =>
      let dl0 := {| rolesPreviewContainer := Reading;
                    importRolesBtn_disabled := true;
                    includesTopicSwitch := includesTopicSwitch dl;
                    clearExistingRoles := clearExistingRoles dl;
                    rolesUploadStatus := None;
                    rolesUploadError := None |} in
      match readAsArrayBuffer f with
      | None => with_failure NotRead ReadFailed dl0
      | Some content =>
          let encoding := detect content in
          match readAsText f encoding with
          | None => with_failure NotRead ReadFailed dl0
          | Some text =>
              let (dl1, success) := processFile (fileExt f) text dl0 in
              if success then dl1
              else match encoding with
                   | Utf8 => retry (fileExt f) (readAsText f) ShiftJis dl1
                   | ShiftJis => retry (fileExt f) (readAsText f) EucJp dl1
                   | EucJp => dl1
                   end
          end
      end
  end.

(** The pattern [importRoles] reads the topic with: the label, white
    space, and the rest of the line as group 1. *)
Definition topic_pattern : re :=
  Cat (lits [12486; 12540; 12510; 58]%N)
      (Cat (Star true (OneOf space_units)) (Group (Star true Dot))).

(** [topicInput.value = topic], the topic field being a text field. *)
Definition set_topic (t : jsstring) (p : page) : page :=
  with_form {| topicInput := text_field_value t;
               numTurnsInput := numTurnsInput (form p);
               roleInputs := roleInputs (form p);
               languageSelect := languageSelect (form p);
               additionalTurnsInput := additionalTurnsInput (form p);
               useDocumentForContinuation := useDocumentForContinuation (form p);
               guidanceInstructionInput := guidanceInstructionInput (form p);
               guidanceAdditionalTurns := guidanceAdditionalTurns (form p);
               useDocumentForGuidance := useDocumentForGuidance (form p);
               settingsDialog := settingsDialog (form p) |} p.

(** [roleInputs[index].value = v], the role fields being text fields. *)
Fixpoint set_value (index : nat) (v : jsstring) (fields : list jsstring) : list jsstring :=
  match fields, index with
  | [], _ => []
  | _ :: fields', O => text_field_value v :: fields'
  | f :: fields', S index' => f :: set_value index' v fields'
  end.

(** The loop of [importRoles] over the role texts: the fields found
    before the loop are filled in order, the texts beyond them go to
    [addRoleInput]. *)
Fixpoint fill_roles (texts : list jsstring) (currentIndex found : nat) (p : page) : page :=
  match texts with
  | [] => p
  | roleText :: texts' =>
      if Nat.ltb currentIndex found
      then fill_roles texts' (S currentIndex) found
                      (set_roles (set_value currentIndex roleText (roleInputs (form p))) p)
      else fill_roles texts' currentIndex found (addRoleInput Latest roleText p)
  end.

(** What the role texts become as fields when the loop starts with
    [found] fields: a text that finds a field is assigned to it, a text
    beyond them is written into the markup of a new field. *)
Definition field_values (found : nat) (texts : list jsstring) : list jsstring :=
  map text_field_value (firstn found texts)
  ++ map text_field_attribute (skipn found texts).

(** The roles [importRoles] reads from the list items of the preview,
    through their data attributes: those with a name and a description. *)
Definition preview_roles (area : preview_area) : list role_row :=
  filter (fun r => truthy (name r) && truthy (description r))
         (map (fun li => {| name := roleName li; description := roleDescription li |})
              match area with
              | Previewed v => items v
              | _ => []
              end).

(** The text of a role in its field: name, colon, space, description. *)
Definition role_text (r : role_row) : jsstring :=
  name r ++ js ": " ++ description r.

Section ImportedRoles.
(** [element.innerText] of an element whose inner HTML is given: the
    browser's rendering, not part of the script. *)
Variable innerText : jsstring -> jsstring.

(** The topic [importRoles] finds in the preview. *)
Definition preview_topic (v : preview) : option jsstring :=
  match topicHeader v with
  | None => None
  | Some html =>
      match search false topic_pattern None (innerText html) with
      | Some (_, Some group1) => if truthy group1 then Some (trim group1) else None
      | _ => None
      end
  end.

(** [importRoles()].  The role fields are taken to sit one in each
    [.role-input-group], as [addRoleInput] and [loadExampleTopic] of this
    revision build them. *)
Definition importRoles (p : page) (dl : dialog) : page * dialog :=
  let roles := preview_roles (rolesPreviewContainer dl) in
  let topic := match rolesPreviewContainer dl with
               | Previewed v => preview_topic v
               | _ => None
               end in
  match roles with
  | [] =>
      (p, {| rolesPreviewContainer := rolesPreviewContainer dl;
             importRolesBtn_disabled := importRolesBtn_disabled dl;
             includesTopicSwitch := includesTopicSwitch dl;
             clearExistingRoles := clearExistingRoles dl;
             rolesUploadStatus := rolesUploadStatus dl;
             rolesUploadError := Some NothingToImport |})
  | _ :: _ =>
      let p1 := match topic with
                | Some t => if truthy t then set_topic t p else p
                | None => p
                end in
      let p2 := if clearExistingRoles dl
                then set_roles (map (fun _ => []) (firstn 2 (roleInputs (form p1)))) p1
                else p1 in
      let p3 := fill_roles (map role_text roles) 0
                           (List.length (roleInputs (form p2))) p2 in
      (p3, {| rolesPreviewContainer := rolesPreviewContainer dl;
              importRolesBtn_disabled := importRolesBtn_disabled dl;
              includesTopicSwitch := includesTopicSwitch dl;
              clearExistingRoles := clearExistingRoles dl;
              rolesUploadStatus :=
                Some (List.length roles,
                      match topic with
                      | Some t => if truthy t then Some t else None
                      | None => None
                      end);
              rolesUploadError := rolesUploadError dl |})
  end.

End ImportedRoles.

End RolesFile.

(* ================================================================== *)
(** ** The role fields of the form over time *)

Module RoleFields.
Import Js Client.



End RoleFields.
(* ================================================================== *)
(** ** Classes of text and of messages *)

Module Classes.
Import Js Regex Wire Client.

(** Whether one of the substitutions of [markdownToHtml] before the last
    can start from this code unit: the asterisk, the backtick and the
    less-than sign anywhere, the number sign, the hyphen, the two bullets
    and the digits at the start of a line. *)
Definition opens (at_start : bool) (c : cu) : bool :=
  mem c [42; 96; 60]%N
  || at_start && (mem c [35; 45; 8226; 12539]%N || (48 <=? c) && (c <=? 57))%N.

(** A text without markup: none of the five characters of [escapeHtml],
    and no position a substitution before the last can start from.  The
    flag tells whether the text begins at the start of a line. *)
Fixpoint unmarked (at_start : bool) (s : jsstring) : bool :=
  match s with
  | [] => true
  | c :: s' =>
      negb (mem c [38; 60; 62; 34; 39]%N) && negb (opens at_start c)
      && unmarked (line_terminator c) s'
  end.

(** The code units of a text inside a line that holds no markup of its
    own: no line terminator, none of the five characters of
    [escapeHtml], no asterisk and no backtick. *)
Definition inline (c : cu) : bool :=
  negb (mem c [38; 60; 62; 34; 39; 42; 96]%N) && negb (line_terminator c).

(** A decimal digit. *)
Definition digit (c : cu) : bool := ((48 <=? c) && (c <=? 57))%N.

(** Parts put together with a separator, as [Array.prototype.join] does. *)
Fixpoint join (sep : jsstring) (parts : list jsstring) : jsstring :=
  match parts with
  | [] => []
  | [part] => part
  | part :: parts' => part ++ sep ++ join sep parts'
  end.

(** No match of [r] starts within [a], in the text [a ++ b] that comes
    after [prev]. *)
Fixpoint quiet (r : re) (prev : option cu) (a b : jsstring) : bool :=
  match a with
  | [] => true
  | c :: a' =>
      match match_here true r prev (a ++ b) with
      | None => quiet r (Some c) a' b
      | Some _ => false
      end
  end.

(** The messages [displayDiscussion] shows as a discussion bubble: those
    that bear neither the system role nor, in the latest revision, the
    consultant's. *)
Definition shown_as_bubble (rv : revision) (msg : utterance) : bool :=
  negb (str_eqb (role msg) system_role)
  && match rv with
     | Latest => negb (str_eqb (role msg) consultant_role)
     | Earlier => true
     end.

(** The bubbles the fresh loop shows for the entries it stores: one for
    each utterance, none for an entry that holds no utterance. *)
Definition shown (entries : list entry) : list bubble :=
  flat_map (fun e => match e with
                     | Some m => [bubble_of m]
                     | None => []
                     end) entries.

(** Whether the fresh loop, invoked at this cursor over this many roles,
    takes the invocation for the first of a run and resets the display. *)
Definition first_iteration (totalRoles : nat) (currentTurn currentRoleIndex : Z) : bool :=
  (currentTurn * Z.of_nat totalRoles + currentRoleIndex + 1 =? 1)%Z.

(** A text with no white space at either end. *)
Definition trimmed (s : jsstring) : bool :=
  match s with
  | [] => true
  | c :: _ => negb (white_space c) && negb (white_space (last s c))
  end.

(** A cell of a roles file the parsers read back as it stands: no white
    space at its ends, no separator and no line feed inside. *)
Definition cell (sep : cu) (s : jsstring) : bool :=
  trimmed s && negb (mem sep s) && negb (mem 10%N s).

(** A role every line of which the parsers read back: a name that is not
    empty, and both parts cells. *)
Definition well_formed (sep : cu) (r : RolesFile.role_row) : bool :=
  truthy (RolesFile.name r) && cell sep (RolesFile.name r)
  && cell sep (RolesFile.description r).

(** A text a text field holds as it is given, whether assigned or written
    into the markup: no NUL, no line feed and no carriage return. *)
Definition kept_by_field (s : jsstring) : bool :=
  forallb (fun c => negb (mem c [0; 10; 13]%N)) s.

(** Lines put together with line feeds, as [Array.prototype.join] with a
    line feed does. *)
Fixpoint join_lines (lines : list jsstring) : jsstring :=
  match lines with
  | [] => []
  | [line] => line
  | line :: lines' => line ++ 10%N :: join_lines lines'
  end.

(** The line of a role in a file with the given separator. *)
Definition line_of (sep : cu) (r : RolesFile.role_row) : jsstring :=
  RolesFile.name r ++ sep :: RolesFile.description r.

End Classes.

(* ================================================================== *)
(** ** More sample pages *)

Module Cases.
Import Js Wire Client.

(** The page after a fresh run of two roles and one turn: the transcript
    is array 0, and [currentDiscussion] names it. *)
Definition generated_page : page :=
  {| form := Samples.sample_form;
     discussionTopicHeader := js "Remote work";
     bubbles := [ bubble_of {| role := js "Analyst"; content := js "Costs fall." |};
                  bubble_of {| role := js "Engineer"; content := js "Latency grows." |} ];
     consultantMessages := []; errorShown := None; loading := false;
     uploadedDocument := false;
     arrays := {| cells := fun r =>
                             if Nat.eqb r 0
                             then [ Some {| role := js "Analyst"; content := js "Costs fall." |};
                                    Some {| role := js "Engineer";
                                            content := js "Latency grows." |} ]
                             else [];
                  next_ref := 1 |};
     currentDiscussion := Some 0; log := [] |}.

(** The page of [Samples.discussed_page] with a consultant analysis on
    display. *)
Definition analysed_page : page :=
  with_container (bubbles Samples.discussed_page) [js "Risks are moderate."]
                 Samples.discussed_page.

(** What a guidance run adds in the samples: the directive and one
    utterance. *)
Definition guided_news : list utterance :=
  [ {| role := system_role; content := js "Focus on costs" |};
    {| role := js "Engineer"; content := js "Costs first, then." |} ].

(** A server that answers a guidance request with the transcript it was
    sent followed by [guided_news]. *)
Definition guiding : server :=
  fun _ q =>
    match q with
    | ProvideGuidance g =>
        Sequencer.reply
          {| error := None; message := None; is_complete := true;
             next_turn := 0; next_role_index := 0; success := true;
             document_text := None;
             discussion := Some (gr_discussion_data g ++ guided_news) |}
    | _ => Rejected (js "offline")
    end.

(** Two roles, and the CSV file that holds them under a topic line. *)
Definition two_roles : list RolesFile.role_row :=
  [ {| RolesFile.name := js "Analyst"; RolesFile.description := js "weighs the costs" |};
    {| RolesFile.name := js "Engineer"; RolesFile.description := js "builds the system" |} ].

Definition two_roles_csv : jsstring :=
  js "Topic,Remote work" ++ [10%N]
  ++ js "Analyst,weighs the costs" ++ [10%N]
  ++ js "Engineer,builds the system".

(** The same roles in a CSV file without a topic line, and that file as
    the browser meets it: its bytes in UTF-8 and its text. *)
Definition roles_csv : jsstring :=
  js "Analyst,weighs the costs" ++ [10%N] ++ js "Engineer,builds the system".

Definition roles_csv_file : RolesFile.chosen_file :=
  {| RolesFile.fileExt := RolesFile.Csv;
     RolesFile.readAsArrayBuffer := Some roles_csv;
     RolesFile.readAsText := fun _ => Some roles_csv |}.

(** A CSV file of one role whose name holds a carriage return that is not
    followed by a line feed. *)
Definition returned_csv : jsstring :=
  js "A" ++ [13%N] ++ js "X,weighs the costs".

Definition returned_csv_file : RolesFile.chosen_file :=
  {| RolesFile.fileExt := RolesFile.Csv;
     RolesFile.readAsArrayBuffer := Some returned_csv;
     RolesFile.readAsText := fun _ => Some returned_csv |}.

(** A file with a Japanese role name in UTF-8, without byte order mark:
    its first byte is 0xE5. *)
Definition japanese_bytes : list N :=
  [229; 189; 185; 44; 97]%N.

(** A server that answers every request for a turn with the same last
    utterance. *)
Definition closing : server :=
  fun _ q =>
    match q with
    | GenerateNextTurn _ =>
        Sequencer.reply
          {| error := None;
             message := Some {| role := js "Analyst"; content := js "Costs fall." |};
             is_complete := true; next_turn := 1; next_role_index := 0;
             success := true; document_text := None; discussion := None |}
    | _ => Rejected (js "offline")
    end.

(** The dialog before a file is chosen, with the clearing switch on. *)
Definition fresh_dialog : RolesFile.dialog :=
  {| RolesFile.rolesPreviewContainer := RolesFile.NoPreview;
     RolesFile.importRolesBtn_disabled := true;
     RolesFile.includesTopicSwitch := false;
     RolesFile.clearExistingRoles := true;
     RolesFile.rolesUploadStatus := None;
     RolesFile.rolesUploadError := None |}.

End Cases.

(* ================================================================== *)
(** * Properties *)

Import Js Regex Render Wire Client.

(** ** The renderer *)

Lemma Forall_take (A : Type) (P : A -> Prop) (n : nat) (l : list A) :
  Forall P l -> Forall P (firstn n l).
Proof.
  intro H. revert n. induction H as [| x l Hx Hl IH]; intros [| n]; simpl;
    constructor; auto.
Qed.

Lemma Forall_drop (A : Type) (P : A -> Prop) (n : nat) (l : list A) :
  Forall P l -> Forall P (skipn n l).
Proof.
  intro H. revert n. induction H as [| x l Hx Hl IH]; intros [| n]; simpl;
    try constructor; auto.
Qed.

Section ReplaceFacts.
Variable A : Type.
Variable code : A -> cu.
Variable mk : cu -> A.
Hypothesis code_mk : forall c, code (mk c) = c.

Lemma last_code_map (prev : option cu) (xs : list A) :
  last_code (fun c : cu => c) prev (map code xs) = last_code code prev xs.
Proof.
  unfold last_code. rewrite <- map_rev.
  destruct (rev xs); reflexivity.
Qed.

Lemma map_code_mk (t : jsstring) : map code (map mk t) = t.
Proof.
  rewrite map_map. rewrite <- (map_id t) at 2.
  apply map_ext. intro c. apply code_mk.
Qed.

Lemma expand_map (rp : replacement) (matched : list A) (cap : capture) :
  map code (expand code mk rp matched cap)
  = expand (fun c : cu => c) (fun c : cu => c) rp (map code matched) cap.
Proof.
  destruct rp as [ps | f]; simpl.
  - induction ps as [| piece ps IH]; simpl; [reflexivity |].
    rewrite map_app, IH. f_equal.
    destruct piece as [t |]; simpl.
    + rewrite map_code_mk, map_id. reflexivity.
    + destruct cap as [[off len] |]; [| reflexivity].
      rewrite <- firstn_map, <- skipn_map. reflexivity.
  - rewrite map_code_mk, !map_id. reflexivity.
Qed.

(** Rewriting tagged characters and forgetting the tags is rewriting the
    bare code units. *)
Lemma replace_from_map (fuel : nat) (ic : bool) (r : re) (rp : replacement) :
  forall (prev : option cu) (s : list A),
    map code (replace_from code mk fuel ic r rp prev s)
    = replace_from (fun c : cu => c) (fun c : cu => c) fuel ic r rp prev (map code s).
Proof.
  induction fuel as [| fuel IH]; intros prev s; simpl; [reflexivity |].
  rewrite map_id.
  destruct (match_here ic r prev (map code s)) as [[len cap] |].
  - destruct len as [| len].
    + destruct s as [| c s']; simpl.
      * apply (expand_map rp [] cap).
      * rewrite map_app. simpl. rewrite IH.
        f_equal. apply (expand_map rp [] cap).
    + rewrite map_app, IH, expand_map.
      rewrite !firstn_map, !skipn_map, last_code_map. reflexivity.
  - destruct s as [| c s']; simpl; [reflexivity |].
    rewrite IH. reflexivity.
Qed.

Lemma replace_map (ic : bool) (r : re) (rp : replacement) (s : list A) :
  map code (replace code mk ic r rp s)
  = replace (fun c : cu => c) (fun c : cu => c) ic r rp (map code s).
Proof.
  unfold replace. rewrite replace_from_map, length_map. reflexivity.
Qed.

Variable P : A -> Prop.
Variable Q : cu -> Prop.
Hypothesis mk_ok : forall c, Q c -> P (mk c).

Lemma Forall_mk (t : jsstring) : Forall Q t -> Forall P (map mk t).
Proof.
  intro H. apply Forall_map. eapply Forall_impl; [| exact H]. exact mk_ok.
Qed.

Lemma expand_Forall (rp : replacement) (matched : list A) (cap : capture) :
  adds_only Q rp -> Forall P matched -> Forall P (expand code mk rp matched cap).
Proof.
  intros Hrp Hm. destruct rp as [ps | f]; simpl in *.
  - induction ps as [| piece ps IH]; simpl; [constructor |].
    apply Forall_app. split.
    + destruct piece as [t |]; simpl.
      * apply Forall_mk. apply Hrp. left. reflexivity.
      * destruct cap as [[off len] |]; [| constructor].
        apply Forall_take, Forall_drop. exact Hm.
    + apply IH. intros t Ht. apply Hrp. right. exact Ht.
  - apply Forall_mk. apply Hrp.
Qed.

(** A rewritten text is made of characters of the text and of characters
    the replacement adds. *)
Lemma replace_from_Forall (fuel : nat) (ic : bool) (r : re) (rp : replacement) :
  adds_only Q rp ->
  forall (prev : option cu) (s : list A),
    Forall P s -> Forall P (replace_from code mk fuel ic r rp prev s).
Proof.
  intro Hrp.
  induction fuel as [| fuel IH]; intros prev s Hs; simpl; [exact Hs |].
  destruct (match_here ic r prev (map code s)) as [[len cap] |].
  - assert (Hout : Forall P (expand code mk rp (firstn len s) cap))
      by (apply expand_Forall; [exact Hrp | apply Forall_take; exact Hs]).
    destruct len as [| len].
    + destruct s as [| c s']; [exact Hout |].
      apply Forall_app. split; [exact Hout |].
      inversion Hs; subst. constructor; [assumption | apply IH; assumption].
    + apply Forall_app. split; [exact Hout |].
      apply IH. apply Forall_drop. exact Hs.
  - destruct s as [| c s']; [constructor |].
    inversion Hs; subst. constructor; [assumption | apply IH; assumption].
Qed.

End ReplaceFacts.

Section EscapeFacts.

Ltac split_on_code c n :=
  let E := fresh "E" in
  destruct (N.eqb c n) eqn:E;
  [apply N.eqb_eq in E; subst c | ].

Lemma special_is_escaped (c : cu) :
  atom_ok false (OneOf [38; 60; 62; 34; 39]%N) c = true ->
  lookup entity_map [c] = entity_of c.
Proof.
  intro H.
  split_on_code c 38%N; [reflexivity |].
  split_on_code c 60%N; [reflexivity |].
  split_on_code c 62%N; [reflexivity |].
  split_on_code c 34%N; [reflexivity |].
  split_on_code c 39%N; [reflexivity |].
  exfalso. revert H.
  unfold atom_ok, char_eq, cu_eqb. simpl.
  rewrite E, E0, E1, E2, E3. discriminate.
Qed.

Lemma other_is_kept (c : cu) :
  atom_ok false (OneOf [38; 60; 62; 34; 39]%N) c = false ->
  entity_of c = [c].
Proof.
  unfold atom_ok, char_eq, entity_of, cu_eqb. simpl.
  destruct (N.eqb c 38); [discriminate |].
  destruct (N.eqb c 60); [discriminate |].
  destruct (N.eqb c 62); [discriminate |].
  destruct (N.eqb c 34); [discriminate |].
  destruct (N.eqb c 39); [discriminate |].
  reflexivity.
Qed.

Lemma escape_from (fuel : nat) :
  forall (prev : option cu) (s : jsstring),
    List.length s < fuel ->
    replace_from (fun c : cu => c) (fun c : cu => c) fuel false special
                 (Callback (lookup entity_map)) prev s
    = flat_map entity_of s.
Proof.
  induction fuel as [| fuel IH]; intros prev s Hlen; [inversion Hlen |].
  destruct s as [| c s']; [reflexivity |].
  cbn [replace_from map].
  unfold match_here, special. cbn [exec].
  destruct (atom_ok false (OneOf [38; 60; 62; 34; 39]%N) c) eqn:Hc.
  - cbn [firstn skipn expand map flat_map].
    rewrite map_id, IH by (simpl in Hlen; lia).
    rewrite (special_is_escaped c Hc). reflexivity.
  - cbn [flat_map]. rewrite IH by (simpl in Hlen; lia).
    rewrite (other_is_kept c Hc). reflexivity.
Qed.

(** [escapeHtml] rewrites the text one character at a time. *)
Lemma escapeHtml_chars (s : jsstring) :
  escapeHtml (Some s) = flat_map entity_of s.
Proof.
  unfold escapeHtml, escape, replace. apply escape_from. lia.
Qed.

Lemma entity_clean (c : cu) : Forall (fun x => delimiter x = false) (entity_of c).
Proof.
  unfold entity_of, cu_eqb.
  split_on_code c 38%N; [repeat constructor |].
  split_on_code c 60%N; [repeat constructor |].
  split_on_code c 62%N; [repeat constructor |].
  split_on_code c 34%N; [repeat constructor |].
  split_on_code c 39%N; [repeat constructor |].
  constructor; [| constructor].
  unfold delimiter, mem, cu_eqb. simpl. rewrite E0, E1, E2, E3. reflexivity.
Qed.

Lemma escapeHtml_clean (s : jsstring) :
  Forall (fun x => delimiter x = false) (escapeHtml (Some s)).
Proof.
  rewrite escapeHtml_chars.
  induction s as [| c s IH]; simpl; [constructor |].
  apply Forall_app. split; [apply entity_clean | exact IH].
Qed.

Lemma apply_rules_map (A : Type) (code : A -> cu) (mk : cu -> A)
      (code_mk : forall c, code (mk c) = c) (rules : list (re * replacement)) :
  forall html : list A,
    map code (apply_rules code mk rules html)
    = apply_rules (fun c : cu => c) (fun c : cu => c) rules (map code html).
Proof.
  induction rules as [| rule rules IH]; intro html; simpl; [reflexivity |].
  rewrite IH, (replace_map code mk code_mk). reflexivity.
Qed.

Lemma apply_rules_Forall (A : Type) (code : A -> cu) (mk : cu -> A)
      (P : A -> Prop) (mk_ok : forall c, P (mk c)) (rules : list (re * replacement)) :
  forall html : list A,
    Forall P html -> Forall P (apply_rules code mk rules html).
Proof.
  induction rules as [| rule rules IH]; intros html H; simpl; [exact H |].
  apply IH. unfold replace.
  apply (@replace_from_Forall A code mk P (fun _ => True)).
  - intros c _. apply mk_ok.
  - destruct (snd rule) as [ps | f]; simpl.
    + intros t _. apply Forall_forall. intros; exact I.
    + intro m. apply Forall_forall. intros; exact I.
  - exact H.
Qed.

(** Forgetting the origins gives back [markdownToHtml]. *)
Lemma traced_erasure (s : jsstring) :
  map fst (markdownToHtml_traced s) = markdownToHtml (Some s).
Proof.
  unfold markdownToHtml_traced, markdownToHtml, render.
  destruct (truthy s); [| reflexivity].
  rewrite apply_rules_map by reflexivity.
  unfold escapeHtml, escape.
  rewrite (replace_map (@fst cu origin) (fun c => (c, Content)))
    by reflexivity.
  rewrite map_map. simpl. rewrite map_id. reflexivity.
Qed.

(** In the traced run, every delimiter is markup. *)
Lemma traced_delimiters (s : jsstring) :
  Forall (fun x => delimiter (fst x) = true -> snd x = Markup)
         (markdownToHtml_traced s).
Proof.
  unfold markdownToHtml_traced, render.
  destruct (truthy s); [| constructor].
  apply apply_rules_Forall; [intros c _; reflexivity |].
  apply Forall_forall. intros x Hx Hd. exfalso.
  assert (Hin : In (fst x) (escapeHtml (Some s))).
  { assert (Heq : map fst (escape (@fst cu origin) (fun c => (c, Content))
                                  (map (fun c => (c, Content)) s))
                  = escapeHtml (Some s)).
    { unfold escapeHtml, escape.
      rewrite (replace_map (@fst cu origin) (fun c => (c, Content)))
        by reflexivity.
      rewrite map_map. simpl. rewrite map_id. reflexivity. }
    rewrite <- Heq. apply in_map. exact Hx. }
  pose proof (escapeHtml_clean s) as Hclean.
  rewrite Forall_forall in Hclean.
  rewrite (Hclean _ Hin) in Hd. discriminate.
Qed.

End EscapeFacts.

(** C10. [escapeHtml] replaces each of the five special characters by its
    entity and leaves the others, so its result holds none of the four
    delimiters; [markdownToHtml] applies its rules to the escaped text, its
    result is the traced one with the origins forgotten, and in the traced
    result every delimiter is markup and none is a character of the
    utterance; a missing or empty argument renders as the empty string. *)
Theorem markdown_escapes_content (s : jsstring) :
  escapeHtml (Some s) = flat_map entity_of s /\
  Forall (fun c => delimiter c = false) (escapeHtml (Some s)) /\
  markdownToHtml (Some s)
  = (if truthy s
     then apply_rules (fun c => c) (fun c => c) markdown_rules (escapeHtml (Some s))
     else []) /\
  map fst (markdownToHtml_traced s) = markdownToHtml (Some s) /\
  Forall (fun x => delimiter (fst x) = true -> snd x = Markup)
         (markdownToHtml_traced s) /\
  markdownToHtml None = [] /\
  markdownToHtml (Some []) = [].
Proof.
  repeat split.
  - apply escapeHtml_chars.
  - apply escapeHtml_clean.
  - apply traced_erasure.
  - apply traced_delimiters.
Qed.

(** ** The request loops, whatever the server answers *)

Section LoopFacts.
Variable rv : revision.
Variable srv : server.

Lemma generations_app (l1 l2 : list exchange) :
  generations (l1 ++ l2) = generations l1 ++ generations l2.
Proof. apply filter_app. Qed.

Lemma cells_push_same (r : ref) (x : entry) (h : heap) :
  cells (array_push r x h) r = cells h r ++ [x].
Proof. simpl. rewrite Nat.eqb_refl. reflexivity. Qed.

(** The requests [first_display] adds to the log ask for no utterance,
    and it leaves the arrays alone. *)
Lemma first_display_log (md : mode) (topic : jsstring) (p : page) :
  exists pre, log (first_display rv srv md topic p) = log p ++ pre /\
              generations pre = [] /\
              arrays (first_display rv srv md topic p) = arrays p /\
              form (first_display rv srv md topic p) = form p /\
              currentDiscussion (first_display rv srv md topic p) = currentDiscussion p.
Proof.
  destruct md as [| b]; simpl.
  - exists []. rewrite app_nil_r. auto.
  - destruct rv; simpl.
    + exists []. rewrite app_nil_r. auto.
    + eexists. repeat split.
Qed.

(** One invocation of the fresh loop: the request it sends, and what it
    does with the reply. *)
Lemma turn_step_spec (md : mode) (topic : jsstring) (roles : list jsstring)
      (numTurns : jsnum) (discussion : ref) (t r : Z) (language : jsstring)
      (after : Z) (p : page) :
  exists pre e q,
    log (fst (turn_step rv srv md topic roles numTurns discussion t r language after p))
    = log p ++ pre ++ [e] /\
    generations pre = [] /\
    sent e = GenerateNextTurn q /\
    received e = srv (List.length (log p ++ pre)) (GenerateNextTurn q) /\
    shown e = Some ((t * Z.of_nat (List.length roles) + r + 1)%Z,
                    mul numTurns (Int (Z.of_nat (List.length roles)))) /\
    delay e = after /\
    tr_discussion q = transcript discussion p /\
    tr_currentTurn q = t /\ tr_currentRoleIndex q = r /\
    tr_roles q = roles /\ tr_numTurns q = numTurns /\
    tr_use_document q = use_document_field md /\
    turn_step_handles discussion (received e) p
      (turn_step rv srv md topic roles numTurns discussion t r language after p).
Proof.
  unfold turn_step.
  set (R := Z.of_nat (List.length roles)).
  set (p1 := if (t * R + r + 1 =? 1)%Z then first_display rv srv md topic p else p).
  assert (H1 : exists pre, log p1 = log p ++ pre /\ generations pre = [] /\
                           arrays p1 = arrays p /\ form p1 = form p /\
                           currentDiscussion p1 = currentDiscussion p).
  { subst p1. destruct (t * R + r + 1 =? 1)%Z.
    - apply first_display_log.
    - exists []. rewrite app_nil_r. auto. }
  destruct H1 as (pre & Hlog & Hgen & Harr & Hform & Hcur).
  unfold fetch. cbv beta iota zeta.
  set (q := {| tr_topic := topic; tr_roles := roles; tr_numTurns := numTurns;
               tr_discussion := transcript discussion p1;
               tr_currentTurn := t; tr_currentRoleIndex := r;
               tr_language := language; tr_use_document := use_document_field md;
               tr_settings := current_settings rv p1 |}).
  set (a := srv (List.length (log p1)) (GenerateNextTurn q)).
  exists pre,
    {| shown := Some ((t * R + r + 1)%Z, mul numTurns (Int R)); delay := after;
       sent := GenerateNextTurn q; received := a |}, q.
  assert (Hlogs : forall res : page * next (Z * Z),
             log (fst res) = log p1 ++
               [{| shown := Some ((t * R + r + 1)%Z, mul numTurns (Int R));
                   delay := after; sent := GenerateNextTurn q; received := a |}] ->
             log (fst res) = log p ++ pre ++
               [{| shown := Some ((t * R + r + 1)%Z, mul numTurns (Int R));
                   delay := after; sent := GenerateNextTurn q; received := a |}]).
  { intros res H. rewrite H, Hlog, app_assoc. reflexivity. }
  unfold turn_step_handles. cbn [shown delay sent received].
  destruct (read_turn_reply a) as [d | x].
  - destruct (reported d) as [msg |].
    + repeat split; auto; try (apply Hlogs; reflexivity);
        try (subst a; rewrite Hlog; reflexivity);
        try (subst q; cbn; unfold transcript; rewrite Harr; reflexivity).
    + destruct (message d) as [m |]; [destruct (is_complete d) |];
        repeat split; auto; try (apply Hlogs; reflexivity);
        try (subst a; rewrite Hlog; reflexivity);
        try (subst q; cbn; unfold transcript; rewrite Harr; reflexivity);
        try (cbn; rewrite Harr; reflexivity).
  - repeat split; auto; try (apply Hlogs; reflexivity);
      try (subst a; rewrite Hlog; reflexivity);
      try (subst q; cbn; unfold transcript; rewrite Harr; reflexivity).
Qed.

Lemma continuation_step_spec (q : continuation_request ref) (discussionData : ref)
      (after : Z) (p : page) :
  exists e,
    log (fst (continuation_step srv q discussionData after p)) = log p ++ [e] /\
    sent e = ContinueDiscussion (stringify (arrays p) q) /\
    received e = srv (List.length (log p)) (ContinueDiscussion (stringify (arrays p) q)) /\
    shown e = Some ((cr_current_turn q * Z.of_nat (List.length (cr_roles q))
                     + cr_current_role_index q + 1)%Z,
                    mul (cr_num_additional_turns q)
                        (Int (Z.of_nat (List.length (cr_roles q))))) /\
    delay e = after /\
    continuation_step_handles q discussionData (received e) p
      (continuation_step srv q discussionData after p).
Proof.
  unfold continuation_step, fetch. cbv beta iota zeta.
  eexists. unfold continuation_step_handles.
  destruct (read_reply (srv (List.length (log p))
                            (ContinueDiscussion (stringify (arrays p) q))))
    as [d | x] eqn:Hread.
  - destruct (reported d) as [msg |] eqn:Hrep.
    + repeat split; cbn [received]; rewrite ?Hread, ?Hrep; repeat split.
    + destruct (message d) as [m |] eqn:Hm; [destruct (is_complete d) eqn:Hc |];
        repeat split; cbn [received]; rewrite ?Hread, ?Hrep, ?Hm, ?Hc; repeat split.
  - repeat split; cbn [received]; rewrite ?Hread; repeat split.
Qed.

End LoopFacts.

Section Chaining.
Variable rv : revision.
Variable srv : server.

(** An invocation schedules the next one only on a reply that carries
    an utterance and is not the last. *)
Lemma turn_handles_again (discussion : ref) (a : fetched) (p p' : page)
      (t' r' after' : Z) :
  turn_step_handles discussion a p (p', Again (t', r') after') ->
  exists d m,
    read_turn_reply a = Ok d /\ reported d = None /\ message d = Some m /\
    is_complete d = false /\ t' = next_turn d /\ r' = next_role_index d /\
    after' = 500%Z /\
    arrays p' = array_push discussion (Some m) (arrays p) /\
    form p' = form p.
Proof.
  unfold turn_step_handles. cbn [fst snd].
  intros [Hform H].
  destruct (read_turn_reply a) as [d | x]; [| destruct H; discriminate].
  destruct (reported d) as [msg |] eqn:Hrep; [destruct H; discriminate |].
  destruct H as [Harr H].
  destruct (message d) as [m |] eqn:Hm; [| destruct H; discriminate].
  destruct (is_complete d) eqn:Hc; [destruct H; discriminate |].
  destruct H as [H _]. inversion H; subst.
  exists d, m. repeat split; auto.
Qed.

Lemma continuation_handles_again (q q' : continuation_request ref)
      (discussionData : ref) (a : fetched) (p p' : page) (after' : Z) :
  continuation_step_handles q discussionData a p (p', Again q' after') ->
  exists d,
    read_reply a = Ok d /\ reported d = None /\ form p' = form p /\
    ((message d = None /\ q' = move_on q (cr_discussion_data q) d /\
      after' = 0%Z /\ arrays p' = arrays p /\ bubbles p' = bubbles p)
     \/
     (exists m, message d = Some m /\ is_complete d = false /\
                q' = move_on q discussionData d /\ after' = 500%Z /\
                arrays p' = array_push discussionData (Some m) (arrays p))).
Proof.
  unfold continuation_step_handles. cbn [fst snd].
  intros [Hform H].
  destruct (read_reply a) as [d | x]; [| destruct H; discriminate].
  destruct (reported d) as [msg |] eqn:Hrep; [destruct H; discriminate |].
  exists d. repeat split; auto.
  destruct (message d) as [m |] eqn:Hm.
  - right. exists m. destruct H as (Harr & Hb & H).
    destruct (is_complete d) eqn:Hc; [discriminate |].
    inversion H; subst. auto.
  - left. destruct H as (H & Harr & Hb). inversion H; subst. auto.
Qed.

Lemma generations_single (pre : list exchange) (e : exchange) (rest : list exchange) :
  generations pre = [] -> generation e = true ->
  generations (pre ++ [e] ++ rest) = e :: generations rest.
Proof.
  intros Hpre He. rewrite !generations_app, Hpre. simpl.
  unfold generations at 1. simpl. rewrite He. reflexivity.
Qed.

(** The requests of a fresh run are chained from the transcript and the
    cursor the loop is entered with. *)
Lemma turn_loop_chained (fuel : nat) :
  forall (md : mode) (topic : jsstring) (roles : list jsstring) (numTurns : jsnum)
         (discussion : ref) (t r : Z) (language : jsstring) (after : Z) (p : page),
  exists es,
    log (fst (turn_loop rv srv fuel md topic roles numTurns discussion t r
                        language after p)) = log p ++ es /\
    chained (transcript discussion p) (t, r) (generations es).
Proof.
  induction fuel as [| fuel IH]; intros md topic roles numTurns disc t r language after p.
  - exists []. simpl. rewrite app_nil_r. auto.
  - cbn [turn_loop].
    destruct (turn_step_spec rv srv md topic roles numTurns disc t r
                             language after p)
      as (pre & e & q & Hlog & Hpre & Hsent & Hrecv & _ & _ & Hdisc & Ht & Hr & _ & _ & _ & Hh).
    destruct (turn_step rv srv md topic roles numTurns disc t r language after p)
      as [p' nx].
    cbn [fst] in Hlog.
    assert (Hgen : generation e = true) by (unfold generation; rewrite Hsent; reflexivity).
    assert (Hcar : carried (sent e) = Some (transcript disc p, (t, r)))
      by (rewrite Hsent; simpl; rewrite Hdisc, Ht, Hr; reflexivity).
    destruct nx as [o | [t' r'] after'].
    + exists (pre ++ [e]). split; [exact Hlog |].
      rewrite <- (app_nil_r (pre ++ [e])), <- app_assoc.
      rewrite generations_single by assumption.
      simpl. auto.
    + destruct (turn_handles_again Hh)
        as (d & m & Hread & Hrep & Hm & _ & -> & -> & _ & Harr & _).
      destruct (IH md topic roles numTurns disc (next_turn d) (next_role_index d)
                   language after' p') as (es' & Hlog' & Hch).
      exists (pre ++ [e] ++ es'). split.
      * rewrite Hlog', Hlog, <- !app_assoc. reflexivity.
      * rewrite generations_single by assumption.
        cbn [chained]. split; [exact Hcar |].
        destruct (generations es') as [| e' rest]; [exact I |].
        exists d. unfold read. rewrite Hsent.
        split; [exact Hread | split; [exact Hrep |]].
        unfold returned. rewrite Hm.
        unfold transcript in Hch |- *.
        rewrite Harr, cells_push_same in Hch. exact Hch.
Qed.

(** The same for a continuation, as long as the request object and the
    loop share the transcript array. *)
Lemma continuation_chained (fuel : nat) :
  forall (q : continuation_request ref) (discussionData : ref) (after : Z) (p : page),
    cr_discussion_data q = discussionData ->
    exists es,
      log (fst (fetchNextContinuationTurn srv fuel q discussionData after p))
      = log p ++ es /\
      chained (transcript discussionData p)
              (cr_current_turn q, cr_current_role_index q) (generations es).
Proof.
  induction fuel as [| fuel IH]; intros q cd after p Hq.
  - exists []. simpl. rewrite app_nil_r. auto.
  - cbn [fetchNextContinuationTurn].
    destruct (continuation_step_spec srv q cd after p)
      as (e & Hlog & Hsent & Hrecv & _ & _ & Hh).
    destruct (continuation_step srv q cd after p) as [p' nx].
    cbn [fst] in Hlog.
    assert (Hgen : generation e = true) by (unfold generation; rewrite Hsent; reflexivity).
    assert (Hcar : carried (sent e)
                   = Some (transcript cd p, (cr_current_turn q, cr_current_role_index q)))
      by (rewrite Hsent; simpl; rewrite Hq; reflexivity).
    destruct nx as [o | q' after'].
    + exists [e]. split; [exact Hlog |].
      unfold generations. simpl. rewrite Hgen. simpl. auto.
    + destruct (continuation_handles_again Hh) as (d & Hread & Hrep & _ & Hcase).
      assert (Hq' : cr_discussion_data q' = cd /\
                    cr_current_turn q' = next_turn d /\
                    cr_current_role_index q' = next_role_index d /\
                    transcript cd p' = transcript cd p ++ returned d).
      { unfold returned, transcript.
        destruct Hcase as [(Hm & -> & _ & Harr & _) | (m & Hm & _ & -> & _ & Harr)];
          rewrite Hm, Harr; simpl; repeat split; auto.
        - rewrite app_nil_r. reflexivity.
        - rewrite Nat.eqb_refl. reflexivity. }
      destruct Hq' as (Hq1 & Hq2 & Hq3 & Hq4).
      destruct (IH q' cd after' p' Hq1) as (es' & Hlog' & Hch).
      exists ([e] ++ es'). split.
      * rewrite Hlog', Hlog, <- app_assoc. reflexivity.
      * change ([e] ++ es') with ([] ++ [e] ++ es').
        rewrite generations_single by (auto; reflexivity).
        cbn [chained]. split; [exact Hcar |].
        destruct (generations es') as [| e' rest]; [exact I |].
        exists d. unfold read. rewrite Hsent.
        split; [exact Hread | split; [exact Hrep |]].
        rewrite Hq2, Hq3, Hq4 in Hch. exact Hch.
Qed.

End Chaining.

Section Handlers.
Variable srv : server.
Variable fuel : nat.

Lemma nothing_sent (p p' : page) (history : list entry) (cursor : Z * Z) :
  log p' = log p ->
  exists es : list exchange, log p' = log p ++ es /\ chained history cursor (generations es).
Proof. intro H. exists []. rewrite app_nil_r. simpl. auto. Qed.

Lemma generateDiscussion_chained (rv : revision) (topic : jsstring) (roles : list jsstring)
      (numTurns : jsnum) (p : page) :
  exists es,
    log (fst (generateDiscussion rv srv fuel topic roles numTurns p)) = log p ++ es /\
    chained [] (0, 0)%Z (generations es).
Proof.
  unfold generateDiscussion, generateNextTurn, reset_discussion, new_array.
  cbv beta iota zeta.
  match goal with
  | |- context [turn_loop rv srv fuel Plain topic roles numTurns ?r 0 0 ?l 0 ?p2] =>
      destruct (turn_loop_chained rv srv fuel Plain topic roles numTurns r 0 0 l 0 p2)
        as (es & Hlog & Hch)
  end.
  exists es. split; [exact Hlog |].
  unfold transcript in Hch. cbn [arrays with_current with_arrays cells] in Hch.
  rewrite Nat.eqb_refl in Hch. exact Hch.
Qed.

Lemma grounded_loop_chained (rv : revision) (topic : jsstring) (roles : list jsstring)
      (numTurns : jsnum) (language : jsstring) (p : page) :
  exists es,
    log (fst (let (currentDiscussion, p2) := reset_discussion p in
              generateNextTurnWithDocument rv srv fuel topic roles numTurns
                currentDiscussion 0 0 language true 0 p2)) = log p ++ es /\
    chained [] (0, 0)%Z (generations es).
Proof.
  unfold generateNextTurnWithDocument, reset_discussion, new_array.
  cbv beta iota zeta.
  match goal with
  | |- context [turn_loop rv srv fuel ?md topic roles numTurns ?r 0 0 ?l 0 ?p2] =>
      destruct (turn_loop_chained rv srv fuel md topic roles numTurns r 0 0 l 0 p2)
        as (es & Hlog & Hch)
  end.
  exists es. split; [exact Hlog |].
  unfold transcript in Hch. cbn [arrays with_current with_arrays cells] in Hch.
  rewrite Nat.eqb_refl in Hch. exact Hch.
Qed.

(** A request for the document text in front of a chain changes nothing
    to the chain. *)
Lemma after_document_request (p p1 p' : page) (e : exchange)
      (history : list entry) (cursor : Z * Z) :
  log p1 = log p ++ [e] -> generation e = false ->
  (exists es, log p' = log p1 ++ es /\ chained history cursor (generations es)) ->
  exists es, log p' = log p ++ es /\ chained history cursor (generations es).
Proof.
  intros H1 He (es & Hlog & Hch). exists ([e] ++ es). split.
  - rewrite Hlog, H1, <- app_assoc. reflexivity.
  - rewrite generations_app. unfold generations at 1. simpl. rewrite He. exact Hch.
Qed.

Lemma generateDiscussionWithDocument_chained (rv : revision) (topic : jsstring)
      (roles : list jsstring) (numTurns : jsnum) (p : page) :
  exists es,
    log (fst (generateDiscussionWithDocument rv srv fuel topic roles numTurns p))
    = log p ++ es /\
    chained [] (0, 0)%Z (generations es).
Proof.
  unfold generateDiscussionWithDocument. destruct rv.
  - apply (grounded_loop_chained Earlier topic roles numTurns _ (hideError (showLoading true p))).
  - unfold fetch. cbv beta iota zeta.
    match goal with
    | |- context [read_json ?a] => destruct (read_json a) as [d | x]
    end.
    + match goal with
      | |- context [if ?c then _ else _] => destruct c
      end.
      * eexists [_]. split; [reflexivity |]. simpl. exact I.
      * eapply after_document_request;
          [| | apply (grounded_loop_chained Latest topic roles numTurns)];
          reflexivity.
    + eexists [_]. split; [reflexivity |]. simpl. exact I.
Qed.

Lemma handleGenerateWithDocument_chained (rv : revision) (p : page) :
  exists es,
    log (fst (handleGenerateWithDocument rv srv fuel p)) = log p ++ es /\
    chained [] (0, 0)%Z (generations es).
Proof.
  unfold handleGenerateWithDocument.
  destruct (validate p); [apply nothing_sent; reflexivity |].
  destruct rv.
  - destruct (uploadedDocument p); simpl negb; cbv iota.
    + apply generateDiscussionWithDocument_chained.
    + apply nothing_sent; reflexivity.
  - unfold fetch. cbv beta iota zeta.
    match goal with
    | |- context [read_json ?a] => destruct (read_json a) as [d | x]
    end.
    + destruct (has_document d).
      * eapply after_document_request;
          [| | apply generateDiscussionWithDocument_chained];
          reflexivity.
      * eexists [_]. split; [reflexivity |]. simpl. exact I.
    + eexists [_]. split; [reflexivity |]. simpl. exact I.
Qed.

Lemma handleFormSubmit_chained (rv : revision) (p : page) :
  exists es,
    log (fst (handleFormSubmit rv srv fuel p)) = log p ++ es /\
    chained [] (0, 0)%Z (generations es).
Proof.
  unfold handleFormSubmit.
  destruct (validate p); [apply nothing_sent; reflexivity |].
  apply generateDiscussion_chained.
Qed.

Variable textContent : jsstring -> jsstring.

Lemma handleContinueDiscussion_chained (rv : revision) (p : page) :
  exists es,
    log (fst (handleContinueDiscussion textContent rv srv fuel p)) = log p ++ es /\
    chained (map Some (collect textContent rv p)) (0, 0)%Z (generations es).
Proof.
  unfold handleContinueDiscussion.
  match goal with
  | |- context [if ?c then _ else _] => destruct c
  end; [apply nothing_sent; reflexivity |].
  unfold new_array. cbv beta iota zeta.
  match goal with
  | |- context [fetchNextContinuationTurn srv fuel ?q ?r 0 ?p2] =>
      destruct (continuation_chained srv fuel q 0 p2 (eq_refl : cr_discussion_data q = r))
        as (es & Hlog & Hch)
  end.
  exists es. split; [exact Hlog |].
  unfold transcript in Hch.
  cbn [arrays with_arrays with_error with_loading hideError showLoading cells
       cr_current_turn cr_current_role_index] in Hch.
  rewrite Nat.eqb_refl in Hch. exact Hch.
Qed.

End Handlers.

(** C2. In a fresh run, a grounded run and a continuation alike, and
    whatever the server answers, the first request carries the carried-in
    history (empty for a fresh run) with the cursor (0, 0), and every later
    request carries the transcript of the request before it extended by
    exactly what the reply to that request returned, together with the
    cursor of that reply.  The server is an arbitrary function of the
    request it receives: nothing it might keep between two requests is
    needed to build the next one. *)
Theorem requests_carry_transcript_and_cursor
        (rv : revision) (textContent : jsstring -> jsstring) (srv : server)
        (fuel : nat) (p : page) :
  (exists es,
      log (fst (handleFormSubmit rv srv fuel p)) = log p ++ es /\
      chained [] (0, 0)%Z (generations es)) /\
  (exists es,
      log (fst (handleGenerateWithDocument rv srv fuel p)) = log p ++ es /\
      chained [] (0, 0)%Z (generations es)) /\
  (exists es,
      log (fst (handleContinueDiscussion textContent rv srv fuel p)) = log p ++ es /\
      chained (map Some (collect textContent rv p)) (0, 0)%Z (generations es)).
Proof.
  split; [| split].
  - apply handleFormSubmit_chained.
  - apply handleGenerateWithDocument_chained.
  - apply handleContinueDiscussion_chained.
Qed.


Section FailedStep.
Variable rv : revision.
Variable srv : server.

Lemma last_exchange_app (p : page) (l : list exchange) (e : exchange) :
  log p = l ++ [e] -> last_exchange p = Some e.
Proof.
  intro H. unfold last_exchange. rewrite H, map_app. simpl.
  apply last_last.
Qed.

Lemma turn_step_failed (md : mode) (topic : jsstring) (roles : list jsstring)
      (numTurns : jsnum) (disc : ref) (t r : Z) (language : jsstring)
      (after : Z) (p : page) (e : exchange) :
  last_exchange (fst (turn_step rv srv md topic roles numTurns disc t r language after p))
  = Some e ->
  carried (sent e) = Some (transcript disc p, (t, r)) /\
  (step_failed e = true ->
   snd (turn_step rv srv md topic roles numTurns disc t r language after p) = Stop Failed /\
   arrays (fst (turn_step rv srv md topic roles numTurns disc t r language after p))
   = arrays p /\
   currentDiscussion (fst (turn_step rv srv md topic roles numTurns disc t r language after p))
   = currentDiscussion p /\
   errorShown (fst (turn_step rv srv md topic roles numTurns disc t r language after p))
   <> None).
Proof.
  intro Hlast.
  destruct (turn_step_spec rv srv md topic roles numTurns disc t r language after p)
    as (pre & e0 & q & Hlog & _ & Hsent & _ & _ & _ & Hdisc & Ht & Hr & _ & _ & _ & Hh).
  rewrite app_assoc in Hlog.
  rewrite (@last_exchange_app _ _ _ Hlog) in Hlast. inversion Hlast; subst e0.
  split.
  - rewrite Hsent. simpl. rewrite Hdisc, Ht, Hr. reflexivity.
  - unfold step_failed, read. rewrite Hsent.
    destruct Hh as [_ Hh].
    destruct (read_turn_reply (received e)) as [d | x].
    + destruct (reported d) as [msg |]; [| discriminate].
      intros _. destruct Hh as (H1 & H2 & H3 & H4 & _).
      repeat split; auto. rewrite H4. discriminate.
    + intros _. destruct Hh as (H1 & H2 & H3 & H4 & _).
      repeat split; auto. rewrite H4. discriminate.
Qed.

Lemma continuation_step_failed (q : continuation_request ref) (cd : ref)
      (after : Z) (p : page) (e : exchange) :
  last_exchange (fst (continuation_step srv q cd after p)) = Some e ->
  carried (sent e)
  = Some (transcript (cr_discussion_data q) p,
          (cr_current_turn q, cr_current_role_index q)) /\
  (step_failed e = true ->
   snd (continuation_step srv q cd after p) = Stop Failed /\
   arrays (fst (continuation_step srv q cd after p)) = arrays p /\
   bubbles (fst (continuation_step srv q cd after p)) = bubbles p /\
   errorShown (fst (continuation_step srv q cd after p)) <> None).
Proof.
  intro Hlast.
  destruct (continuation_step_spec srv q cd after p)
    as (e0 & Hlog & Hsent & _ & _ & _ & Hh).
  rewrite (@last_exchange_app _ _ _ Hlog) in Hlast. inversion Hlast; subst e0.
  split.
  - rewrite Hsent. reflexivity.
  - unfold step_failed, read. rewrite Hsent.
    destruct Hh as [_ Hh].
    destruct (read_reply (received e)) as [d | x].
    + destruct (reported d) as [msg |]; [| discriminate].
      intros _. destruct Hh as (H1 & H2 & H4 & _ & H5).
      repeat split; auto. rewrite H4. discriminate.
    + intros _. destruct Hh as (H1 & H2 & H4 & _ & H5).
      repeat split; auto. rewrite H4. discriminate.
Qed.

End FailedStep.

(** C3. Take any invocation of the fresh (or grounded) loop and any
    invocation of the continuation loop, on any page and against any
    server.  If the step it issues fails (the request fails, or the reply
    reports an error) then the loop stops there with a failure and an error
    on display, the transcript array holds exactly what it held before the
    step, and issuing the step again with the same arguments sends the same
    transcript and the same cursor as the failed request did. *)
Theorem failed_step_leaves_transcript_and_cursor
        (rv : revision) (srv : server) (fuel : nat) (after : Z) (p : page) :
  (forall md topic roles numTurns disc t r language e,
      let stepped := turn_step rv srv md topic roles numTurns disc t r language after p in
      last_exchange (fst stepped) = Some e ->
      step_failed e = true ->
      turn_loop rv srv (S fuel) md topic roles numTurns disc t r language after p
      = (fst stepped, Failed) /\
      errorShown (fst stepped) <> None /\
      carried (sent e) = Some (transcript disc p, (t, r)) /\
      transcript disc (fst stepped) = transcript disc p /\
      currentDiscussion (fst stepped) = currentDiscussion p /\
      forall srv' after' e',
        last_exchange (fst (turn_step rv srv' md topic roles numTurns disc t r
                                      language after' (fst stepped))) = Some e' ->
        carried (sent e') = carried (sent e))
  /\
  (forall q cd e,
      let stepped := continuation_step srv q cd after p in
      last_exchange (fst stepped) = Some e ->
      step_failed e = true ->
      fetchNextContinuationTurn srv (S fuel) q cd after p = (fst stepped, Failed) /\
      errorShown (fst stepped) <> None /\
      carried (sent e)
      = Some (transcript (cr_discussion_data q) p,
              (cr_current_turn q, cr_current_role_index q)) /\
      transcript cd (fst stepped) = transcript cd p /\
      bubbles (fst stepped) = bubbles p /\
      forall srv' after' e',
        last_exchange (fst (continuation_step srv' q cd after' (fst stepped))) = Some e' ->
        carried (sent e') = carried (sent e)).
Proof.
  split.
  - intros md topic roles numTurns disc t r language e stepped Hlast Hfail.
    subst stepped.
    destruct (turn_step_failed rv srv md topic roles numTurns disc t r language
                               after p Hlast) as (Hcar & H).
    destruct (H Hfail) as (Hstop & Harr & Hcur & Herr).
    repeat split; auto.
    + cbn [turn_loop].
      destruct (turn_step rv srv md topic roles numTurns disc t r language after p)
        as [p' nx].
      cbn [fst snd] in *. rewrite Hstop. reflexivity.
    + unfold transcript. rewrite Harr. reflexivity.
    + intros srv' after' e' Hlast'.
      destruct (turn_step_failed rv srv' md topic roles numTurns disc t r language
                                 after' _ Hlast') as (Hcar' & _).
      rewrite Hcar', Hcar. unfold transcript. rewrite Harr. reflexivity.
  - intros q cd e stepped Hlast Hfail. subst stepped.
    destruct (continuation_step_failed srv q cd after p Hlast) as (Hcar & H).
    destruct (H Hfail) as (Hstop & Harr & Hb & Herr).
    repeat split; auto.
    + cbn [fetchNextContinuationTurn].
      destruct (continuation_step srv q cd after p) as [p' nx].
      cbn [fst snd] in *. rewrite Hstop. reflexivity.
    + unfold transcript. rewrite Harr. reflexivity.
    + intros srv' after' e' Hlast'.
      destruct (continuation_step_failed srv' q cd after' _ Hlast') as (Hcar' & _).
      rewrite Hcar', Hcar. unfold transcript. rewrite Harr. reflexivity.
Qed.

(** ** A fresh run against the sequencer *)

Section FreshRun.
Variable build_prompt :
  Sequencer.DiscussionRequest -> jsstring -> option Sequencer.DocumentContext -> jsstring.
Variable gateway : nat -> nat -> Sequencer.generator.
Variable patience : nat.
Variable store : option Sequencer.DocumentContext.
Hypothesis gateway_answers :
  forall n k prompt s, exists generated, gateway n k prompt s = Ok generated.

Local Abbreviation srv := (Sequencer.serve build_prompt gateway patience store).

Lemma digits_unique (R t i t0 r0 : nat) :
  i < R -> r0 < R -> t * R + i = t0 * R + r0 -> t = t0 /\ i = r0.
Proof.
  intros Hi Hr H.
  assert (t = t0) by nia. subst. split; [reflexivity | lia].
Qed.

(** The reply of the sequencer to a well-formed ungrounded step request. *)
Lemma serve_turn (n : nat) (q : turn_request) (T t r : nat) :
  2 <= List.length (tr_roles q) ->
  tr_numTurns q = Int (Z.of_nat T) -> 1 <= T <= 10 ->
  tr_currentTurn q = Z.of_nat t -> tr_currentRoleIndex q = Z.of_nat r ->
  r < List.length (tr_roles q) ->
  tr_use_document q = None ->
  exists d speaker generated,
    read_turn_reply (srv n (GenerateNextTurn q)) = Ok d /\
    reported d = None /\
    nth_error (tr_roles q) r = Some speaker /\
    message d = Some {| role := speaker; content := generated |} /\
    ((S r < List.length (tr_roles q) /\
      next_turn d = Z.of_nat t /\ next_role_index d = Z.of_nat (S r) /\
      is_complete d = (Z.of_nat T <=? Z.of_nat t)%Z)
     \/
     (S r = List.length (tr_roles q) /\
      next_turn d = Z.of_nat (S t) /\ next_role_index d = 0%Z /\
      is_complete d = (Z.of_nat T <=? Z.of_nat (S t))%Z)).
Proof.
  intros HR HT HTb Ht Hr HrR Hdoc.
  destruct (nth_error (tr_roles q) r) as [speaker |] eqn:Hnth;
    [| apply nth_error_None in Hnth; lia].
  unfold Sequencer.serve, Sequencer.produceNextUtterance.
  assert (Hc : Sequencer.in_contract (Sequencer.of_turn_request q) = Some (Z.of_nat T)).
  { unfold Sequencer.in_contract, Sequencer.of_turn_request. simpl.
    rewrite HT, Ht, Hr.
    replace (2 <=? Z.of_nat (List.length (tr_roles q)))%Z with true
      by (symmetry; apply Z.leb_le; lia).
    replace (1 <=? Z.of_nat T)%Z with true by (symmetry; apply Z.leb_le; lia).
    replace (Z.of_nat T <=? 10)%Z with true by (symmetry; apply Z.leb_le; lia).
    replace (0 <=? Z.of_nat t)%Z with true by (symmetry; apply Z.leb_le; lia).
    replace (0 <=? Z.of_nat r)%Z with true by (symmetry; apply Z.leb_le; lia).
    replace (Z.of_nat r <? Z.of_nat (List.length (tr_roles q)))%Z with true
      by (symmetry; apply Z.ltb_lt; lia).
    reflexivity. }
  rewrite Hc.
  cbn [Sequencer.of_turn_request Sequencer.roleList Sequencer.cursor
       Sequencer.roleIndex Sequencer.useDocument Sequencer.modelParams].
  rewrite Hr, Nat2Z.id, Hnth, Hdoc.
  match goal with
  | |- context [gateway n 0 ?prompt ?s] =>
      destruct (gateway_answers n 0 prompt s) as (generated & Hg); rewrite Hg
  end.
  unfold Sequencer.advance. cbn [Sequencer.roleIndex Sequencer.turn].
  rewrite Ht.
  destruct (Z.ltb_spec (Z.of_nat r + 1) (Z.of_nat (List.length (tr_roles q)))) as [Hlt | Hge].
  - eexists _, speaker, generated. rewrite !Nat2Z.inj_succ. cbn.
    repeat split. left. repeat split; lia.
  - eexists _, speaker, generated. rewrite !Nat2Z.inj_succ. cbn.
    repeat split. right. repeat split; lia.
Qed.

Lemma plain_step_log (rv : revision) (topic : jsstring) (roles : list jsstring)
      (numTurns : jsnum) (disc : ref) (t r : Z) (language : jsstring)
      (after : Z) (p : page) :
  List.length (log (fst (turn_step rv srv Plain topic roles numTurns disc t r
                                   language after p)))
  = S (List.length (log p)).
Proof.
  unfold turn_step, fetch. cbv beta iota zeta.
  assert (H1 : forall c : bool,
             log (if c then first_display rv srv Plain topic p else p) = log p)
    by (intros [|]; reflexivity).
  match goal with
  | |- context [read_turn_reply ?a] => destruct (read_turn_reply a) as [d | x]
  end.
  - destruct (reported d); [| destruct (message d); [destruct (is_complete d) |]];
      simpl; rewrite length_app, H1; simpl; lia.
  - simpl. rewrite length_app, H1. simpl. lia.
Qed.

(** The fresh loop entered at turn [t0], role [r0], with the utterances of
    the steps before it in the transcript, runs to completion; it pushes
    the message of each reply on the transcript, and each request carries
    the transcript as the replies before it left it. *)
Lemma fresh_loop (rv : revision) (topic : jsstring) (roles : list jsstring)
      (T : nat) (disc : ref) (language : jsstring) :
  2 <= List.length roles -> 1 <= T <= 10 ->
  forall (fuel t0 r0 : nat) (after : Z) (p : page),
    t0 < T -> r0 < List.length roles ->
    List.length roles * T - (t0 * List.length roles + r0) <= fuel ->
    List.length (transcript disc p) = t0 * List.length roles + r0 ->
    exists p' es,
      turn_loop rv srv fuel Plain topic roles (Int (Z.of_nat T)) disc
                (Z.of_nat t0) (Z.of_nat r0) language after p = (p', Completed) /\
      log p' = log p ++ es /\
      List.length es = List.length roles * T - (t0 * List.length roles + r0) /\
      (forall t i, t < T -> i < List.length roles ->
                   t0 * List.length roles + r0 <= t * List.length roles + i ->
                   exists e,
                     nth_error es (t * List.length roles + i
                                   - (t0 * List.length roles + r0)) = Some e /\
                     fresh_exchange roles T t i e) /\
      currentDiscussion p' = Some disc /\
      List.length (transcript disc p') = List.length roles * T /\
      transcript disc p' = transcript disc p ++ map answer es /\
      (forall k e q,
          nth_error es k = Some e -> sent e = GenerateNextTurn q ->
          tr_discussion q = transcript disc p ++ map answer (firstn k es)).
Proof.
  intros HR HT.
  set (R := List.length roles) in *.
  induction fuel as [| fuel IH]; intros t0 r0 after p Ht0 Hr0 Hfuel Hlen.
  - exfalso. nia.
  - cbn [turn_loop].
    pose proof (plain_step_log rv topic roles (Int (Z.of_nat T)) disc
                               (Z.of_nat t0) (Z.of_nat r0) language after p) as Hone.
    destruct (turn_step_spec rv srv Plain topic roles (Int (Z.of_nat T)) disc
                             (Z.of_nat t0) (Z.of_nat r0) language after p)
      as (pre & e & q & Hlog & _ & Hsent & Hrecv & Hshown & _ & Hdisc & Hqt & Hqr
          & Hroles & Hnum & Hdoc & Hh).
    assert (pre = []).
    { rewrite Hlog, !length_app in Hone. simpl in Hone.
      destruct pre; [reflexivity | simpl in Hone; lia]. }
    subst pre. cbn [app] in Hlog.
    destruct (@serve_turn (List.length (log p ++ [])) q T t0 r0)
      as (d & speaker & generated & Hread & Hrep & Hnth & Hmsg & Hcase);
      try (rewrite Hroles; assumption); try assumption.
    rewrite <- Hrecv in Hread. rewrite Hroles in Hnth, Hcase.
    destruct Hh as (_ & Hh). rewrite Hread, Hrep, Hmsg in Hh.
    destruct Hh as (Harr & Hh).
    destruct (turn_step rv srv Plain topic roles (Int (Z.of_nat T)) disc
                        (Z.of_nat t0) (Z.of_nat r0) language after p) as [p1 nx].
    cbn [fst snd] in *.
    assert (Hans : answer e = Some {| role := speaker; content := generated |}).
    { unfold answer, read. rewrite Hsent, Hread. exact Hmsg. }
    assert (Htr1 : transcript disc p1 = transcript disc p ++ [answer e]).
    { unfold transcript. rewrite Harr, cells_push_same, Hans. reflexivity. }
    assert (Hlen1 : List.length (transcript disc p1) = S (t0 * R + r0)).
    { rewrite Htr1, length_app, Hlen. simpl. lia. }
    assert (He : fresh_exchange roles T t0 r0 e).
    { exists q, d, speaker, generated. fold R.
      unfold read. rewrite Hsent.
      repeat split; auto.
      - rewrite Hdisc. exact Hlen.
      - rewrite Hshown. fold R. simpl. do 2 f_equal. lia.
      - destruct Hcase as [(Hlt & _ & _ & Hc) | (Heq & _ & _ & Hc)]; rewrite Hc.
        + destruct (Z.leb_spec (Z.of_nat T) (Z.of_nat t0)); [lia |].
          symmetry. apply Nat.eqb_neq. nia.
        + destruct (Z.leb_spec (Z.of_nat T) (Z.of_nat (S t0))).
          * symmetry. apply Nat.eqb_eq. assert (S t0 = T) by lia. subst T. nia.
          * symmetry. apply Nat.eqb_neq. nia. }
    assert (Hfirst : forall (es' : list exchange) t i,
               i < R -> t * R + i = t0 * R + r0 ->
               exists e0, nth_error (e :: es') (t * R + i - (t0 * R + r0)) = Some e0 /\
                          fresh_exchange roles T t i e0).
    { intros es' t i Hi Heq.
      destruct (@digits_unique R t i t0 r0 Hi Hr0 Heq) as [-> ->].
      rewrite Nat.sub_diag. exists e. split; [reflexivity | exact He]. }
    assert (Hgrow : forall (p' : page) (es : list exchange),
               transcript disc p' = transcript disc p1 ++ map answer es ->
               transcript disc p' = transcript disc p ++ map answer (e :: es)).
    { intros p' es H. rewrite H, Htr1, <- app_assoc. reflexivity. }
    assert (Hcarry : forall (es : list exchange),
               (forall k e0 q0,
                   nth_error es k = Some e0 -> sent e0 = GenerateNextTurn q0 ->
                   tr_discussion q0 = transcript disc p1 ++ map answer (firstn k es)) ->
               forall k e0 q0,
                 nth_error (e :: es) k = Some e0 -> sent e0 = GenerateNextTurn q0 ->
                 tr_discussion q0
                 = transcript disc p ++ map answer (firstn k (e :: es))).
    { intros es H [| k] e0 q0 Hk Hs; cbn [nth_error firstn map] in *.
      - inversion Hk; subst e0. rewrite Hsent in Hs. inversion Hs; subst q0.
        rewrite app_nil_r. exact Hdisc.
      - rewrite (H k e0 q0 Hk Hs), Htr1, <- app_assoc. reflexivity. }
    destruct Hcase as [(Hlt & Hnt & Hnr & Hc) | (Heq & Hnt & Hnr & Hc)].
    + (* the next role of the same turn *)
      assert (Hc' : is_complete d = false)
        by (rewrite Hc; apply Z.leb_gt; lia).
      rewrite Hc' in Hh. destruct Hh as (-> & Hcur).
      rewrite Hnt, Hnr.
      destruct (IH t0 (S r0) 500%Z p1)
        as (p' & es & Hrun & Hlog' & Hn & Hall & Hcd & Hfin & Htr & Hreq);
        try assumption; try lia.
      exists p', (e :: es).
      split; [exact Hrun |].
      split; [rewrite Hlog', Hlog, <- app_assoc; reflexivity |].
      split; [simpl; rewrite Hn; nia |].
      split; [| split; [exact Hcd | split; [exact Hfin |
                split; [exact (Hgrow p' es Htr) | exact (Hcarry es Hreq)]]]].
      intros t i Ht Hi Hge.
      destruct (Nat.eq_dec (t * R + i) (t0 * R + r0)) as [Heq | Hne];
        [apply Hfirst; assumption |].
      destruct (Hall t i Ht Hi) as (e0 & Hn0 & He0); [lia |].
      exists e0. split; [| exact He0].
      replace (t * R + i - (t0 * R + r0)) with (S (t * R + i - (t0 * R + S r0)))
        by lia.
      exact Hn0.
    + destruct (Nat.eq_dec (S t0) T) as [Hlast | Hmore].
      * (* the last step of the run *)
        assert (Hc' : is_complete d = true)
          by (rewrite Hc; apply Z.leb_le; lia).
        rewrite Hc' in Hh. destruct Hh as (-> & Hcur & _).
        exists p1, [e].
        split; [reflexivity |].
        split; [exact Hlog |].
        split; [simpl; subst T; nia |].
        split; [| split; [exact Hcur | split; [rewrite Hlen1; subst T; nia |
                  split; [exact Htr1 |]]]].
        -- intros t i Ht Hi Hge.
           apply Hfirst; [assumption |]. subst T. nia.
        -- apply (Hcarry []). intros [| k] e0 q0 Hk; discriminate Hk.
      * (* the first role of the next turn *)
        assert (Hc' : is_complete d = false)
          by (rewrite Hc; apply Z.leb_gt; lia).
        rewrite Hc' in Hh. destruct Hh as (-> & Hcur).
        rewrite Hnt, Hnr.
        destruct (IH (S t0) 0 500%Z p1)
          as (p' & es & Hrun & Hlog' & Hn & Hall & Hcd & Hfin & Htr & Hreq);
          try assumption; try lia; try nia.
        exists p', (e :: es).
        split; [exact Hrun |].
        split; [rewrite Hlog', Hlog, <- app_assoc; reflexivity |].
        split; [simpl; rewrite Hn; nia |].
        split; [| split; [exact Hcd | split; [exact Hfin |
                  split; [exact (Hgrow p' es Htr) | exact (Hcarry es Hreq)]]]].
        intros t i Ht Hi Hge.
        destruct (Nat.eq_dec (t * R + i) (t0 * R + r0)) as [Heq' | Hne];
          [apply Hfirst; assumption |].
        destruct (Hall t i Ht Hi) as (e0 & Hn0 & He0); [nia |].
        exists e0. split; [| exact He0].
        replace (t * R + i - (t0 * R + r0)) with (S (t * R + i - (S t0 * R + 0)))
          by nia.
        exact Hn0.
Qed.

(** C1. A fresh run submitted with a roster of R roles and T requested
    turns that the form accepts, against the sequencer and a model gateway
    that answers every call: the loop completes after exactly R * T
    generation requests, issued one after the other; the request in which
    role [i] speaks in turn [t] is the one numbered [t * R + i + 1] of
    [R * T] on the progress label; each reply carries an utterance of that
    role and reports [is_complete] exactly on the last.  The loop appends
    exactly one utterance per response, the one the response carries: the
    transcript of the run is the list of the messages of the replies, in
    order, and each request carries the messages of the replies before
    it. *)
Theorem fresh_run_issues_one_request_per_utterance
        (rv : revision) (fuel : nat) (p : page) (T : nat) :
  validate p = None ->
  numTurnsInput (form p) = Int (Z.of_nat T) ->
  List.length (roles_of_form p) * T <= fuel ->
  exists p' es disc,
    handleFormSubmit rv srv fuel p = (p', Completed) /\
    log p' = log p ++ es /\
    List.length es = List.length (roles_of_form p) * T /\
    (forall t i, t < T -> i < List.length (roles_of_form p) ->
                 exists e,
                   nth_error es (t * List.length (roles_of_form p) + i) = Some e /\
                   fresh_exchange (roles_of_form p) T t i e) /\
    currentDiscussion p' = Some disc /\
    List.length (transcript disc p') = List.length (roles_of_form p) * T /\
    transcript disc p' = map answer es /\
    (forall k e q,
        nth_error es k = Some e -> sent e = GenerateNextTurn q ->
        tr_discussion q = map answer (firstn k es)) /\
    (forall k e,
        nth_error es k = Some e ->
        exists m, answer e = Some m /\ nth_error (transcript disc p') k = Some (Some m)).
Proof.
  intros Hval HT Hfuel.
  assert (Hb : 2 <= List.length (roles_of_form p) /\ 1 <= T <= 10).
  { revert Hval. unfold validate. rewrite HT.
    destruct (negb (truthy (trim (topicInput (form p))))); [discriminate |].
    destruct (Nat.ltb_spec (List.length (roles_of_form p)) 2); [discriminate |].
    unfold lt, gt, lt.
    destruct (Z.ltb_spec (Z.of_nat T) 1); [discriminate |].
    destruct (Z.ltb_spec 10 (Z.of_nat T)); [discriminate |].
    intros _. lia. }
  destruct Hb as [HR HTb].
  unfold handleFormSubmit. rewrite Hval.
  unfold generateDiscussion, generateNextTurn, reset_discussion, new_array.
  cbv beta iota zeta. rewrite HT.
  match goal with
  | |- context [turn_loop rv _ fuel Plain ?topic ?roles _ ?disc 0 0 ?l 0 ?p2] =>
      assert (Hempty : transcript disc p2 = [])
        by (unfold transcript; cbn [arrays with_current with_arrays cells];
            rewrite Nat.eqb_refl; reflexivity);
      destruct (@fresh_loop rv topic roles T disc l HR HTb fuel 0 0 0%Z p2)
        as (p' & es & Hrun & Hlog & Hn & Hall & Hcd & Hfin & Htr & Hreq)
  end; try lia.
  - rewrite Hempty. reflexivity.
  - rewrite Hempty in Htr, Hreq. cbn [app] in Htr, Hreq.
    exists p', es. eexists. change (Z.of_nat 0) with 0%Z in Hrun.
    split; [exact Hrun |].
    split; [exact Hlog |].
    split; [rewrite Hn; lia |].
    split; [| split; [exact Hcd | split; [exact Hfin | split; [exact Htr |
              split; [exact Hreq |]]]]].
    + intros t i Ht Hi.
      destruct (Hall t i Ht Hi) as (e & Hnth & He); [lia |].
      exists e. split; [| exact He].
      rewrite <- Hnth. f_equal. lia.
    + intros k e Hk.
      assert (Hlt : k < List.length (roles_of_form p) * T).
      { assert (Hin : k < List.length es)
          by (apply nth_error_Some; rewrite Hk; discriminate).
        lia. }
      set (R := List.length (roles_of_form p)) in *.
      destruct (Hall (k / R) (k mod R)) as (e' & Hnth & He).
      * apply Nat.Div0.div_lt_upper_bound. lia.
      * apply Nat.mod_upper_bound. lia.
      * lia.
      * replace (k / R * R + k mod R - (0 * R + 0)) with k in Hnth
          by (rewrite (Nat.div_mod_eq k R) at 1; lia).
        rewrite Hk in Hnth. inversion Hnth; subst e'.
        destruct He as (q & d & speaker & generated & _ & _ & _ & _ & _ & _
                        & Hread & _ & _ & Hmsg & _).
        exists {| role := speaker; content := generated |}.
        assert (Hans : answer e = Some {| role := speaker; content := generated |})
          by (unfold answer; rewrite Hread; exact Hmsg).
        split; [exact Hans |].
        rewrite Htr, nth_error_map, Hk. cbn [option_map]. rewrite Hans. reflexivity.
Qed.

End FreshRun.

(** The run of C1 on the sample page: roster Analyst, Engineer and two
    turns give four requests, and the transcript holds the four replies'
    messages. *)
Lemma fresh_run_sample :
  validate Samples.sample_page = None /\
  numTurnsInput (form Samples.sample_page) = Int (Z.of_nat 2) /\
  List.length (roles_of_form Samples.sample_page) * 2 <= 4 /\
  exists p' es disc,
    handleFormSubmit Latest
      (Sequencer.serve Samples.speaker_prompt Samples.echo 0 None) 4 Samples.sample_page
    = (p', Completed) /\
    log p' = log Samples.sample_page ++ es /\
    List.length es = List.length (roles_of_form Samples.sample_page) * 2 /\
    (forall t i, t < 2 -> i < List.length (roles_of_form Samples.sample_page) ->
                 exists e,
                   nth_error es (t * List.length (roles_of_form Samples.sample_page) + i)
                   = Some e /\
                   fresh_exchange (roles_of_form Samples.sample_page) 2 t i e) /\
    currentDiscussion p' = Some disc /\
    List.length (transcript disc p') = List.length (roles_of_form Samples.sample_page) * 2 /\
    transcript disc p' = map answer es /\
    (forall k e q,
        nth_error es k = Some e -> sent e = GenerateNextTurn q ->
        tr_discussion q = map answer (firstn k es)) /\
    (forall k e,
        nth_error es k = Some e ->
        exists m, answer e = Some m /\ nth_error (transcript disc p') k = Some (Some m)).
Proof.
  split; [reflexivity |].
  split; [reflexivity |].
  split; [vm_compute; lia |].
  apply (@fresh_run_issues_one_request_per_utterance
           Samples.speaker_prompt Samples.echo 0 None).
  - intros n k prompt s. exists prompt. reflexivity.
  - reflexivity.
  - reflexivity.
  - vm_compute. lia.
Defined.

(** C3 on the sample pages, with the server out of reach: the first step
    of a fresh run and the first step of a continuation both fail. *)
Lemma failed_step_sample :
  (exists e,
      last_exchange
        (fst (turn_step Latest Samples.offline Plain (js "Remote work")
                        [js "Analyst"; js "Engineer"] (Int 2) 0 0 0 (js "ja") 0
                        Samples.sample_page)) = Some e /\
      step_failed e = true /\
      turn_loop Latest Samples.offline 3 Plain (js "Remote work")
                [js "Analyst"; js "Engineer"] (Int 2) 0 0 0 (js "ja") 0
                Samples.sample_page
      = (fst (turn_step Latest Samples.offline Plain (js "Remote work")
                        [js "Analyst"; js "Engineer"] (Int 2) 0 0 0 (js "ja") 0
                        Samples.sample_page), Failed)) /\
  (exists e q,
      q = {| cr_discussion_data := 0; cr_topic := js "Remote work";
             cr_roles := [js "Analyst"; js "Engineer"];
             cr_num_additional_turns := Int 1; cr_language := js "ja";
             cr_use_document := false; cr_current_turn := 0%Z;
             cr_current_role_index := 1%Z; cr_settings := None |} /\
      last_exchange (fst (continuation_step Samples.offline q 0 500 Samples.discussed_page))
      = Some e /\
      step_failed e = true /\
      fetchNextContinuationTurn Samples.offline 3 q 0 500 Samples.discussed_page
      = (fst (continuation_step Samples.offline q 0 500 Samples.discussed_page), Failed)).
Proof.
  split.
  - eexists. split; [reflexivity |]. split; [reflexivity |].
    apply (proj1 (failed_step_leaves_transcript_and_cursor
                    Latest Samples.offline 2 0 Samples.sample_page)
                 Plain (js "Remote work") [js "Analyst"; js "Engineer"] (Int 2)
                 0 0%Z 0%Z (js "ja") _ eq_refl eq_refl).
  - eexists. eexists. split; [reflexivity |]. split; [reflexivity |].
    split; [reflexivity |].
    apply (proj2 (failed_step_leaves_transcript_and_cursor
                    Latest Samples.offline 2 500 Samples.discussed_page)
                 _ 0 _ eq_refl eq_refl).
Defined.


(** ** The role list of a continuation *)

Section Roles.

Lemma str_eqb_eq (a b : jsstring) : str_eqb a b = true <-> a = b.
Proof.
  revert b. induction a as [| x a IH]; intros [| y b]; simpl; split; intro H;
    try reflexivity; try discriminate.
  - apply andb_true_iff in H. destruct H as [Hx Hab].
    apply N.eqb_eq in Hx. apply IH in Hab. subst. reflexivity.
  - inversion H; subst. apply andb_true_iff. split.
    + apply N.eqb_refl.
    + apply IH. reflexivity.
Qed.

Lemma seen_In (x : jsstring) (seen : list jsstring) :
  existsb (str_eqb x) seen = true <-> In x seen.
Proof.
  rewrite existsb_exists. split.
  - intros (y & Hy & Heq). apply str_eqb_eq in Heq. subst. exact Hy.
  - intro H. exists x. split; [exact H | apply str_eqb_eq; reflexivity].
Qed.

(** What [new Set] has collected only matters through its members. *)
Lemma set_distinct (names : list jsstring) :
  forall acc seen : list jsstring,
    (forall x, In x acc <-> In x seen) ->
    fold_left set_add names acc = acc ++ distinct_in_order seen names.
Proof.
  induction names as [| x names IH]; intros acc seen Hsame; simpl.
  - rewrite app_nil_r. reflexivity.
  - unfold set_add at 2.
    destruct (existsb (str_eqb x) acc) eqn:Hacc;
      destruct (existsb (str_eqb x) seen) eqn:Hseen.
    + apply IH. exact Hsame.
    + apply seen_In, Hsame, seen_In in Hacc. congruence.
    + apply seen_In, Hsame, seen_In in Hseen. congruence.
    + rewrite (IH (acc ++ [x]) (x :: seen)).
      * rewrite <- app_assoc. reflexivity.
      * intro y. rewrite in_app_iff. simpl. rewrite Hsame. tauto.
Qed.

Lemma array_from_set_distinct (names : list jsstring) :
  array_from_set names = distinct_in_order [] names.
Proof.
  unfold array_from_set. rewrite (set_distinct names [] []); [reflexivity | tauto].
Qed.

Lemma distinct_members (names : list jsstring) :
  forall (seen : list jsstring) (x : jsstring),
    In x (distinct_in_order seen names) <-> In x names /\ ~ In x seen.
Proof.
  induction names as [| y names IH]; intros seen x; simpl.
  - tauto.
  - destruct (existsb (str_eqb y) seen) eqn:Hy.
    + apply seen_In in Hy. rewrite IH. split.
      * tauto.
      * intros [[-> | H] Hn]; [contradiction | tauto].
    + assert (Hn : ~ In y seen) by (rewrite <- seen_In, Hy; discriminate).
      simpl. rewrite IH. simpl. split.
      * intros [-> | [H1 H2]]; [tauto |]. split; [tauto |]. tauto.
      * intros [[-> | H] Hx]; [tauto |].
        destruct (list_eq_dec N.eq_dec y x) as [-> | Hne]; [tauto |].
        right. split; [exact H |]. intros [Heq | Hs]; [congruence | contradiction].
Qed.

Lemma distinct_NoDup (names : list jsstring) :
  forall seen : list jsstring, NoDup (distinct_in_order seen names).
Proof.
  induction names as [| y names IH]; intro seen; simpl.
  - constructor.
  - destruct (existsb (str_eqb y) seen); [apply IH |].
    constructor; [| apply IH].
    rewrite distinct_members. simpl. tauto.
Qed.

End Roles.

(** ** The first requests of a continuation *)

Section ContinuationRun.
Variable srv : server.

Lemma continuation_log_extends (fuel : nat) :
  forall (q : continuation_request ref) (cd : ref) (after : Z) (p : page),
    exists es, log (fst (fetchNextContinuationTurn srv fuel q cd after p)) = log p ++ es.
Proof.
  induction fuel as [| fuel IH]; intros q cd after p.
  - exists []. simpl. rewrite app_nil_r. reflexivity.
  - cbn [fetchNextContinuationTurn].
    destruct (continuation_step_spec srv q cd after p) as (e & Hlog & _).
    destruct (continuation_step srv q cd after p) as [p' nx]. cbn [fst] in Hlog.
    destruct nx as [o | q' after'].
    + exists [e]. exact Hlog.
    + destruct (IH q' cd after' p') as (es & Hes).
      exists (e :: es). rewrite Hes, Hlog, <- app_assoc. reflexivity.
Qed.

(** The first request of the loop, and where the loop stands after a reply
    that carries no utterance. *)
Lemma continuation_unroll (fuel : nat) (q : continuation_request ref) (cd : ref)
      (after : Z) (p : page) :
  exists e es,
    log (fst (fetchNextContinuationTurn srv (S fuel) q cd after p)) = log p ++ e :: es /\
    sent e = ContinueDiscussion (stringify (arrays p) q) /\
    delay e = after /\
    (forall d, read e = Ok d -> reported d = None -> message d = None ->
               exists p1,
                 arrays p1 = arrays p /\ bubbles p1 = bubbles p /\
                 log p1 = log p ++ [e] /\
                 fetchNextContinuationTurn srv (S fuel) q cd after p
                 = fetchNextContinuationTurn
                     srv fuel (move_on q (cr_discussion_data q) d) cd 0 p1).
Proof.
  cbn [fetchNextContinuationTurn].
  destruct (continuation_step_spec srv q cd after p)
    as (e & Hlog & Hsent & _ & _ & Hdelay & Hh).
  destruct (continuation_step srv q cd after p) as [p' nx]. cbn [fst] in Hlog.
  assert (Hquiet : forall d, read e = Ok d -> reported d = None -> message d = None ->
                             nx = Again (move_on q (cr_discussion_data q) d) 0 /\
                             arrays p' = arrays p /\ bubbles p' = bubbles p).
  { intros d Hread Hrep Hmsg. unfold read in Hread. rewrite Hsent in Hread.
    destruct Hh as (_ & Hh). rewrite Hread, Hrep, Hmsg in Hh. exact Hh. }
  destruct nx as [o | q' after'].
  - exists e, []. repeat split; auto.
    intros d Hread Hrep Hmsg.
    destruct (Hquiet d Hread Hrep Hmsg) as (Habs & _). discriminate.
  - destruct (continuation_log_extends fuel q' cd after' p') as (es & Hes).
    exists e, es. repeat split; auto.
    + rewrite Hes, Hlog, <- app_assoc. reflexivity.
    + intros d Hread Hrep Hmsg.
      destruct (Hquiet d Hread Hrep Hmsg) as (Hnx & Harr & Hb).
      inversion Hnx; subst. exists p'. repeat split; auto.
Qed.



End ContinuationRun.

(** C7. A continuation the page accepts sends, in its first request, the
    transcript collected from the page and a role list that is re-derived
    from it: the distinct role names of that transcript in the order of
    their first occurrence, without repetition, and holding every role
    name that occurs in the transcript, roster role or not (in the latest
    revision the consultant's pseudo-role comes first whenever the page
    shows a consultant analysis). *)
Theorem continuation_roles_are_first_occurrences
        (rv : revision) (textContent : jsstring -> jsstring) (srv : server)
        (fuel : nat) (p : page) :
  lt (additionalTurnsInput (form p)) (Int 1)
  || gt (additionalTurnsInput (form p)) (Int 5) = false ->
  exists e es q,
    log (fst (handleContinueDiscussion textContent rv srv (S fuel) p)) = log p ++ e :: es /\
    sent e = ContinueDiscussion q /\
    cr_discussion_data q = map Some (collect textContent rv p) /\
    cr_roles q = distinct_in_order [] (map role (collect textContent rv p)) /\
    NoDup (cr_roles q) /\
    (forall x, In x (cr_roles q) <-> In x (map role (collect textContent rv p))) /\
    (rv = Latest -> consultantMessages p <> [] ->
     hd_error (cr_roles q) = Some consultant_role).
Proof.
  intro Hacc. unfold handleContinueDiscussion. rewrite Hacc.
  unfold new_array. cbv beta iota zeta.
  match goal with
  | |- context [fetchNextContinuationTurn srv (S fuel) ?q ?r 0 ?p2] =>
      destruct (continuation_unroll srv fuel q r 0 p2) as (e & es & Hlog & Hsent & _)
  end.
  exists e, es. eexists. split; [exact Hlog |]. split; [exact Hsent |].
  cbn [stringify cr_discussion_data cr_roles arrays with_arrays with_error
       with_loading hideError showLoading cells].
  rewrite Nat.eqb_refl, array_from_set_distinct.
  split; [reflexivity |]. split; [reflexivity |].
  split; [apply distinct_NoDup |].
  split.
  - intro x. rewrite distinct_members. simpl. tauto.
  - intros -> Hc. unfold collect.
    destruct (consultantMessages p) as [| c cs]; [contradiction |].
    reflexivity.
Qed.

(** C7 on the sample page that shows a finished discussion. *)
Lemma continuation_roles_sample :
  lt (additionalTurnsInput (form Samples.discussed_page)) (Int 1)
  || gt (additionalTurnsInput (form Samples.discussed_page)) (Int 5) = false /\
  exists e es q,
    log (fst (handleContinueDiscussion Samples.plain_text Latest Samples.offline 1
                                       Samples.discussed_page))
    = log Samples.discussed_page ++ e :: es /\
    sent e = ContinueDiscussion q /\
    cr_roles q = [js "Analyst"; js "Engineer"].
Proof.
  split; [reflexivity |].
  destruct (@continuation_roles_are_first_occurrences
              Latest Samples.plain_text Samples.offline 0 Samples.discussed_page eq_refl)
    as (e & es & q & Hlog & Hsent & _ & Hroles & _).
  exists e, es, q. split; [exact Hlog |]. split; [exact Hsent |].
  rewrite Hroles. reflexivity.
Defined.





(** ** Validation of the inputs *)

Section Validation.
Variable rv : revision.
Variable srv : server.
Variable fuel : nat.

Lemma validate_rejects (p : page) (n : Z) :
  List.length (roles_of_form p) < 2 \/
  (numTurnsInput (form p) = Int n /\ (n < 1 \/ 10 < n)%Z) ->
  exists notice, validate p = Some notice.
Proof.
  intro H. unfold validate.
  destruct (negb (truthy (trim (topicInput (form p))))); [eexists; reflexivity |].
  destruct (Nat.ltb_spec (List.length (roles_of_form p)) 2); [eexists; reflexivity |].
  destruct H as [H | (Hn & Hb)]; [lia |].
  rewrite Hn. unfold gt, lt.
  destruct (Z.ltb_spec n 1); [eexists; reflexivity |].
  destruct (Z.ltb_spec 10 n); [eexists; reflexivity |].
  lia.
Qed.

Lemma additional_turns_rejected (x : jsnum) (n : Z) :
  x = Int n -> (n < 1 \/ 5 < n)%Z -> lt x (Int 1) || gt x (Int 5) = true.
Proof.
  intros -> Hb. unfold gt, lt.
  destruct (Z.ltb_spec n 1); [reflexivity |].
  destruct (Z.ltb_spec 5 n); [reflexivity |].
  lia.
Qed.

End Validation.

(** C8, as amended.  A fresh or grounded run submitted with fewer than two
    roles, or with an integer turn count outside 1..10, and a continuation
    or guidance run submitted with an integer number of additional turns
    outside 1..5, is refused on the spot: the handler shows an error and
    returns the page otherwise as it was, so no request is issued and no
    utterance is produced. *)
Theorem out_of_bounds_input_is_refused
        (rv : revision) (textContent : jsstring -> jsstring) (srv : server)
        (fuel : nat) (p : page) (n : Z) :
  (List.length (roles_of_form p) < 2 \/
   (numTurnsInput (form p) = Int n /\ (n < 1 \/ 10 < n)%Z) ->
   exists notice,
     handleFormSubmit rv srv fuel p = (showError notice p, Refused) /\
     handleGenerateWithDocument rv srv fuel p = (showError notice p, Refused))
  /\
  (additionalTurnsInput (form p) = Int n /\ (n < 1 \/ 5 < n)%Z ->
   handleContinueDiscussion textContent rv srv fuel p
   = (showError AdditionalTurnsOutOfRange p, Refused))
  /\
  (guidanceAdditionalTurns (form p) = Int n /\ (n < 1 \/ 5 < n)%Z ->
   exists notice,
     handleProvideGuidance textContent rv srv p = (showError notice p, Refused))
  /\
  (forall notice,
      log (showError notice p) = log p /\
      arrays (showError notice p) = arrays p /\
      bubbles (showError notice p) = bubbles p /\
      errorShown (showError notice p) = Some notice).
Proof.
  repeat split.
  - intro H. destruct (validate_rejects p H) as (notice & Hv).
    exists notice. unfold handleFormSubmit, handleGenerateWithDocument.
    rewrite Hv. split; reflexivity.
  - intros (Hn & Hb). unfold handleContinueDiscussion.
    rewrite (additional_turns_rejected Hn Hb). reflexivity.
  - intros (Hn & Hb). unfold handleProvideGuidance.
    destruct (negb (truthy (trim (guidanceInstructionInput (form p)))));
      [eexists; reflexivity |].
    rewrite (additional_turns_rejected Hn Hb). eexists. reflexivity.
Qed.

(** C8 as amended, on sample pages: a single role; eleven turns; six and
    zero additional turns. *)
Lemma out_of_bounds_sample :
  (exists notice,
      handleFormSubmit Latest Samples.offline 5 (Samples.page_with [js "Analyst"] (Int 3))
      = (showError notice (Samples.page_with [js "Analyst"] (Int 3)), Refused)) /\
  (exists notice,
      handleGenerateWithDocument Latest Samples.offline 5
        (Samples.page_with [js "Analyst"; js "Engineer"] (Int 11))
      = (showError notice (Samples.page_with [js "Analyst"; js "Engineer"] (Int 11)),
         Refused)) /\
  handleContinueDiscussion Samples.plain_text Latest Samples.offline 5
    (Samples.page_with [js "Analyst"; js "Engineer"] (Int 3))
  = (showError AdditionalTurnsOutOfRange
       (Samples.page_with [js "Analyst"; js "Engineer"] (Int 3)), Refused) /\
  (exists notice,
      handleProvideGuidance Samples.plain_text Latest Samples.offline
        (Samples.page_with [js "Analyst"; js "Engineer"] (Int 3))
      = (showError notice (Samples.page_with [js "Analyst"; js "Engineer"] (Int 3)),
         Refused)).
Proof.
  split; [| split; [| split]].
  - destruct (proj1 (out_of_bounds_input_is_refused
                       Latest Samples.plain_text Samples.offline 5
                       (Samples.page_with [js "Analyst"] (Int 3)) 3))
      as (notice & H & _).
    + left. vm_compute. lia.
    + exists notice. exact H.
  - destruct (proj1 (out_of_bounds_input_is_refused
                       Latest Samples.plain_text Samples.offline 5
                       (Samples.page_with [js "Analyst"; js "Engineer"] (Int 11)) 11))
      as (notice & _ & H).
    + right. split; [reflexivity | lia].
    + exists notice. exact H.
  - apply (proj1 (proj2 (out_of_bounds_input_is_refused
                           Latest Samples.plain_text Samples.offline 5
                           (Samples.page_with [js "Analyst"; js "Engineer"] (Int 3)) 6))).
    split; [reflexivity | lia].
  - apply (proj1 (proj2 (proj2 (out_of_bounds_input_is_refused
                                  Latest Samples.plain_text Samples.offline 5
                                  (Samples.page_with [js "Analyst"; js "Engineer"] (Int 3))
                                  0)))).
    split; [reflexivity | lia].
Defined.

(** C8 as stated fails on a continuation: the role list re-derived from a
    transcript whose bubbles all bear one role name has a single role, and
    the continuation request is sent all the same. *)
Lemma one_role_continuation_is_sent :
  List.length (array_from_set
                 (map role (collect Samples.plain_text Latest Samples.monologue_page))) = 1 /\
  additionalTurnsInput (form Samples.monologue_page) = Int 2 /\
  exists e q,
    log (fst (handleContinueDiscussion Samples.plain_text Latest Samples.offline 1
                                       Samples.monologue_page)) = [e] /\
    sent e = ContinueDiscussion q /\
    generation e = true /\
    List.length (cr_roles q) = 1 /\
    snd (handleContinueDiscussion Samples.plain_text Latest Samples.offline 1
                                  Samples.monologue_page) = Failed.
Proof.
  split; [reflexivity |]. split; [reflexivity |].
  eexists. eexists.
  split; [reflexivity |]. split; [reflexivity |].
  split; [reflexivity |]. split; reflexivity.
Qed.

(** A turn count that is not a number passes the validation of the form:
    both comparisons with it are false. *)
Example unreadable_turn_count_is_submitted :
  validate (Samples.page_with [js "Analyst"; js "Engineer"] NaN) = None /\
  List.length (log (fst (handleFormSubmit Latest Samples.offline 1
                           (Samples.page_with [js "Analyst"; js "Engineer"] NaN)))) = 1.
Proof. split; reflexivity. Qed.

(** ** The loop of an import over the role fields *)

Unset Implicit Arguments.

Section ImportFacts.
Import Text RolesFile.

(** A text without NUL and line breaks is the value of the field it is
    given to. *)
Lemma kept_text_is_value (t : jsstring) :
  Classes.kept_by_field t = true ->
  text_field_value t = t /\ text_field_attribute t = t.
Proof.
  unfold text_field_attribute.
  induction t as [| c t IH]; [split; reflexivity |].
  cbn [Classes.kept_by_field forallb]. intro H.
  apply andb_true_iff in H. destruct H as (Hc & Ht).
  destruct (IH Ht) as (IH1 & IH2). clear IH.
  unfold mem in Hc. cbn [existsb] in Hc.
  rewrite orb_false_r, !negb_orb in Hc.
  apply andb_true_iff in Hc. destruct Hc as (H0 & Hc).
  apply andb_true_iff in Hc. destruct Hc as (H10 & H13).
  apply negb_true_iff in H0.
  cbn [map text_field_value filter]. rewrite H0.
  rewrite negb_orb, H10, H13. cbn [andb].
  split; f_equal; assumption.
Qed.

Lemma kept_texts_are_values (texts : list jsstring) (found : nat) :
  Forall (fun t => Classes.kept_by_field t = true) texts ->
  field_values found texts = texts.
Proof.
  intro H. unfold field_values.
  rewrite <- (firstn_skipn found texts) at 3. f_equal.
  - apply Forall_take with (n := found) in H.
    induction H as [| t l Ht _ IH]; [reflexivity |].
    cbn [map]. rewrite (proj1 (kept_text_is_value t Ht)), IH. reflexivity.
  - assert (Hs : Forall (fun t => Classes.kept_by_field t = true) (skipn found texts)).
    { apply Forall_forall. intros t Hin. rewrite Forall_forall in H.
      apply H. rewrite <- (firstn_skipn found texts). apply in_or_app. right. exact Hin. }
    induction Hs as [| t l Ht _ IH]; [reflexivity |].
    cbn [map]. rewrite (proj2 (kept_text_is_value t Ht)), IH. reflexivity.
Qed.

(** Line breaks never reach a field. *)
Lemma field_value_on_one_line (v : jsstring) :
  Forall (fun c => c <> 10%N /\ c <> 13%N) (text_field_value v).
Proof.
  apply Forall_forall. intros c Hin.
  unfold text_field_value in Hin. apply filter_In in Hin. destruct Hin as (_ & Hc).
  rewrite negb_orb in Hc. apply andb_true_iff in Hc. destruct Hc as (H10 & H13).
  apply negb_true_iff in H10, H13. unfold cu_eqb in *.
  apply N.eqb_neq in H10, H13. split; assumption.
Qed.

Lemma set_value_at (done todo : list jsstring) (x v : jsstring) :
  set_value (List.length done) v (done ++ x :: todo)
  = done ++ text_field_value v :: todo.
Proof.
  induction done as [| d done IH]; [reflexivity |].
  cbn [List.length app set_value]. f_equal. exact IH.
Qed.

Lemma firstn_plus (A : Type) (a b : nat) (l : list A) :
  firstn (a + b) l = firstn a l ++ firstn b (skipn a l).
Proof.
  revert l. induction a as [| a IH]; intro l; [reflexivity |].
  destruct l as [| x l]; [cbn [Nat.add firstn skipn app]; rewrite firstn_nil; reflexivity |].
  cbn [Nat.add firstn skipn app]. f_equal. apply IH.
Qed.

(** The texts that find no field go to [addRoleInput], which takes them
    until six fields are there and refuses the rest with an error. *)
Lemma add_phase (texts : list jsstring) :
  forall (index : nat) (p : page),
    roleInputs (form (fill_roles texts index index p))
    = roleInputs (form p)
      ++ firstn (6 - List.length (roleInputs (form p)))
                (map text_field_attribute texts) /\
    errorShown (fill_roles texts index index p)
    = (if Nat.ltb (6 - List.length (roleInputs (form p))) (List.length texts)
       then Some TooManyRoles else errorShown p) /\
    topicInput (form (fill_roles texts index index p)) = topicInput (form p).
Proof.
  induction texts as [| t texts IH]; intros index p.
  - cbn [fill_roles List.length map]. rewrite firstn_nil, app_nil_r.
    destruct (6 - List.length (roleInputs (form p))); repeat split.
  - cbn [fill_roles]. rewrite Nat.ltb_irrefl.
    destruct (IH index (addRoleInput Latest t p)) as (Hf & He & Ht).
    rewrite Hf, He, Ht. clear Hf He Ht IH.
    unfold addRoleInput.
    destruct (Nat.leb_spec 6 (List.length (roleInputs (form p)))) as [Hfull | Hroom].
    + cbn [form roleInputs showError with_error errorShown].
      replace (6 - List.length (roleInputs (form p))) with 0 by lia.
      cbn [firstn List.length]. rewrite app_nil_r.
      repeat split.
      destruct (List.length texts); reflexivity.
    + cbn [form roleInputs set_roles with_form errorShown topicInput].
      rewrite length_app. cbn [List.length map].
      replace (6 - List.length (roleInputs (form p)))
        with (S (6 - (List.length (roleInputs (form p)) + 1))) by lia.
      cbn [firstn]. rewrite <- app_assoc. repeat split.
Qed.

(** The whole loop: the fields found are filled in order, then the rest
    is added. *)
Lemma fill_roles_spec (texts : list jsstring) :
  forall (done todo : list jsstring) (p : page),
    roleInputs (form p) = done ++ todo ->
    roleInputs (form (fill_roles texts (List.length done)
                                 (List.length done + List.length todo) p))
    = done ++ map text_field_value (firstn (List.length todo) texts)
      ++ skipn (List.length texts) todo
      ++ firstn (6 - (List.length done + List.length todo))
                (map text_field_attribute (skipn (List.length todo) texts)) /\
    errorShown (fill_roles texts (List.length done)
                           (List.length done + List.length todo) p)
    = (if Nat.ltb (6 - (List.length done + List.length todo))
                  (List.length texts - List.length todo)
       then Some TooManyRoles else errorShown p) /\
    topicInput (form (fill_roles texts (List.length done)
                                 (List.length done + List.length todo) p))
    = topicInput (form p).
Proof.
  induction texts as [| t texts IH]; intros done todo p Hp.
  - cbn [fill_roles List.length skipn]. rewrite skipn_nil, !firstn_nil.
    cbn [app Nat.sub map]. rewrite ?firstn_nil, app_nil_r, Hp.
    repeat split.
  - destruct todo as [| x todo].
    + cbn [List.length]. rewrite Nat.add_0_r.
      destruct (add_phase (t :: texts) (List.length done) p) as (Hf & He & Ht).
      rewrite Hf, He, Ht, Hp, !app_nil_r. cbn [firstn skipn app map].
      rewrite Nat.sub_0_r. repeat split.
    + cbn [fill_roles].
      replace (List.length done <? List.length done + List.length (x :: todo))
        with true by (symmetry; apply Nat.ltb_lt; cbn [List.length]; lia).
      rewrite Hp, set_value_at.
      destruct (IH (done ++ [text_field_value t]) todo
                   (set_roles (done ++ text_field_value t :: todo) p)) as (Hf & He & Ht).
      { cbn [form roleInputs set_roles with_form]. rewrite <- app_assoc. reflexivity. }
      rewrite length_app in Hf, He, Ht. cbn [List.length] in Hf, He, Ht |- *.
      replace (List.length done + S (List.length todo))
        with (List.length done + 1 + List.length todo) by lia.
      replace (S (List.length done)) with (List.length done + 1) by lia.
      rewrite Hf, He, Ht. cbn [firstn skipn Nat.sub map]. rewrite <- !app_assoc.
      repeat split.
Qed.

Lemma filled_fields (texts start : list jsstring) (p : page) :
  roleInputs (form p) = start ->
  roleInputs (form (fill_roles texts 0 (List.length start) p))
  = firstn (Nat.max (List.length start) 6) (field_values (List.length start) texts)
    ++ skipn (List.length texts) start /\
  errorShown (fill_roles texts 0 (List.length start) p)
  = (if Nat.ltb (Nat.max (List.length start) 6) (List.length texts)
     then Some TooManyRoles else errorShown p) /\
  topicInput (form (fill_roles texts 0 (List.length start) p)) = topicInput (form p).
Proof.
  intro Hp.
  destruct (fill_roles_spec texts [] start p Hp) as (Hf & He & Ht).
  cbn [List.length Nat.add app] in Hf, He, Ht.
  split; [| split; [| exact Ht]].
  - rewrite Hf. unfold field_values.
    assert (Hlen : List.length (map text_field_value (firstn (List.length start) texts))
                   = Nat.min (List.length start) (List.length texts))
      by (rewrite length_map; apply length_firstn).
    destruct (Nat.le_gt_cases (List.length texts) (List.length start)) as [Hle | Hgt].
    + rewrite (skipn_all2 texts) by lia. cbn [map].
      rewrite firstn_nil, !app_nil_r.
      rewrite (firstn_all2 (map text_field_value _)) by (rewrite Hlen; lia).
      reflexivity.
    + rewrite (skipn_all2 start) by lia. cbn [app].
      destruct (Nat.le_gt_cases 6 (List.length start)) as [Hfull | Hroom].
      * replace (6 - List.length start) with 0 by lia.
        replace (Nat.max (List.length start) 6) with (List.length start) by lia.
        cbn [firstn]. rewrite !app_nil_r.
        rewrite firstn_app.
        rewrite (firstn_all2 (map text_field_value _)) by (rewrite Hlen; lia).
        replace (List.length start
                 - List.length (map text_field_value (firstn (List.length start) texts)))
          with 0 by (rewrite Hlen; lia).
        cbn [firstn]. rewrite app_nil_r. reflexivity.
      * rewrite !app_nil_r. rewrite firstn_app.
        rewrite (firstn_all2 (map text_field_value _)) by (rewrite Hlen; lia).
        replace (Nat.max (List.length start) 6
                 - List.length (map text_field_value (firstn (List.length start) texts)))
          with (6 - List.length start) by (rewrite Hlen; lia).
        reflexivity.
  - rewrite He.
    destruct (Nat.ltb_spec (6 - List.length start)
                           (List.length texts - List.length start));
      destruct (Nat.ltb_spec (Nat.max (List.length start) 6) (List.length texts));
      try reflexivity; lia.
Qed.


End ImportFacts.

Set Implicit Arguments.

(** ** The roster of a fresh run *)

Section Roster.
Variable srv : server.
Variable fuel : nat.

(** Every request of the fresh loop carries the roster the loop was
    entered with, and the grounding switch of its mode. *)
Lemma turn_loop_roles (rv : revision) (md : mode) (topic : jsstring)
      (roles : list jsstring) (numTurns : jsnum) (disc : ref) (language : jsstring) :
  forall (n : nat) (t r : Z) (after : Z) (p : page),
  exists es,
    log (fst (turn_loop rv srv n md topic roles numTurns disc t r language after p))
    = log p ++ es /\
    forall e, In e es -> generation e = true ->
              exists q, sent e = GenerateNextTurn q /\ tr_roles q = roles /\
                        tr_use_document q = use_document_field md.
Proof.
  induction n as [| n IH]; intros t r after p.
  - exists []. simpl. rewrite app_nil_r. split; [reflexivity | contradiction].
  - cbn [turn_loop].
    destruct (turn_step_spec rv srv md topic roles numTurns disc t r language after p)
      as (pre & e & q & Hlog & Hpre & Hsent & _ & _ & _ & _ & _ & _ & Hroles & _ & Hdoc & _).
    destruct (turn_step rv srv md topic roles numTurns disc t r language after p)
      as [p' nx]. cbn [fst] in Hlog.
    assert (Hquiet : forall x, In x pre -> generation x = true -> False).
    { intros x Hx Hg.
      assert (Hin : In x (generations pre)) by (apply filter_In; auto).
      rewrite Hpre in Hin. contradiction. }
    destruct nx as [o | [t' r'] after'].
    + exists (pre ++ [e]). split; [exact Hlog |].
      intros x Hx Hg. apply in_app_or in Hx. destruct Hx as [Hx | [<- | []]].
      * destruct (Hquiet x Hx Hg).
      * exists q. auto.
    + destruct (IH t' r' after' p') as (es & Hes & Hall).
      exists (pre ++ [e] ++ es). split.
      * rewrite Hes, Hlog, <- !app_assoc. reflexivity.
      * intros x Hx Hg. apply in_app_or in Hx. destruct Hx as [Hx | Hx].
        -- destruct (Hquiet x Hx Hg).
        -- apply in_app_or in Hx. destruct Hx as [[<- | []] | Hx].
           ++ exists q. auto.
           ++ apply Hall; assumption.
Qed.



(** The requests that a chain of document checks puts in front of the
    loop ask for no utterance. *)
Lemma roster_after_check (p p1 p' : page) (e0 : exchange) (roles : list jsstring)
      (ud : option bool) :
  log p1 = log p ++ [e0] -> generation e0 = false ->
  (exists es, log p' = log p1 ++ es /\
              forall e, In e es -> generation e = true ->
                        exists q, sent e = GenerateNextTurn q /\ tr_roles q = roles /\
                                  tr_use_document q = ud) ->
  exists es, log p' = log p ++ es /\
             forall e, In e es -> generation e = true ->
                       exists q, sent e = GenerateNextTurn q /\ tr_roles q = roles /\
                                 tr_use_document q = ud.
Proof.
  intros H1 H0 (es & Hlog & Hall). exists (e0 :: es). split.
  - rewrite Hlog, H1, <- app_assoc. reflexivity.
  - intros e [<- | He] Hg; [congruence | auto].
Qed.

Lemma roster_nothing_sent (p p' : page) (roles : list jsstring) (ud : option bool)
      (l : list exchange) :
  log p' = log p ++ l -> generations l = [] ->
  exists es, log p' = log p ++ es /\
             forall e, In e es -> generation e = true ->
                       exists q, sent e = GenerateNextTurn q /\ tr_roles q = roles /\
                                 tr_use_document q = ud.
Proof.
  intros H Hg. exists l. split; [exact H |].
  intros e He Hge.
  assert (Hin : In e (generations l)) by (apply filter_In; auto).
  rewrite Hg in Hin. contradiction.
Qed.


Lemma grounded_loop_roster (rv : revision) (topic : jsstring) (roles : list jsstring)
      (numTurns : jsnum) (language : jsstring) (p : page) :
  exists es,
    log (fst (let (currentDiscussion, p2) := reset_discussion p in
              generateNextTurnWithDocument rv srv fuel topic roles numTurns
                currentDiscussion 0 0 language true 0 p2)) = log p ++ es /\
    forall e, In e es -> generation e = true ->
              exists q, sent e = GenerateNextTurn q /\ tr_roles q = roles /\
                        tr_use_document q = Some true.
Proof.
  unfold generateNextTurnWithDocument, reset_discussion, new_array.
  cbv beta iota zeta.
  match goal with
  | |- context [turn_loop rv srv fuel ?md topic roles numTurns ?r 0 0 ?l 0 ?p2] =>
      apply (turn_loop_roles rv md topic roles numTurns r l fuel 0 0 0 p2)
  end.
Qed.

Lemma only_a_check (p p' : page) (e0 : exchange) (roles : list jsstring)
      (ud : option bool) :
  log p' = log p ++ [e0] -> generation e0 = false ->
  exists es, log p' = log p ++ es /\
             forall e, In e es -> generation e = true ->
                       exists q, sent e = GenerateNextTurn q /\ tr_roles q = roles /\
                                 tr_use_document q = ud.
Proof.
  intros H H0. exists [e0]. split; [exact H |].
  intros e [<- | []] Hg. congruence.
Qed.

Lemma generateDiscussionWithDocument_roster (rv : revision) (topic : jsstring)
      (roles : list jsstring) (numTurns : jsnum) (p : page) :
  exists es,
    log (fst (generateDiscussionWithDocument rv srv fuel topic roles numTurns p))
    = log p ++ es /\
    forall e, In e es -> generation e = true ->
              exists q, sent e = GenerateNextTurn q /\ tr_roles q = roles /\
                        tr_use_document q = Some true.
Proof.
  unfold generateDiscussionWithDocument. destruct rv.
  - apply (grounded_loop_roster Earlier topic roles numTurns _
                                (hideError (showLoading true p))).
  - unfold fetch. cbv beta iota zeta.
    match goal with
    | |- context [read_json ?a] => destruct (read_json a) as [d | x]
    end.
    + match goal with
      | |- context [if ?c then _ else _] => destruct c
      end.
      * eapply only_a_check; reflexivity.
      * eapply roster_after_check;
          [| | apply (grounded_loop_roster Latest topic roles numTurns)];
          reflexivity.
    + eapply only_a_check; reflexivity.
Qed.

Lemma handleGenerateWithDocument_roster (rv : revision) (p : page) :
  exists es,
    log (fst (handleGenerateWithDocument rv srv fuel p)) = log p ++ es /\
    forall e, In e es -> generation e = true ->
              exists q, sent e = GenerateNextTurn q /\ tr_roles q = roles_of_form p /\
                        tr_use_document q = Some true /\
                        validate p = None.
Proof.
  unfold handleGenerateWithDocument. destruct (validate p) eqn:Hv.
  - exists []. simpl. rewrite app_nil_r. split; [reflexivity | contradiction].
  - assert (Hadd : forall p',
               (exists es, log p' = log p ++ es /\
                           forall e, In e es -> generation e = true ->
                                     exists q, sent e = GenerateNextTurn q /\
                                               tr_roles q = roles_of_form p /\
                                               tr_use_document q = Some true) ->
               exists es, log p' = log p ++ es /\
                          forall e, In e es -> generation e = true ->
                                    exists q, sent e = GenerateNextTurn q /\
                                              tr_roles q = roles_of_form p /\
                                              tr_use_document q = Some true /\
                                              @None notice = None).
    { intros p' (es & Hlog & Hall). exists es. split; [exact Hlog |].
      intros e He Hg. destruct (Hall e He Hg) as (q & Hs & Hr & Hd). exists q. auto. }
    apply Hadd.
    destruct rv.
    + destruct (uploadedDocument p); simpl negb; cbv iota.
      * apply generateDiscussionWithDocument_roster.
      * apply (@roster_nothing_sent p _ _ _ []); [simpl; rewrite app_nil_r |]; reflexivity.
    + unfold fetch. cbv beta iota zeta.
      match goal with
      | |- context [read_json ?a] => destruct (read_json a) as [d | x]
      end.
      * destruct (has_document d).
        -- eapply roster_after_check;
             [| | apply generateDiscussionWithDocument_roster];
             reflexivity.
        -- eapply only_a_check; reflexivity.
      * eapply only_a_check; reflexivity.
Qed.

End Roster.

(** *** The number of role fields *)

Section FieldCount.







End FieldCount.





(** ** Grounded generation without a document *)

Section Grounding.

Lemma empty_store_is_absent
      (build_prompt : Sequencer.DiscussionRequest -> jsstring ->
                      option Sequencer.DocumentContext -> jsstring)
      (gateway : nat -> nat -> Sequencer.generator) (patience : nat) (p : page) :
  document_absent Latest (Sequencer.serve build_prompt gateway patience None) p.
Proof.
  intros n d. simpl. intro H. inversion H; subst. reflexivity.
Qed.

End Grounding.

(** The loop starts with a step, when it is given fuel. *)
Lemma turn_loop_first (rv : revision) (srv : server) (md : mode) (topic : jsstring)
      (roles : list jsstring) (numTurns : jsnum) (disc : ref) (language : jsstring)
      (n : nat) (t r : Z) (after : Z) (p : page) :
  exists es,
    log (fst (turn_loop rv srv (S n) md topic roles numTurns disc t r language after p))
    = log (fst (turn_step rv srv md topic roles numTurns disc t r language after p))
      ++ es.
Proof.
  cbn [turn_loop].
  destruct (turn_step rv srv md topic roles numTurns disc t r language after p)
    as [p' nx]. cbn [fst].
  destruct nx as [o | [t' r'] after'].
  - exists []. rewrite app_nil_r. reflexivity.
  - destruct (turn_loop_roles srv rv md topic roles numTurns disc language n t' r' after' p')
      as (es & Hes & _).
    exists es. exact Hes.
Qed.

(** A step of the earlier revision is one request, grounded or not. *)
Lemma earlier_step_log (srv : server) (md : mode) (topic : jsstring)
      (roles : list jsstring) (numTurns : jsnum) (disc : ref) (t r : Z)
      (language : jsstring) (after : Z) (p : page) :
  List.length (log (fst (turn_step Earlier srv md topic roles numTurns disc t r
                                   language after p)))
  = S (List.length (log p)).
Proof.
  unfold turn_step, fetch. cbv beta iota zeta.
  assert (H1 : forall c : bool,
             log (if c then first_display Earlier srv md topic p else p) = log p)
    by (intros [|]; destruct md; reflexivity).
  match goal with
  | |- context [read_turn_reply ?a] => destruct (read_turn_reply a) as [d | x]
  end.
  - destruct (reported d); [| destruct (message d); [destruct (is_complete d) |]];
      simpl; rewrite length_app, H1; simpl; lia.
  - simpl. rewrite length_app, H1. simpl. lia.
Qed.

(** C4, as amended.  The check that stands before a grounded generation is
    the page's: the latest revision asks the server for the document text,
    the earlier one looks at its own record of an upload.  When that check
    finds no document, no generation request is issued at all: the run does
    not complete, the transcript arrays are left as they were, and when the
    form is valid the error on display is the one about the missing
    document.  Whatever the check finds, a grounded run is never carried
    out by ungrounded requests: every generation request it issues has
    [use_document] set.  In the earlier revision a record of an upload is
    all that is asked for: with it on the page the first generation request
    goes out, whatever the server stores. *)
Theorem grounded_run_needs_a_document
        (rv : revision) (srv : server) (fuel : nat) (p : page) :
  (document_absent rv srv p ->
   generations (log (fst (handleGenerateWithDocument rv srv fuel p)))
   = generations (log p) /\
   snd (handleGenerateWithDocument rv srv fuel p) <> Completed /\
   arrays (fst (handleGenerateWithDocument rv srv fuel p)) = arrays p /\
   (validate p = None ->
    errorShown (fst (handleGenerateWithDocument rv srv fuel p)) = Some DocumentMissing \/
    errorShown (fst (handleGenerateWithDocument rv srv fuel p))
    = Some DocumentCheckFailed)) /\
  (exists es,
      log (fst (handleGenerateWithDocument rv srv fuel p)) = log p ++ es /\
      forall e, In e es -> generation e = true ->
                exists q, sent e = GenerateNextTurn q /\
                          tr_use_document q = Some true) /\
  (rv = Earlier -> validate p = None -> uploadedDocument p = true -> 0 < fuel ->
   exists e es q,
     log (fst (handleGenerateWithDocument rv srv fuel p)) = log p ++ e :: es /\
     sent e = GenerateNextTurn q /\
     received e = srv (List.length (log p)) (GenerateNextTurn q) /\
     tr_use_document q = Some true).
Proof.
  split; [| split].
  - intro Habs. unfold handleGenerateWithDocument.
    destruct (validate p).
    + repeat split; try discriminate.
    + destruct rv; simpl in Habs.
      * rewrite Habs. simpl. repeat split; try discriminate. left. reflexivity.
      * unfold fetch. cbv beta iota zeta.
        destruct (read_json (srv (List.length (log p)) GetDocumentText)) as [d | x] eqn:Hr.
        -- rewrite (Habs _ _ Hr). cbn [fst snd log with_log showError with_error
                                       with_uploaded arrays errorShown].
           rewrite generations_app.
           repeat split; try discriminate.
           ++ unfold generations at 2. simpl. apply app_nil_r.
           ++ left. reflexivity.
        -- cbn [fst snd log with_log showError with_error with_uploaded arrays errorShown].
           rewrite generations_app.
           repeat split; try discriminate.
           ++ unfold generations at 2. simpl. apply app_nil_r.
           ++ right. reflexivity.
  - destruct (handleGenerateWithDocument_roster srv fuel rv p) as (es & Hlog & Hall).
    exists es. split; [exact Hlog |].
    intros e He Hg. destruct (Hall e He Hg) as (q & Hs & _ & Hd & _).
    exists q. split; assumption.
  - intros -> Hval Hup Hfuel. destruct fuel as [| n]; [inversion Hfuel |].
    unfold handleGenerateWithDocument. rewrite Hval, Hup. cbn [negb].
    unfold generateDiscussionWithDocument, generateNextTurnWithDocument,
      reset_discussion, new_array.
    cbv beta iota zeta.
    match goal with
    | |- context [turn_loop Earlier srv (S n) ?md ?tp ?roles ?nt ?r 0 0 ?l 0 ?p2] =>
        destruct (turn_loop_first Earlier srv md tp roles nt r l n 0 0 0 p2)
          as (es & Hlog);
        destruct (turn_step_spec Earlier srv md tp roles nt r 0 0 l 0 p2)
          as (pre & e & q & Hstep & _ & Hsent & Hrecv & _ & _ & _ & _ & _ & _ & _
              & Hdoc & _);
        pose proof (earlier_step_log srv md tp roles nt r 0 0 l 0 p2) as Hone
    end.
    rewrite Hstep in Hlog, Hone.
    assert (pre = []).
    { rewrite !length_app in Hone. cbn [List.length] in Hone.
      destruct pre; [reflexivity | cbn [List.length] in Hone; lia]. }
    subst pre. cbn [app] in Hlog. rewrite app_nil_r in Hrecv.
    exists e, es, q. split; [| repeat split; assumption].
    rewrite Hlog, <- app_assoc. reflexivity.
Qed.

(** C4 as amended, on the sample page against the sequencer with an empty
    document store: the latest revision asks, is told that there is no
    document, and issues no generation request. *)
Lemma grounded_run_sample :
  document_absent Latest
    (Sequencer.serve Samples.speaker_prompt Samples.echo 0 None) Samples.sample_page /\
  validate Samples.sample_page = None /\
  generations (log (fst (handleGenerateWithDocument Latest
                           (Sequencer.serve Samples.speaker_prompt Samples.echo 0 None)
                           3 Samples.sample_page))) = [] /\
  errorShown (fst (handleGenerateWithDocument Latest
                     (Sequencer.serve Samples.speaker_prompt Samples.echo 0 None)
                     3 Samples.sample_page)) = Some DocumentMissing.
Proof.
  split; [apply empty_store_is_absent |].
  split; [reflexivity |].
  destruct (@grounded_run_needs_a_document
              Latest (Sequencer.serve Samples.speaker_prompt Samples.echo 0 None)
              3 Samples.sample_page) as (Habsent & _ & _).
  destruct (Habsent (@empty_store_is_absent Samples.speaker_prompt Samples.echo 0
                                            Samples.sample_page))
    as (Hgen & _ & _ & _).
  split; [exact Hgen | reflexivity].
Defined.

(** C4 as stated fails in the earlier revision: with the record of an
    upload on the page and no document in the store of the server, the
    grounded run passes the page's check and issues a generation request,
    with [use_document] set; the run fails on the server's answer to it. *)
Lemma stale_record_reaches_the_server :
  validate (with_uploaded true Samples.sample_page) = None /\
  document_absent Latest
    (Sequencer.serve Samples.speaker_prompt Samples.echo 0 None)
    (with_uploaded true Samples.sample_page) /\
  snd (handleGenerateWithDocument Earlier
         (Sequencer.serve Samples.speaker_prompt Samples.echo 0 None)
         3 (with_uploaded true Samples.sample_page)) = Failed /\
  exists e q,
    log (fst (handleGenerateWithDocument Earlier
                (Sequencer.serve Samples.speaker_prompt Samples.echo 0 None)
                3 (with_uploaded true Samples.sample_page))) = [e] /\
    generation e = true /\
    sent e = GenerateNextTurn q /\
    tr_use_document q = Some true /\
    step_failed e = true.
Proof.
  split; [vm_compute; reflexivity |].
  split; [apply empty_store_is_absent |].
  split; [vm_compute; reflexivity |].
  destruct (log (fst (handleGenerateWithDocument
                        Earlier
                        (Sequencer.serve Samples.speaker_prompt Samples.echo 0 None)
                        3 (with_uploaded true Samples.sample_page))))
    as [| e [| e' l]] eqn:Hlog;
    vm_compute in Hlog; try discriminate Hlog.
  injection Hlog as <-.
  eexists. eexists.
  split; [reflexivity |]. split; [reflexivity |]. split; [reflexivity |].
  split; reflexivity.
Qed.

(** ** A guidance run against the sequencer *)

Section Guidance.
Variable build_prompt :
  Sequencer.DiscussionRequest -> jsstring -> option Sequencer.DocumentContext -> jsstring.
Variable gateway : nat -> nat -> Sequencer.generator.
Variable store : option Sequencer.DocumentContext.
Hypothesis gateway_answers :
  forall n k prompt s, exists generated, gateway n k prompt s = Ok generated.





(** Displaying messages touches neither the arrays nor the log. *)
Lemma display_keeps (rv : revision) (msgs : list utterance) :
  forall p : page,
    arrays (fold_left (display_one rv) msgs p) = arrays p /\
    currentDiscussion (fold_left (display_one rv) msgs p) = currentDiscussion p /\
    log (fold_left (display_one rv) msgs p) = log p.
Proof.
  induction msgs as [| m msgs IH]; intro p; simpl; [repeat split |].
  destruct (IH (display_one rv p m)) as (Ha & Hc & Hl).
  rewrite Ha, Hc, Hl. unfold display_one.
  destruct (str_eqb (role m) system_role); [repeat split |].
  destruct rv; [repeat split |].
  destruct (str_eqb (role m) consultant_role); repeat split.
Qed.

Lemma displayDiscussion_keeps (rv : revision) (msgs : list utterance)
      (topic : jsstring) (p : page) :
  arrays (displayDiscussion rv msgs topic p) = arrays p /\
  currentDiscussion (displayDiscussion rv msgs topic p) = currentDiscussion p /\
  log (displayDiscussion rv msgs topic p) = log p.
Proof.
  unfold displayDiscussion. cbv zeta.
  match goal with
  | |- context [fold_left _ ?l ?p1] => destruct (display_keeps rv l p1) as (Ha & Hc & Hl)
  end.
  rewrite Ha, Hc, Hl. destruct rv; repeat split.
Qed.









End Guidance.



(* ================================================================== *)
(** * Further properties of the page script *)

(** ** Escaping loses nothing *)

Section Escaping.

Lemma entity_of_head (c : cu) :
  (entity_of c = [c] /\ c <> 38%N) \/
  (exists rest, entity_of c = 38%N :: rest /\
                mem c [38; 60; 62; 34; 39]%N = true).
Proof.
  unfold entity_of, cu_eqb, mem.
  destruct (N.eqb_spec c 38); [right; subst; eexists; split; reflexivity |].
  destruct (N.eqb_spec c 60); [right; subst; eexists; split; reflexivity |].
  destruct (N.eqb_spec c 62); [right; subst; eexists; split; reflexivity |].
  destruct (N.eqb_spec c 34); [right; subst; eexists; split; reflexivity |].
  destruct (N.eqb_spec c 39); [right; subst; eexists; split; reflexivity |].
  left. split; [reflexivity | assumption].
Qed.

(** Two entities, or an entity and a character that stands for itself,
    never start the same text unless they come from the same character. *)
Lemma entity_of_prefix (x y : cu) (a b : jsstring) :
  entity_of x ++ a = entity_of y ++ b -> x = y /\ a = b.
Proof.
  unfold entity_of, cu_eqb.
  destruct (N.eqb_spec x 38); destruct (N.eqb_spec y 38);
    try (subst; simpl; intro H; injection H; intros; subst; split; congruence).
  all: destruct (N.eqb_spec x 60); destruct (N.eqb_spec y 60);
    try (subst; simpl; intro H; injection H; intros; subst; split; congruence).
  all: destruct (N.eqb_spec x 62); destruct (N.eqb_spec y 62);
    try (subst; simpl; intro H; injection H; intros; subst; split; congruence).
  all: destruct (N.eqb_spec x 34); destruct (N.eqb_spec y 34);
    try (subst; simpl; intro H; injection H; intros; subst; split; congruence).
  all: destruct (N.eqb_spec x 39); destruct (N.eqb_spec y 39);
    try (subst; simpl; intro H; injection H; intros; subst; split; congruence).
Qed.

End Escaping.

(** X1. [escapeHtml] is injective on strings: two texts with the same
    escaped form are the same text, so that whatever reads the escaped
    form back can recover the text. *)
Theorem escaped_text_determines_the_text (a b : jsstring) :
  escapeHtml (Some a) = escapeHtml (Some b) -> a = b.
Proof.
  rewrite !escapeHtml_chars. revert b.
  induction a as [| x a IH]; intros [| y b]; simpl; intro H.
  - reflexivity.
  - exfalso. destruct (entity_of_head y) as [(E & _) | (rest & E & _)];
      rewrite E in H; discriminate.
  - exfalso. destruct (entity_of_head x) as [(E & _) | (rest & E & _)];
      rewrite E in H; discriminate.
  - apply entity_of_prefix in H. destruct H as (-> & H).
    f_equal. apply IH. exact H.
Qed.

(** X1 on a text with a special character, written in two ways. *)
Lemma escaped_text_sample :
  escapeHtml (Some (js "a<b")) = escapeHtml (Some [97; 60; 98]%N) /\
  js "a<b" = [97; 60; 98]%N.
Proof.
  split; [reflexivity |].
  apply escaped_text_determines_the_text. reflexivity.
Defined.

(** ** Line feeds in the rendered text *)

Section LineFeeds.

(** The last substitution of [markdownToHtml] on its own. *)
Lemma break_lines_from (fuel : nat) :
  forall (prev : option cu) (s : jsstring),
    List.length s < fuel ->
    replace_from (fun c : cu => c) (fun c : cu => c) fuel true (Atom (Lit 10%N))
                 (Template [Text (js "<br>")]) prev s
    = flat_map (fun c => if cu_eqb c 10%N then js "<br>" else [c]) s.
Proof.
  induction fuel as [| fuel IH]; intros prev s Hlen; [lia |].
  destruct s as [| c s]; [reflexivity |].
  cbn [replace_from match_here exec map atom_ok].
  replace (char_eq true 10%N c) with (cu_eqb c 10%N)
    by (unfold char_eq; simpl; rewrite orb_false_r; reflexivity).
  cbn [flat_map].
  destruct (cu_eqb c 10%N) eqn:E.
  - cbn [firstn skipn expand flat_map expand_piece app].
    rewrite IH by (simpl in Hlen; lia).
    rewrite map_id, app_nil_r. reflexivity.
  - rewrite IH by (simpl in Hlen; lia). reflexivity.
Qed.

Lemma no_line_feed_after_break (s : jsstring) :
  ~ In 10%N (flat_map (fun c => if cu_eqb c 10%N then js "<br>" else [c]) s).
Proof.
  induction s as [| c s IH]; simpl; [tauto |].
  intro H. apply in_app_or in H. destruct H as [H | H]; [| exact (IH H)].
  destruct (cu_eqb c 10%N) eqn:E.
  - simpl in H. repeat (destruct H as [H | H]; [discriminate |]). exact H.
  - simpl in H. destruct H as [H | []]. subst c.
    unfold cu_eqb in E. rewrite N.eqb_refl in E. discriminate.
Qed.

Lemma apply_rules_snoc (rules : list (re * replacement)) (r : re) (rp : replacement)
      (html : jsstring) :
  apply_rules (fun c : cu => c) (fun c : cu => c) (rules ++ [(r, rp)]) html
  = replace (fun c : cu => c) (fun c : cu => c) true r rp
            (apply_rules (fun c : cu => c) (fun c : cu => c) rules html).
Proof.
  unfold apply_rules. rewrite fold_left_app. reflexivity.
Qed.

End LineFeeds.

(** X2. The text [markdownToHtml] returns holds no line feed: whatever the
    earlier substitutions leave, the last one turns every line feed into a
    [<br>] tag. *)
Theorem rendered_text_has_no_line_feed (markdown : option jsstring) :
  ~ In 10%N (markdownToHtml markdown).
Proof.
  destruct markdown as [m |]; [| simpl; tauto].
  unfold markdownToHtml. destruct (truthy m); [| simpl; tauto].
  change markdown_rules
    with (removelast markdown_rules ++ [(Atom (Lit 10%N), Template [Text (js "<br>")])]).
  rewrite apply_rules_snoc. unfold replace.
  rewrite break_lines_from by lia.
  apply no_line_feed_after_break.
Qed.

(** ** The topic read back from the header *)

Section TopicHeader.

Lemma starts_with_app (p s : jsstring) : starts_with p (p ++ s) = true.
Proof.
  induction p as [| c p IH]; simpl; [reflexivity |].
  unfold cu_eqb. rewrite N.eqb_refl. exact IH.
Qed.

Lemma starts_with_cons (x : cu) (w : jsstring) (c : cu) (s : jsstring) :
  starts_with (x :: w) (c :: s) = cu_eqb x c && starts_with w s.
Proof. reflexivity. Qed.

Lemma starts_with_split (p s : jsstring) :
  starts_with p s = true -> exists rest, s = p ++ rest.
Proof.
  revert s. induction p as [| c p IH]; intros s H; simpl in *.
  - exists s. reflexivity.
  - destruct s as [| d s]; [discriminate |].
    apply andb_true_iff in H. destruct H as (Hc & Hp).
    unfold cu_eqb in Hc. apply N.eqb_eq in Hc. subst d.
    destruct (IH s Hp) as (rest & ->). exists rest. reflexivity.
Qed.

Lemma includes_app (p u : jsstring) : includes p (u ++ p) = true.
Proof.
  induction u as [| c u IH]; simpl.
  - destruct p; simpl; [reflexivity |].
    unfold cu_eqb. rewrite N.eqb_refl.
    rewrite <- (app_nil_r p) at 2. rewrite starts_with_app. reflexivity.
  - rewrite IH. apply orb_true_r.
Qed.

Lemma starts_with_left (p s rest : jsstring) :
  starts_with p s = true -> starts_with p (s ++ rest) = true.
Proof.
  revert s. induction p as [| c p IH]; intros s H; [reflexivity |].
  destruct s as [| d s]; [discriminate |].
  simpl in *. apply andb_true_iff in H. destruct H as (Hc & Hp).
  rewrite Hc. exact (IH s Hp).
Qed.

Lemma includes_left (p s rest : jsstring) :
  includes p s = true -> includes p (s ++ rest) = true.
Proof.
  induction s as [| c s IH]; intro H.
  - destruct p; [destruct rest; reflexivity | discriminate].
  - cbn [app includes] in *. apply orb_true_iff in H. destruct H as [H | H].
    + change (c :: s ++ rest) with ((c :: s) ++ rest).
      rewrite (starts_with_left _ _ rest H). reflexivity.
    + rewrite (IH H). apply orb_true_r.
Qed.

Lemma includes_tail (p : jsstring) (c : cu) (s : jsstring) :
  includes p (c :: s) = false ->
  starts_with p (c :: s) = false /\ includes p s = false.
Proof.
  simpl. intro H. apply orb_false_iff in H. exact H.
Qed.

(** A pattern that does not occur is not removed. *)
Lemma remove_first_absent (p s : jsstring) :
  includes p s = false -> remove_first p s = s.
Proof.
  induction s as [| c s IH]; intro H.
  - destruct p; [discriminate | reflexivity].
  - destruct (includes_tail p c s H) as (Hs & Hi).
    cbn [remove_first]. rewrite Hs. f_equal. exact (IH Hi).
Qed.

Lemma remove_first_head (p s : jsstring) : remove_first p (p ++ s) = s.
Proof.
  destruct p as [| c p]; [destruct s; reflexivity |].
  cbn [app remove_first].
  change (c :: p ++ s) with ((c :: p) ++ s). rewrite starts_with_app.
  rewrite skipn_app, skipn_all, Nat.sub_diag. reflexivity.
Qed.

Lemma ends_with_app (p s : jsstring) : ends_with p (s ++ p) = true.
Proof.
  unfold ends_with. rewrite rev_app_distr. apply starts_with_app.
Qed.

Lemma ends_with_includes (p s : jsstring) :
  ends_with p s = true -> includes p s = true.
Proof.
  unfold ends_with. intro H. apply starts_with_split in H.
  destruct H as (rest & H).
  apply (f_equal (@rev cu)) in H. rewrite rev_involutive, rev_app_distr,
    rev_involutive in H.
  subst s. apply includes_app.
Qed.

(** A pattern whose first character occurs nowhere else in it cannot
    straddle the end of a text it follows. *)
Lemma starts_with_before (w u v : jsstring) (c : cu) :
  existsb (cu_eqb c) w = false ->
  starts_with w (u ++ c :: v) = true -> starts_with w u = true.
Proof.
  revert u. induction w as [| x w IH]; intros u Hc H; [reflexivity |].
  simpl in Hc. apply orb_false_iff in Hc. destruct Hc as (Hx & Hw).
  destruct u as [| y u]; simpl in *.
  - apply andb_true_iff in H. destruct H as (H & _).
    unfold cu_eqb in *. rewrite N.eqb_sym in H. congruence.
  - apply andb_true_iff in H. destruct H as (Hy & H).
    rewrite Hy. exact (IH u Hw H).
Qed.

Lemma suffix_removed (t : jsstring) :
  includes document_suffix t = false ->
  remove_first document_suffix (t ++ document_suffix) = t.
Proof.
  induction t as [| c t IH]; intro H; [reflexivity |].
  destruct (includes_tail _ c t H) as (Hs & Hi).
  cbn [app remove_first].
  assert (Hno : starts_with document_suffix (c :: t ++ document_suffix) = false).
  { destruct (starts_with document_suffix (c :: t ++ document_suffix)) eqn:E;
      [| reflexivity].
    rewrite <- Hs. symmetry.
    change document_suffix
      with (32%N :: [40; 25991; 26360; 21442; 29031; 41]%N) in E |- *.
    rewrite starts_with_cons in E |- *.
    apply andb_true_iff in E. destruct E as (Ec & E). rewrite Ec.
    cbn [andb].
    apply (@starts_with_before _ t [40; 25991; 26360; 21442; 29031; 41]%N 32%N);
      [reflexivity | exact E]. }
  rewrite Hno. f_equal. exact (IH Hi).
Qed.

End TopicHeader.

(** X3. The topic comes back from every header the script writes.  For a
    topic that does not hold the marker of a grounded run, and that holds
    the header's prefix neither in itself nor across its end and the
    marker, the topic the continuation handlers read from the header is
    that topic, whether the header is the bare topic (a fresh run), the
    topic with the marker (a grounded run), or the prefixed forms a
    continuation or a guidance run leaves behind. *)
Theorem topic_is_read_back_from_the_header (t : jsstring) :
  includes header_prefix (t ++ document_suffix) = false ->
  includes document_suffix t = false ->
  topic_of_header t = t /\
  topic_of_header (t ++ document_suffix) = t /\
  topic_of_header (header_prefix ++ t) = t /\
  topic_of_header (header_prefix ++ t ++ document_suffix) = t.
Proof.
  intros Hps Hs.
  assert (Hp : includes header_prefix t = false).
  { destruct (includes header_prefix t) eqn:E; [| reflexivity].
    rewrite (includes_left _ _ document_suffix E) in Hps. discriminate. }
  assert (Hend : ends_with document_suffix t = false).
  { destruct (ends_with document_suffix t) eqn:E; [| reflexivity].
    apply ends_with_includes in E. congruence. }
  unfold topic_of_header. cbv zeta.
  rewrite !remove_first_head, (remove_first_absent _ _ Hp), (remove_first_absent _ _ Hps).
  rewrite Hend, ends_with_app, (suffix_removed t Hs).
  repeat split.
Qed.

(** X3 on the topic of the sample form. *)
Lemma topic_header_sample :
  includes header_prefix (js "Remote work" ++ document_suffix) = false /\
  includes document_suffix (js "Remote work") = false /\
  topic_of_header (header_prefix ++ js "Remote work" ++ document_suffix)
  = js "Remote work".
Proof.
  split; [reflexivity |]. split; [reflexivity |].
  apply (topic_is_read_back_from_the_header (js "Remote work")); reflexivity.
Defined.

(** ** What a continuation leaves alone *)

Section CurrentDiscussion.
Variable srv : server.

Lemma continuation_step_keeps (q : continuation_request ref) (cd : ref)
      (after : Z) (p : page) :
  currentDiscussion (fst (continuation_step srv q cd after p)) = currentDiscussion p /\
  next_ref (arrays (fst (continuation_step srv q cd after p))) = next_ref (arrays p) /\
  forall r, r <> cd ->
            cells (arrays (fst (continuation_step srv q cd after p))) r
            = cells (arrays p) r.
Proof.
  unfold continuation_step, fetch. cbv zeta.
  destruct (read_reply _) as [d | x]; [| repeat split].
  destruct (reported d); [repeat split |].
  destruct (message d) as [m |]; [| repeat split].
  assert (Hcells : forall r, r <> cd ->
                     cells (array_push cd (Some m) (arrays p)) r = cells (arrays p) r).
  { intros r Hr. cbn [array_push cells].
    destruct (Nat.eqb_spec r cd); [contradiction | reflexivity]. }
  destruct (is_complete d); repeat split; exact Hcells.
Qed.

Lemma continuation_loop_keeps (fuel : nat) :
  forall (q : continuation_request ref) (cd : ref) (after : Z) (p : page),
    currentDiscussion (fst (fetchNextContinuationTurn srv fuel q cd after p))
    = currentDiscussion p /\
    forall r, r <> cd ->
              cells (arrays (fst (fetchNextContinuationTurn srv fuel q cd after p))) r
              = cells (arrays p) r.
Proof.
  induction fuel as [| fuel IH]; intros q cd after p; [split; reflexivity |].
  cbn [fetchNextContinuationTurn].
  destruct (continuation_step_keeps q cd after p) as (Hc & _ & Hr).
  destruct (continuation_step srv q cd after p) as [p1 [o | q1 after1]];
    cbn [fst] in *; [split; assumption |].
  destruct (IH q1 cd after1 p1) as (Hc1 & Hr1).
  split; [congruence |].
  intros r Hne. rewrite (Hr1 r Hne). exact (Hr r Hne).
Qed.

End CurrentDiscussion.

(** X4. A continuation never touches the discussion [currentDiscussion]
    names.  Whatever the server answers and however long the run, the
    variable still names the same array after [handleContinueDiscussion],
    and that array holds what it held: the utterances of the continuation
    go to an array of their own, so [saveDiscussionToFile], which reads
    [currentDiscussion], does not see them. *)
Theorem continuation_leaves_current_discussion
        (rv : revision) (textContent : jsstring -> jsstring) (srv : server)
        (fuel : nat) (p : page) (r : ref) :
  currentDiscussion p = Some r ->
  r < next_ref (arrays p) ->
  currentDiscussion (fst (handleContinueDiscussion textContent rv srv fuel p)) = Some r /\
  transcript r (fst (handleContinueDiscussion textContent rv srv fuel p))
  = transcript r p.
Proof.
  intros Hcur Hr. unfold handleContinueDiscussion.
  destruct (lt _ _ || gt _ _); [split; [exact Hcur | reflexivity] |].
  unfold new_array. cbv beta iota zeta.
  match goal with
  | |- context [fetchNextContinuationTurn srv fuel ?q ?cd 0 ?p2] =>
      destruct (continuation_loop_keeps srv fuel q cd 0 p2) as (Hc & Hcells)
  end.
  split.
  - rewrite Hc. exact Hcur.
  - unfold transcript. rewrite Hcells by lia.
    cbn [arrays with_arrays hideError showLoading with_error with_loading cells].
    destruct (Nat.eqb_spec r (next_ref (arrays p))); [lia | reflexivity].
Qed.

(** X4 on a page whose discussion was generated before, against a server
    that answers with one more utterance. *)
Lemma continuation_leaves_current_discussion_sample :
  currentDiscussion Cases.generated_page = Some 0 /\
  transcript 0 (fst (handleContinueDiscussion Samples.plain_text Latest
                       Samples.initialising 3 Cases.generated_page))
  = transcript 0 Cases.generated_page /\
  List.length (bubbles (fst (handleContinueDiscussion Samples.plain_text Latest
                               Samples.initialising 3 Cases.generated_page)))
  = S (List.length (bubbles Cases.generated_page)).
Proof.
  split; [reflexivity |].
  split; [| reflexivity].
  apply (@continuation_leaves_current_discussion
           Latest Samples.plain_text Samples.initialising 3 Cases.generated_page 0).
  - reflexivity.
  - simpl. lia.
Defined.

(** ** What a guidance run displays *)

Section GuidanceDisplay.
Import Classes.

Lemma display_bubbles (rv : revision) (msgs : list utterance) :
  forall p : page,
    bubbles (fold_left (display_one rv) msgs p)
    = bubbles p ++ map bubble_of (filter (shown_as_bubble rv) msgs).
Proof.
  induction msgs as [| m msgs IH]; intro p; cbn [fold_left filter map].
  - rewrite app_nil_r. reflexivity.
  - rewrite IH. unfold display_one, shown_as_bubble.
    destruct (str_eqb (role m) system_role); cbn [negb andb]; [reflexivity |].
    destruct rv; cbn [map].
    + unfold appendMessage. cbn [bubbles with_container].
      rewrite <- app_assoc. reflexivity.
    + destruct (str_eqb (role m) consultant_role); cbn [negb map].
      * reflexivity.
      * unfold appendMessage. cbn [bubbles with_container].
        rewrite <- app_assoc. reflexivity.
Qed.

Lemma collect_length (textContent : jsstring -> jsstring) (rv : revision) (p : page) :
  List.length (bubbles p) <= List.length (collect textContent rv p).
Proof.
  unfold collect. rewrite length_app, !length_map. lia.
Qed.

Lemma collect_without_analyses (textContent : jsstring -> jsstring) (rv : revision)
      (p : page) :
  rv = Earlier \/ consultantMessages p = [] ->
  skipn (List.length (bubbles p)) (collect textContent rv p) = [].
Proof.
  intro H. apply skipn_all2. unfold collect.
  destruct H as [-> | H]; [| destruct rv; rewrite ?H];
    cbn [map app]; rewrite length_map; lia.
Qed.

End GuidanceDisplay.

(** X5. What a guidance run adds to the display.  When the reply to
    [/provide-guidance] carries the transcript the page sent, followed by
    new messages, [displayDiscussion] resumes at the index given by the
    number of bubbles on the page: it adds a bubble for every message past
    that index that is neither a system message nor (in the latest
    revision) a consultant analysis.  With no consultant analysis on the
    page these are the new messages and nothing else; with analyses on
    the page the index falls short of the end of the transcript sent, and
    the messages between the two are displayed once more. *)
Theorem guidance_display_resumes_at_bubble_count
        (rv : revision) (textContent : jsstring -> jsstring) (srv : server)
        (p : page) (e : exchange) (d : data) (news : list utterance) :
  truthy (trim (guidanceInstructionInput (form p))) = true ->
  lt (guidanceAdditionalTurns (form p)) (Int 1)
  || gt (guidanceAdditionalTurns (form p)) (Int 5) = false ->
  log (fst (handleProvideGuidance textContent rv srv p)) = log p ++ [e] ->
  read e = Ok d -> reported d = None ->
  discussion d = Some (collect textContent rv p ++ news) ->
  snd (handleProvideGuidance textContent rv srv p) = Completed /\
  bubbles (fst (handleProvideGuidance textContent rv srv p))
  = bubbles p
    ++ map bubble_of
         (filter (Classes.shown_as_bubble rv)
                 (skipn (List.length (bubbles p)) (collect textContent rv p) ++ news)) /\
  (rv = Earlier \/ consultantMessages p = [] ->
   bubbles (fst (handleProvideGuidance textContent rv srv p))
   = bubbles p ++ map bubble_of (filter (Classes.shown_as_bubble rv) news)).
Proof.
  intros Hinstr Hturns Hlog Hread Hrep Hdisc.
  assert (Hmain :
            snd (handleProvideGuidance textContent rv srv p) = Completed /\
            bubbles (fst (handleProvideGuidance textContent rv srv p))
            = bubbles p
              ++ map bubble_of
                   (filter (Classes.shown_as_bubble rv)
                           (skipn (List.length (bubbles p)) (collect textContent rv p)
                            ++ news))).
  { revert Hlog. unfold handleProvideGuidance. cbv zeta.
    rewrite Hinstr, Hturns. cbn [negb]. unfold fetch. cbv beta iota zeta.
    match goal with
    | |- context [read_reply ?a] =>
        set (answer := a); destruct (read_reply answer) as [d' | x] eqn:Hans
    end.
    - intro Hlog.
      assert (He : read e = Ok d').
      { cbn [fst fail showError showLoading with_error with_loading log with_log
             hideError] in Hlog.
        destruct (reported d'); [| destruct (discussion d')];
          cbn [fst fail showError showLoading with_error with_loading log with_log
               hideError with_current with_header] in Hlog.
        all: try (apply app_inv_head in Hlog; inversion Hlog; subst e;
                  unfold read; cbn [sent received]; exact Hans).
        - unfold new_array in Hlog. cbv beta iota zeta in Hlog.
          cbn [fst log with_header] in Hlog.
          match type of Hlog with
          | context [displayDiscussion ?v ?m ?t ?p4] =>
              destruct (displayDiscussion_keeps v m t p4) as (_ & _ & Hl)
          end.
          rewrite Hl in Hlog.
          cbn [log with_current with_arrays showLoading with_loading with_log] in Hlog.
          apply app_inv_head in Hlog. inversion Hlog; subst e.
          unfold read. cbn [sent received]. exact Hans.
        - destruct rv; cbn [log with_header showLoading with_loading with_log] in Hlog;
            apply app_inv_head in Hlog; inversion Hlog; subst e;
            unfold read; cbn [sent received]; exact Hans. }
      rewrite Hread in He. inversion He; subst d'. clear He.
      rewrite Hrep, Hdisc. unfold new_array. cbv beta iota zeta.
      split; [reflexivity |].
      cbn [fst bubbles with_header]. unfold displayDiscussion. cbv zeta.
      rewrite display_bubbles.
      assert (Hb : forall h q,
                 bubbles (match rv with
                          | Latest => with_header h q
                          | Earlier => q
                          end) = bubbles q)
        by (intros; destruct rv; reflexivity).
      rewrite !Hb.
      cbn [bubbles with_current with_arrays showLoading with_loading with_log
           hideError with_error].
      rewrite skipn_app.
      replace (List.length (bubbles p) - List.length (collect textContent rv p))
        with 0 by (pose proof (collect_length textContent rv p); lia).
      reflexivity.
    - intro Hlog. exfalso.
      cbn [fst fail showError showLoading with_error with_loading log with_log
           hideError] in Hlog.
      apply app_inv_head in Hlog. inversion Hlog; subst e.
      unfold read in Hread. cbn [sent received] in Hread.
      fold answer in Hread. rewrite Hans in Hread. discriminate. }
  destruct Hmain as (Hdone & Hbubbles).
  split; [exact Hdone |]. split; [exact Hbubbles |].
  intro Hno. rewrite Hbubbles, (collect_without_analyses textContent p Hno).
  reflexivity.
Qed.

(** X5 on a page with three bubbles and one consultant analysis: the
    display resumes at index 3 of a transcript of four messages, so the
    last bubble is shown a second time before the new utterance. *)
Lemma guidance_display_sample :
  exists e d,
    log (fst (handleProvideGuidance Samples.plain_text Latest Cases.guiding
                                    Cases.analysed_page)) = [e] /\
    read e = Ok d /\
    discussion d
    = Some (collect Samples.plain_text Latest Cases.analysed_page ++ Cases.guided_news) /\
    map role_tag (bubbles (fst (handleProvideGuidance Samples.plain_text Latest
                                  Cases.guiding Cases.analysed_page)))
    = [js "Analyst"; js "Engineer"; js "Analyst"; js "Analyst"; js "Engineer"].
Proof.
  eexists. eexists.
  split; [reflexivity |]. split; [reflexivity |]. split; [reflexivity |].
  destruct (@guidance_display_resumes_at_bubble_count
              Latest Samples.plain_text Cases.guiding Cases.analysed_page
              _ _ Cases.guided_news eq_refl eq_refl eq_refl eq_refl eq_refl eq_refl)
    as (_ & Hb & _).
  rewrite Hb. reflexivity.
Defined.

Unset Implicit Arguments.

(** ** Markup *)

Section Substitution.
Import Classes.

Lemma last_code_cons (prev : option cu) (c : cu) (a : jsstring) :
  last_code (fun x : cu => x) prev (c :: a) = last_code (fun x : cu => x) (Some c) a.
Proof.
  unfold last_code. cbn [rev]. destruct (rev a); reflexivity.
Qed.

Lemma last_code_app (prev : option cu) (a b : jsstring) :
  last_code (fun x : cu => x) prev (a ++ b)
  = last_code (fun x : cu => x) (last_code (fun x : cu => x) prev a) b.
Proof.
  revert prev. induction a as [| c a IH]; intro prev; [reflexivity |].
  cbn [app]. rewrite !last_code_cons. apply IH.
Qed.

(** A stretch of the text in which no match starts is copied. *)
Lemma skip_quiet (r : re) (rp : replacement) (a : jsstring) :
  forall (f : nat) (prev : option cu) (b : jsstring),
    quiet r prev a b = true ->
    List.length a <= f ->
    replace_from (fun c : cu => c) (fun c : cu => c) f true r rp prev (a ++ b)
    = a ++ replace_from (fun c : cu => c) (fun c : cu => c) (f - List.length a) true r rp
                        (last_code (fun x : cu => x) prev a) b.
Proof.
  induction a as [| c a IH]; intros f prev b Hq Hf.
  - cbn [app List.length]. rewrite Nat.sub_0_r. reflexivity.
  - destruct f as [| f]; [simpl in Hf; lia |].
    cbn [quiet] in Hq.
    destruct (match_here true r prev ((c :: a) ++ b)) eqn:Hm; [discriminate |].
    cbn [replace_from]. rewrite map_id, Hm. cbn [app List.length Nat.sub].
    rewrite (IH f (Some c) b Hq) by (simpl in Hf; lia).
    rewrite last_code_cons. reflexivity.
Qed.

(** A match that is not empty is replaced, and the search goes on behind
    it. *)
Lemma fire (r : re) (rp : replacement) (f n : nat) (cap : capture)
      (prev : option cu) (s : jsstring) :
  match_here true r prev s = Some (S n, cap) ->
  replace_from (fun c : cu => c) (fun c : cu => c) (S f) true r rp prev s
  = expand (fun c : cu => c) (fun c : cu => c) rp (firstn (S n) s) cap
    ++ replace_from (fun c : cu => c) (fun c : cu => c) f true r rp
                    (last_code (fun x : cu => x) prev (firstn (S n) s))
                    (skipn (S n) s).
Proof.
  intro Hm. cbn [replace_from]. rewrite map_id, Hm. reflexivity.
Qed.

Lemma rest_nil (r : re) (rp : replacement) (f : nat) (prev : option cu) :
  match_here true r prev [] = None ->
  replace_from (fun c : cu => c) (fun c : cu => c) f true r rp prev [] = [].
Proof.
  intro Hm. destruct f as [| f]; [reflexivity |].
  cbn [replace_from map]. rewrite Hm. reflexivity.
Qed.

(** No pattern of [markdownToHtml] matches the empty text. *)
Lemma nothing_in_the_empty_text (r : re) (rp : replacement) :
  In (r, rp) markdown_rules -> forall prev, match_here true r prev [] = None.
Proof.
  intros Hin prev. simpl in Hin.
  repeat (destruct Hin as [Hin | Hin];
          [inversion Hin; subst; clear Hin;
           unfold match_here; cbn;
           try (destruct (at_line_start prev)); reflexivity |]).
  contradiction.
Qed.

(** A pattern character that is no letter equals itself only. *)
Lemma other_char (x p : cu) :
  ascii_letter p = false -> cu_eqb x p = false -> char_eq true p x = false.
Proof.
  intros Hp Hx. unfold char_eq. rewrite Hp, Hx. reflexivity.
Qed.

Lemma not_mem (x : cu) (cs : list cu) (p : cu) :
  mem x cs = false -> In p cs -> cu_eqb x p = false.
Proof.
  unfold mem. intros H Hp.
  destruct (cu_eqb x p) eqn:E; [| reflexivity].
  rewrite <- H. symmetry. apply existsb_exists. exists p. split; assumption.
Qed.

(** The patterns before the last match nowhere but from the code units
    [opens] lists. *)
Lemma opens_fails (r : re) (rp : replacement) :
  In (r, rp) (removelast markdown_rules) ->
  forall (prev : option cu) (c : cu) (s : jsstring),
    opens (at_line_start prev) c = false ->
    match_here true r prev (c :: s) = None.
Proof.
  intros Hin prev c s Ho.
  unfold opens in Ho. apply orb_false_iff in Ho. destruct Ho as (Hany & Hstart).
  assert (Hc : forall p, In p [42; 96; 60]%N -> char_eq true p c = false).
  { intros p Hp. apply other_char; [| exact (not_mem _ _ _ Hany Hp)].
    simpl in Hp. repeat (destruct Hp as [Hp | Hp]; [subst p; reflexivity |]).
    contradiction. }
  assert (Hline : at_line_start prev = true ->
                  (forall p, In p [35; 45; 8226; 12539]%N -> char_eq true p c = false) /\
                  ((48 <=? c) && (c <=? 57))%N = false).
  { intro Hs. rewrite Hs in Hstart. cbn [andb] in Hstart.
    apply orb_false_iff in Hstart. destruct Hstart as (Hm & Hd).
    split; [| exact Hd].
    intros p Hp. apply other_char; [| exact (not_mem _ _ _ Hm Hp)].
    simpl in Hp. repeat (destruct Hp as [Hp | Hp]; [subst p; reflexivity |]).
    contradiction. }
  clear Hany Hstart.
  simpl in Hin.
  repeat (destruct Hin as [Hin | Hin];
          [inversion Hin; subst; clear Hin;
           unfold match_here;
           cbn [exec line_starting lits js map list_ascii_of_string
                N_of_ascii N_of_digits Plus atom_ok];
           try (destruct (at_line_start prev);
                [destruct (Hline eq_refl) as (Hl & Hd) | reflexivity]);
           first [ rewrite Hc by (simpl; tauto)
                 | rewrite Hl by (simpl; tauto)
                 | rewrite Hd ];
           reflexivity |]).
  contradiction.
Qed.

Lemma inline_parts (c : cu) :
  inline c = true ->
  mem c [38; 60; 62; 34; 39]%N = false /\ mem c [42; 96; 60]%N = false /\
  line_terminator c = false.
Proof.
  unfold inline. intro H. apply andb_true_iff in H. destruct H as (Hm & Hl).
  apply negb_true_iff in Hm, Hl.
  assert (Hall : forall p, In p [38; 60; 62; 34; 39; 42; 96]%N -> cu_eqb c p = false)
    by (intros p Hp; exact (not_mem _ _ _ Hm Hp)).
  repeat split; [| | exact Hl]; unfold mem; cbn [existsb];
    rewrite ?Hall by (simpl; tauto); reflexivity.
Qed.

(** Inside a line, no pattern matches from a code unit of a text without
    markup. *)
Lemma inline_fails (r : re) (rp : replacement) :
  In (r, rp) markdown_rules ->
  forall (prev : option cu) (c : cu) (s : jsstring),
    at_line_start prev = false -> inline c = true ->
    match_here true r prev (c :: s) = None.
Proof.
  intros Hin prev c s Hprev Hc.
  destruct (inline_parts c Hc) as (_ & Hany & Hl).
  change markdown_rules
    with (removelast markdown_rules ++ [(Atom (Lit 10%N), Template [Text (js "<br>")])])
    in Hin.
  apply in_app_or in Hin. destruct Hin as [Hin | [Hin | []]].
  - apply (opens_fails r rp Hin). unfold opens. rewrite Hprev, Hany. reflexivity.
  - inversion Hin; subst. unfold match_here. cbn [exec atom_ok].
    rewrite other_char; [reflexivity | reflexivity |].
    apply (not_mem c [10; 13; 8232; 8233]%N); [exact Hl | simpl; tauto].
Qed.

Lemma quiet_inline (r : re) (rp : replacement) :
  In (r, rp) markdown_rules ->
  forall (t : jsstring) (prev : option cu) (b : jsstring),
    Forall (fun c => inline c = true) t ->
    at_line_start prev = false ->
    quiet r prev t b = true.
Proof.
  intros Hin t. induction t as [| c t IH]; intros prev b Ht Hprev; [reflexivity |].
  inversion Ht as [| ? ? Hc Ht']; subst.
  cbn [quiet app]. rewrite (inline_fails r rp Hin prev c (t ++ b) Hprev Hc).
  apply IH; [exact Ht' |].
  cbn [at_line_start]. exact (proj2 (proj2 (inline_parts c Hc))).
Qed.

Lemma last_code_inline (t : jsstring) :
  forall prev : option cu,
    Forall (fun c => inline c = true) t ->
    at_line_start prev = false ->
    at_line_start (last_code (fun x : cu => x) prev t) = false.
Proof.
  induction t as [| c t IH]; intros prev Ht Hprev; [exact Hprev |].
  inversion Ht as [| ? ? Hc Ht']; subst.
  rewrite last_code_cons. apply IH; [exact Ht' |].
  cbn [at_line_start]. exact (proj2 (proj2 (inline_parts c Hc))).
Qed.

(** A pattern that finds nothing in the opening [a], in the text [t] and
    in the closing [b] leaves the three as they are. *)
Lemma quiet_rule (r : re) (rp : replacement) (a t b : jsstring) :
  In (r, rp) markdown_rules ->
  quiet r None a (t ++ b) = true ->
  at_line_start (last_code (fun x : cu => x) None a) = false ->
  Forall (fun c => inline c = true) t ->
  (forall p, at_line_start p = false -> quiet r p b [] = true) ->
  replace (fun c : cu => c) (fun c : cu => c) true r rp (a ++ t ++ b) = a ++ t ++ b.
Proof.
  intros Hin Ha Hlast Ht Hb. unfold replace.
  rewrite (skip_quiet r rp a _ None (t ++ b) Ha)
    by (rewrite length_app; lia).
  rewrite (skip_quiet r rp t _ _ b (quiet_inline r rp Hin t _ b Ht Hlast))
    by (rewrite !length_app; lia).
  match goal with
  | |- context [replace_from _ _ ?f true r rp ?p b] =>
      assert (Hs := skip_quiet r rp b f p [] (Hb p (last_code_inline t _ Ht Hlast)));
      rewrite app_nil_r in Hs; rewrite Hs by (rewrite ?length_app; lia)
  end.
  rewrite rest_nil by (apply (nothing_in_the_empty_text r rp Hin)).
  rewrite app_nil_r. reflexivity.
Qed.

Lemma apply_rules_app (rules rules' : list (re * replacement)) (html : jsstring) :
  apply_rules (fun c : cu => c) (fun c : cu => c) (rules ++ rules') html
  = apply_rules (fun c : cu => c) (fun c : cu => c) rules'
                (apply_rules (fun c : cu => c) (fun c : cu => c) rules html).
Proof.
  unfold apply_rules. apply fold_left_app.
Qed.

Lemma quiet_rules (rules : list (re * replacement)) (a t b : jsstring) :
  (forall r rp, In (r, rp) rules ->
                In (r, rp) markdown_rules /\
                quiet r None a (t ++ b) = true /\
                forall p, at_line_start p = false -> quiet r p b [] = true) ->
  at_line_start (last_code (fun x : cu => x) None a) = false ->
  Forall (fun c => inline c = true) t ->
  apply_rules (fun c : cu => c) (fun c : cu => c) rules (a ++ t ++ b) = a ++ t ++ b.
Proof.
  intros Hrules Hlast Ht.
  induction rules as [| [r rp] rules IH]; [reflexivity |].
  unfold apply_rules. cbn [fold_left fst snd].
  destruct (Hrules r rp (or_introl eq_refl)) as (Hin & Ha & Hb).
  rewrite (quiet_rule r rp a t b Hin Ha Hlast Ht Hb).
  apply IH. intros r' rp' Hin'. apply Hrules. right. exact Hin'.
Qed.

(** The text [escapeHtml] leaves as it is. *)
Lemma unescaped (s : jsstring) :
  Forall (fun c => mem c [38; 60; 62; 34; 39]%N = false) s -> flat_map entity_of s = s.
Proof.
  induction 1 as [| x s Hx _ IH]; simpl; [reflexivity |].
  rewrite IH.
  destruct (entity_of_head x) as [(E & _) | (rest & _ & E)]; [rewrite E; reflexivity |].
  rewrite E in Hx. discriminate.
Qed.

Lemma inline_unescaped (t : jsstring) :
  Forall (fun c => inline c = true) t ->
  Forall (fun c => mem c [38; 60; 62; 34; 39]%N = false) t.
Proof.
  intro H. eapply Forall_impl; [| exact H].
  intros c Hc. exact (proj1 (inline_parts c Hc)).
Qed.

(** The literal part of a pattern matches itself. *)
Lemma lits_match (ic : bool) (pre : jsstring) :
  forall (prev : option cu) (s : jsstring) (pos : nat) (cap : capture) (k : cont),
    exec ic (lits pre) prev (pre ++ s) pos cap k
    = k (last_code (fun x : cu => x) prev pre) s (pos + List.length pre) cap.
Proof.
  induction pre as [| c pre IH]; intros prev s pos cap k.
  - cbn [lits exec app List.length]. rewrite Nat.add_0_r. reflexivity.
  - cbn [lits exec app atom_ok]. unfold char_eq at 1. unfold cu_eqb at 1.
    rewrite N.eqb_refl. cbn [orb].
    rewrite IH, last_code_cons. cbn [List.length]. rewrite Nat.add_succ_r. reflexivity.
Qed.

(** A greedy iteration over code units it accepts goes as far as the
    continuation allows behind them. *)
Lemma greedy_takes (ic : bool) (a : atom) (k : cont) (b : jsstring) (cap : capture)
      (res : nat * capture) (t : jsstring) :
  forall (prev : option cu) (pos : nat),
    Forall (fun c => atom_ok ic a c = true) t ->
    star_greedy ic a (last_code (fun x : cu => x) prev t) b (pos + List.length t) cap k
    = Some res ->
    star_greedy ic a prev (t ++ b) pos cap k = Some res.
Proof.
  induction t as [| c t IH]; intros prev pos Ht Hres.
  - cbn [app List.length] in *. rewrite Nat.add_0_r in Hres. exact Hres.
  - inversion Ht as [| ? ? Hc Ht']; subst.
    cbn [app star_greedy]. rewrite Hc.
    rewrite (IH (Some c) (S pos) Ht'); [reflexivity |].
    rewrite last_code_cons in Hres. cbn [List.length] in Hres.
    rewrite Nat.add_succ_r in Hres. exact Hres.
Qed.

(** A lazy iteration goes on over the code units it accepts and from
    which the continuation fails. *)
Lemma lazy_goes_on (ic : bool) (a : atom) (k : cont) (b : jsstring) (cap : capture)
      (t : jsstring) :
  forall (prev : option cu) (pos : nat),
    Forall (fun c => atom_ok ic a c = true /\
                     forall p s n, k p (c :: s) n cap = None) t ->
    star_lazy ic a prev (t ++ b) pos cap k
    = star_lazy ic a (last_code (fun x : cu => x) prev t) b (pos + List.length t) cap k.
Proof.
  induction t as [| c t IH]; intros prev pos Ht.
  - cbn [app List.length]. rewrite Nat.add_0_r. reflexivity.
  - inversion Ht as [| ? ? (Hc & Hk) Ht']; subst.
    cbn [app star_lazy]. rewrite Hk, Hc.
    rewrite (IH (Some c) (S pos) Ht'), last_code_cons.
    cbn [List.length]. rewrite Nat.add_succ_r. reflexivity.
Qed.

Lemma greedy_to_the_end (ic : bool) (a : atom) (k : cont) (cap : capture)
      (res : nat * capture) (t : jsstring) (prev : option cu) (pos : nat) :
  Forall (fun c => atom_ok ic a c = true) t ->
  k (last_code (fun x : cu => x) prev t) [] (pos + List.length t) cap = Some res ->
  star_greedy ic a prev t pos cap k = Some res.
Proof.
  intros Ht Hres. rewrite <- (app_nil_r t).
  apply greedy_takes; [exact Ht |]. exact Hres.
Qed.

Lemma skipn_opening (a s : jsstring) : skipn (List.length a) (a ++ s) = s.
Proof.
  induction a as [| c a IH]; [reflexivity | exact IH].
Qed.

Lemma firstn_opening (t b : jsstring) : firstn (List.length t) (t ++ b) = t.
Proof.
  induction t as [| c t IH]; [reflexivity |]. cbn [List.length app firstn].
  rewrite IH. reflexivity.
Qed.

(** A pattern that matches the whole of an opening, a text and a closing,
    with the text for its group, leaves the text between the two tags. *)
Lemma whole_match_is_wrapped (r : re) (open close : string) (a t b : jsstring)
      (n off len : nat) :
  In (r, wrap open close) markdown_rules ->
  match_here true r None (a ++ t ++ b) = Some (n, Some (off, len)) ->
  n = List.length (a ++ t ++ b) -> off = List.length a -> len = List.length t ->
  n <> 0 ->
  replace (fun c : cu => c) (fun c : cu => c) true r (wrap open close) (a ++ t ++ b)
  = js open ++ t ++ js close.
Proof.
  intros Hin Hm Hn Hoff Hlen Ha. subst off len. unfold replace.
  destruct n as [| n]; [contradiction |].
  rewrite (fire r (wrap open close) _ n _ None _ Hm).
  rewrite Hn, firstn_all, skipn_all.
  rewrite rest_nil by (apply (nothing_in_the_empty_text r _ Hin)).
  unfold wrap. cbn [expand flat_map expand_piece].
  rewrite !map_id, skipn_opening, firstn_opening, !app_nil_r. reflexivity.
Qed.

Lemma quiet_rules_open (rules : list (re * replacement)) (a t : jsstring) :
  (forall r rp, In (r, rp) rules ->
                In (r, rp) markdown_rules /\ quiet r None a t = true) ->
  at_line_start (last_code (fun x : cu => x) None a) = false ->
  Forall (fun c => inline c = true) t ->
  apply_rules (fun c : cu => c) (fun c : cu => c) rules (a ++ t) = a ++ t.
Proof.
  intros Hrules Hlast Ht.
  rewrite <- (app_nil_r t).
  apply quiet_rules; [| exact Hlast | exact Ht].
  intros r rp Hin. destruct (Hrules r rp Hin) as (H1 & H2).
  rewrite app_nil_r. repeat split; assumption.
Qed.

Lemma inline_dot (t : jsstring) :
  Forall (fun c => inline c = true) t ->
  Forall (fun c => atom_ok true Dot c = true) t.
Proof.
  intro H. eapply Forall_impl; [| exact H].
  intros c Hc. cbn [atom_ok]. rewrite (proj2 (proj2 (inline_parts c Hc))). reflexivity.
Qed.

Lemma inline_char (c p : cu) :
  inline c = true -> In p [42; 96]%N -> char_eq true p c = false.
Proof.
  intros Hc Hp. destruct (inline_parts c Hc) as (_ & Hany & _).
  apply other_char.
  - simpl in Hp. repeat (destruct Hp as [Hp | Hp]; [subst p; reflexivity |]).
    contradiction.
  - apply (not_mem c [42; 96; 60]%N); [exact Hany |].
    simpl in Hp. simpl. tauto.
Qed.

End Substitution.

(** A rule is one of the rules of [markdownToHtml]. *)
Ltac in_rules :=
  unfold markdown_rules; cbn [In]; repeat (first [left; reflexivity | right]).

(** No match starts in a closing tag, whatever comes before it inside
    the line. *)
Ltac quiet_closing :=
  let p := fresh "p" in
  let Hp := fresh "Hp" in
  intros p Hp; cbn -[at_line_start]; rewrite ?Hp; reflexivity.

(** The rules of a list find nothing in an opening, a text and a closing
    of which the opening and the closing are given. *)
Ltac quiet_list :=
  let r := fresh "r" in
  let rp := fresh "rp" in
  let Hin := fresh "Hin" in
  intros r rp Hin; simpl in Hin;
  repeat (destruct Hin as [Hin | Hin];
          [inversion Hin; subst; clear Hin;
           split; [in_rules | split; [reflexivity | quiet_closing]] |]);
  contradiction.

Ltac quiet_list_open :=
  let r := fresh "r" in
  let rp := fresh "rp" in
  let Hin := fresh "Hin" in
  intros r rp Hin; simpl in Hin;
  repeat (destruct Hin as [Hin | Hin];
          [inversion Hin; subst; clear Hin;
           split; [in_rules | reflexivity] |]);
  contradiction.

Section Unmarked.
Import Classes.

Lemma unmarked_unescaped (s : jsstring) :
  forall at_start : bool,
    unmarked at_start s = true ->
    Forall (fun c => mem c [38; 60; 62; 34; 39]%N = false) s.
Proof.
  induction s as [| c s IH]; intros at_start H; [constructor |].
  cbn [unmarked] in H. apply andb_true_iff in H. destruct H as (H & Hs).
  apply andb_true_iff in H. destruct H as (Hc & _).
  constructor; [apply negb_true_iff; exact Hc | exact (IH _ Hs)].
Qed.

Lemma earlier_rule (rule : re * replacement) :
  In rule (removelast markdown_rules) -> In rule markdown_rules.
Proof.
  intro H.
  change markdown_rules
    with (removelast markdown_rules ++ [(Atom (Lit 10%N), Template [Text (js "<br>")])]).
  apply in_or_app. left. exact H.
Qed.

(** A pattern before the last copies a text without markup. *)
Lemma unmarked_copied (r : re) (rp : replacement) :
  In (r, rp) (removelast markdown_rules) ->
  forall (fuel : nat) (prev : option cu) (s : jsstring),
    unmarked (at_line_start prev) s = true ->
    replace_from (fun c : cu => c) (fun c : cu => c) fuel true r rp prev s = s.
Proof.
  intros Hin. induction fuel as [| fuel IH]; intros prev s Hs; [reflexivity |].
  cbn [replace_from]. rewrite map_id.
  destruct s as [| c s].
  - rewrite (nothing_in_the_empty_text r rp (earlier_rule _ Hin)). reflexivity.
  - cbn [unmarked] in Hs. apply andb_true_iff in Hs. destruct Hs as (Hc & Hs).
    apply andb_true_iff in Hc. destruct Hc as (_ & Ho). apply negb_true_iff in Ho.
    rewrite (opens_fails r rp Hin prev c s Ho).
    f_equal. apply IH. exact Hs.
Qed.

Lemma unmarked_rules (rules : list (re * replacement)) :
  (forall rule, In rule rules -> In rule (removelast markdown_rules)) ->
  forall s : jsstring,
    unmarked true s = true ->
    apply_rules (fun c : cu => c) (fun c : cu => c) rules s = s.
Proof.
  induction rules as [| [r rp] rules IH]; intros Hrules s Hs; [reflexivity |].
  unfold apply_rules. cbn [fold_left fst snd]. unfold replace.
  rewrite (unmarked_copied r rp (Hrules _ (or_introl eq_refl)) _ None s Hs).
  apply IH; [| exact Hs].
  intros rule Hin. apply Hrules. right. exact Hin.
Qed.

End Unmarked.

(** X6. A text without markup keeps everything but its line feeds.  When
    a text holds none of the five characters of [escapeHtml], no asterisk
    and no backtick, and none of its lines begins with a number sign, a
    hyphen, a bullet or a digit, [markdownToHtml] returns it with a [<br>]
    tag in the place of every line feed and nothing else changed. *)
Theorem text_without_markup_keeps_all_but_line_feeds (s : jsstring) :
  Classes.unmarked true s = true ->
  markdownToHtml (Some s)
  = flat_map (fun c => if cu_eqb c 10%N then js "<br>" else [c]) s.
Proof.
  intro Hs. unfold markdownToHtml.
  destruct s as [| x s]; [reflexivity |].
  cbn [truthy].
  rewrite escapeHtml_chars, (unescaped _ (unmarked_unescaped _ _ Hs)).
  change markdown_rules
    with (removelast markdown_rules ++ [(Atom (Lit 10%N), Template [Text (js "<br>")])]).
  rewrite apply_rules_snoc.
  rewrite (unmarked_rules (removelast markdown_rules) (fun rule H => H) _ Hs).
  unfold replace. apply break_lines_from. lia.
Qed.

(** X6 on two lines. *)
Lemma text_without_markup_sample :
  Classes.unmarked true (js "Costs fall by 20% - or more." ++ 10%N :: js "Latency: 3 ms.")
  = true /\
  markdownToHtml (Some (js "Costs fall by 20% - or more." ++ 10%N :: js "Latency: 3 ms."))
  = js "Costs fall by 20% - or more.<br>Latency: 3 ms.".
Proof.
  split; [reflexivity |].
  exact (text_without_markup_keeps_all_but_line_feeds
           (js "Costs fall by 20% - or more." ++ 10%N :: js "Latency: 3 ms.") eq_refl).
Defined.

Section Headings.
Import Classes.

(** A greedy iteration stops where the atom does not match. *)
Lemma greedy_stops (a : atom) (k : cont) (prev : option cu) (s : jsstring)
      (pos : nat) (cap : capture) (res : nat * capture) :
  match s with [] => True | c :: _ => atom_ok true a c = false end ->
  k prev s pos cap = Some res ->
  star_greedy true a prev s pos cap k = Some res.
Proof.
  intros Hs Hk. destruct s as [| c s]; [exact Hk |].
  cbn [star_greedy]. rewrite Hs. exact Hk.
Qed.

Lemma line_end_stops (tail : jsstring) :
  at_line_end tail = true ->
  match tail with [] => True | c :: _ => atom_ok true Dot c = false end.
Proof.
  destruct tail as [| c tail]; [trivial |].
  cbn [at_line_end atom_ok]. intros ->. reflexivity.
Qed.

(** The rest of a line, up to its end, is the group of [(.*$)]. *)
Lemma line_rest_found (t tail : jsstring) (prev : option cu) (pos : nat) (cap : capture) :
  Forall (fun c => inline c = true) t ->
  at_line_end tail = true ->
  exec true line_rest prev (t ++ tail) pos cap (fun _ _ pos' cap' => Some (pos', cap'))
  = Some (pos + List.length t, Some (pos, pos + List.length t - pos)).
Proof.
  intros Ht Htail. unfold line_rest. cbn [exec].
  apply greedy_takes; [exact (inline_dot t Ht) |].
  apply greedy_stops; [exact (line_end_stops tail Htail) |].
  rewrite Htail. reflexivity.
Qed.

Lemma line_found (pre t tail : jsstring) (prev : option cu) :
  Forall (fun c => inline c = true) t ->
  at_line_start prev = true ->
  at_line_end tail = true ->
  match_here true (line_starting pre) prev (pre ++ t ++ tail)
  = Some (List.length pre + List.length t,
          Some (List.length pre, List.length pre + List.length t - List.length pre)).
Proof.
  intros Ht Hprev Htail. unfold match_here, line_starting.
  cbn [exec]. rewrite Hprev, lits_match. cbn [Nat.add].
  apply line_rest_found; assumption.
Qed.

Lemma heading_found (pre t : jsstring) :
  Forall (fun c => inline c = true) t ->
  match_here true (line_starting pre) None (pre ++ t)
  = Some (List.length pre + List.length t,
          Some (List.length pre, List.length pre + List.length t - List.length pre)).
Proof.
  intro Ht. rewrite <- (app_nil_r t) at 1.
  apply line_found; [exact Ht | reflexivity | reflexivity].
Qed.

Lemma heading_rendered (pre : jsstring) (open close : string) (t : jsstring)
      (before after : list (re * replacement)) :
  markdown_rules = before ++ (line_starting pre, wrap open close) :: after ->
  Forall (fun c => mem c [38; 60; 62; 34; 39]%N = false) pre ->
  pre <> [] ->
  at_line_start (last_code (fun x : cu => x) None pre) = false ->
  at_line_start (last_code (fun x : cu => x) None (js open)) = false ->
  (forall r rp, In (r, rp) before ->
                In (r, rp) markdown_rules /\ quiet r None pre t = true) ->
  (forall r rp, In (r, rp) after ->
                In (r, rp) markdown_rules /\
                quiet r None (js open) (t ++ js close) = true /\
                forall p, at_line_start p = false -> quiet r p (js close) [] = true) ->
  Forall (fun c => inline c = true) t ->
  markdownToHtml (Some (pre ++ t)) = js open ++ t ++ js close.
Proof.
  intros Hrules Hpre Hne Hlast Hopen Hbefore Hafter Ht.
  unfold markdownToHtml.
  replace (truthy (pre ++ t)) with true
    by (destruct pre; [contradiction | reflexivity]).
  rewrite escapeHtml_chars, unescaped
    by (apply Forall_app; split; [exact Hpre | exact (inline_unescaped t Ht)]).
  rewrite Hrules, apply_rules_app.
  rewrite (quiet_rules_open before pre t Hbefore Hlast Ht).
  unfold apply_rules at 1. cbn [fold_left fst snd].
  fold (apply_rules (fun c : cu => c) (fun c : cu => c) after).
  rewrite <- (app_nil_r t) at 1.
  rewrite (whole_match_is_wrapped (line_starting pre) open close pre t []
             (List.length pre + List.length t) (List.length pre)
             (List.length pre + List.length t - List.length pre)).
  - apply quiet_rules; assumption.
  - rewrite Hrules. apply in_or_app. right. left. reflexivity.
  - rewrite app_nil_r. apply heading_found. exact Ht.
  - rewrite !length_app. simpl. lia.
  - reflexivity.
  - lia.
  - destruct pre; [contradiction | discriminate].
Qed.

End Headings.

(** X7. Headings.  A line that is a number sign, a space and a text
    without markup of its own (no line terminator, none of the five
    characters of [escapeHtml], no asterisk and no backtick) is rendered
    as that text in an [h3] element; with two number signs in an [h4],
    with three in an [h5].  The text may hold number signs, digits and
    hyphens. *)
Theorem headings_are_rendered (t : jsstring) :
  Forall (fun c => Classes.inline c = true) t ->
  markdownToHtml (Some (js "# " ++ t)) = js "<h3>" ++ t ++ js "</h3>" /\
  markdownToHtml (Some (js "## " ++ t)) = js "<h4>" ++ t ++ js "</h4>" /\
  markdownToHtml (Some (js "### " ++ t)) = js "<h5>" ++ t ++ js "</h5>".
Proof.
  intro Ht. repeat split.
  - apply (heading_rendered (js "# ") "<h3>" "</h3>" t
             (firstn 2 markdown_rules) (skipn 3 markdown_rules));
      [reflexivity | repeat constructor | discriminate | reflexivity | reflexivity
      | quiet_list_open | quiet_list | exact Ht].
  - apply (heading_rendered (js "## ") "<h4>" "</h4>" t
             (firstn 1 markdown_rules) (skipn 2 markdown_rules));
      [reflexivity | repeat constructor | discriminate | reflexivity | reflexivity
      | quiet_list_open | quiet_list | exact Ht].
  - apply (heading_rendered (js "### ") "<h5>" "</h5>" t
             [] (skipn 1 markdown_rules));
      [reflexivity | repeat constructor | discriminate | reflexivity | reflexivity
      | quiet_list_open | quiet_list | exact Ht].
Qed.

(** X7 on a heading. *)
Lemma headings_sample :
  Forall (fun c => Classes.inline c = true) (js "Phase 2 - the #1 risk") /\
  markdownToHtml (Some (js "## Phase 2 - the #1 risk"))
  = js "<h4>Phase 2 - the #1 risk</h4>".
Proof.
  assert (H : Forall (fun c => Classes.inline c = true) (js "Phase 2 - the #1 risk"))
    by (repeat constructor).
  split; [exact H |].
  exact (proj1 (proj2 (headings_are_rendered (js "Phase 2 - the #1 risk") H))).
Defined.

Section Emphasis.
Import Classes.

(** The pattern of two markers around a lazy group finds the markers
    around a text without markers. *)
Lemma lazy_group_found (mark t : jsstring) :
  mark <> [] ->
  (forall c p s n cap, inline c = true ->
                       exec true (lits mark) p (c :: s) n cap
                            (fun _ _ pos cap' => Some (pos, cap')) = None) ->
  Forall (fun c => inline c = true) t ->
  match_here true (Cat (lits mark) (Cat (Group (Star false Dot)) (lits mark))) None
             (mark ++ t ++ mark)
  = Some (List.length mark + List.length t + List.length mark,
          Some (List.length mark,
                List.length mark + List.length t - List.length mark)).
Proof.
  intros Hne Hmark Ht. unfold match_here.
  cbn [exec]. rewrite lits_match. cbn [exec Nat.add].
  rewrite lazy_goes_on.
  - destruct mark as [| m mark]; [contradiction |].
    cbn [star_lazy]. rewrite <- (app_nil_r (m :: mark)) at 3.
    rewrite lits_match. reflexivity.
  - eapply Forall_impl; [| exact Ht].
    intros c Hc. split.
    + cbn [atom_ok]. rewrite (proj2 (proj2 (inline_parts c Hc))). reflexivity.
    + intros p s n. apply Hmark. exact Hc.
Qed.

(** The same with a group that takes whatever is no backtick. *)
Lemma greedy_group_found (mark : jsstring) (c : cu) (t : jsstring) :
  mark = [96%N] \/ mark = [96; 96; 96]%N ->
  Forall (fun c => inline c = true) (c :: t) ->
  match_here true (Cat (lits mark) (Cat (Group (Plus (NoneOf (js "`")))) (lits mark))) None
             (mark ++ (c :: t) ++ mark)
  = Some (List.length mark + List.length (c :: t) + List.length mark,
          Some (List.length mark,
                List.length mark + List.length (c :: t) - List.length mark)).
Proof.
  intros Hmark Ht. inversion Ht as [| ? ? Hc Ht']; subst.
  assert (Hok : forall x, inline x = true -> atom_ok true (NoneOf (js "`")) x = true).
  { intros x Hx. cbn [atom_ok js map list_ascii_of_string existsb].
    change (N_of_ascii "`") with 96%N.
    rewrite (inline_char x 96%N Hx) by (simpl; tauto). reflexivity. }
  unfold match_here. cbn [exec]. rewrite lits_match. cbn [exec Plus app Nat.add].
  rewrite (Hok c Hc).
  apply greedy_takes; [eapply Forall_impl; [| exact Ht']; exact Hok |].
  destruct Hmark as [-> | ->]; cbn [star_greedy]; cbn [atom_ok js map list_ascii_of_string existsb];
    change (N_of_ascii "`") with 96%N;
    change (char_eq true 96%N 96%N) with true; cbn [orb negb].
  - rewrite <- (app_nil_r [96%N]) at 2. rewrite lits_match.
    cbn [List.length].
    match goal with
    | |- Some (?n, Some (?o, ?l)) = Some (?n', Some (?o', ?l')) =>
        replace n with n' by lia; replace l with l' by lia; reflexivity
    end.
  - rewrite <- (app_nil_r [96; 96; 96]%N) at 2. rewrite lits_match.
    cbn [List.length].
    match goal with
    | |- Some (?n, Some (?o, ?l)) = Some (?n', Some (?o', ?l')) =>
        replace n with n' by lia; replace l with l' by lia; reflexivity
    end.
Qed.

Lemma marked_rendered (r : re) (mark : jsstring) (open close : string) (t : jsstring)
      (before after : list (re * replacement)) :
  markdown_rules = before ++ (r, wrap open close) :: after ->
  Forall (fun c => mem c [38; 60; 62; 34; 39]%N = false) mark ->
  mark <> [] ->
  at_line_start (last_code (fun x : cu => x) None mark) = false ->
  at_line_start (last_code (fun x : cu => x) None (js open)) = false ->
  match_here true r None (mark ++ t ++ mark)
  = Some (List.length mark + List.length t + List.length mark,
          Some (List.length mark,
                List.length mark + List.length t - List.length mark)) ->
  (forall r rp, In (r, rp) before ->
                In (r, rp) markdown_rules /\
                quiet r None mark (t ++ mark) = true /\
                forall p, at_line_start p = false -> quiet r p mark [] = true) ->
  (forall r rp, In (r, rp) after ->
                In (r, rp) markdown_rules /\
                quiet r None (js open) (t ++ js close) = true /\
                forall p, at_line_start p = false -> quiet r p (js close) [] = true) ->
  Forall (fun c => inline c = true) t ->
  markdownToHtml (Some (mark ++ t ++ mark)) = js open ++ t ++ js close.
Proof.
  intros Hrules Hmark Hne Hlast Hopen Hfound Hbefore Hafter Ht.
  unfold markdownToHtml.
  replace (truthy (mark ++ t ++ mark)) with true
    by (destruct mark; [contradiction | reflexivity]).
  rewrite escapeHtml_chars, unescaped
    by (repeat (apply Forall_app; split);
        [exact Hmark | exact (inline_unescaped t Ht) | exact Hmark]).
  rewrite Hrules, apply_rules_app.
  rewrite (quiet_rules before mark t mark Hbefore Hlast Ht).
  unfold apply_rules at 1. cbn [fold_left fst snd].
  fold (apply_rules (fun c : cu => c) (fun c : cu => c) after).
  rewrite (whole_match_is_wrapped r open close mark t mark
             (List.length mark + List.length t + List.length mark) (List.length mark)
             (List.length mark + List.length t - List.length mark)).
  - apply quiet_rules; assumption.
  - rewrite Hrules. apply in_or_app. right. left. reflexivity.
  - exact Hfound.
  - rewrite !length_app. lia.
  - reflexivity.
  - lia.
  - destruct mark; [contradiction | discriminate].
Qed.

Lemma asterisk_fails (mark : jsstring) (c : cu) (p : option cu) (s : jsstring)
      (n : nat) (cap : capture) :
  mark = [42%N] \/ mark = [42; 42]%N ->
  inline c = true ->
  exec true (lits mark) p (c :: s) n cap (fun _ _ pos cap' => Some (pos, cap')) = None.
Proof.
  intros Hmark Hc.
  destruct Hmark as [-> | ->]; cbn [lits exec atom_ok];
    rewrite (inline_char c 42%N Hc) by (simpl; tauto); reflexivity.
Qed.

End Emphasis.

(** X8. Emphasis.  A text without markup of its own between two pairs
    of asterisks is rendered as that text in a [strong] element, and
    between two asterisks in an [em] element; an empty text gives an
    empty element. *)
Theorem emphasis_is_rendered (t : jsstring) :
  Forall (fun c => Classes.inline c = true) t ->
  markdownToHtml (Some (js "**" ++ t ++ js "**")) = js "<strong>" ++ t ++ js "</strong>" /\
  markdownToHtml (Some (js "*" ++ t ++ js "*")) = js "<em>" ++ t ++ js "</em>".
Proof.
  intro Ht. split.
  - apply (marked_rendered (Cat (lits (js "**")) (Cat (Group (Star false Dot)) (lits (js "**"))))
             (js "**") "<strong>" "</strong>" t
             (firstn 3 markdown_rules) (skipn 4 markdown_rules));
      [reflexivity | repeat constructor | discriminate | reflexivity | reflexivity
      | | quiet_list | quiet_list | exact Ht].
    apply lazy_group_found; [discriminate | | exact Ht].
    intros c p s n cap. apply asterisk_fails. right. reflexivity.
  - apply (marked_rendered (Cat (lits (js "*")) (Cat (Group (Star false Dot)) (lits (js "*"))))
             (js "*") "<em>" "</em>" t
             (firstn 4 markdown_rules) (skipn 5 markdown_rules));
      [reflexivity | repeat constructor | discriminate | reflexivity | reflexivity
      | | | quiet_list | exact Ht].
    + apply lazy_group_found; [discriminate | | exact Ht].
      intros c p s n cap. apply asterisk_fails. left. reflexivity.
    + intros r rp Hin. simpl in Hin.
      repeat (destruct Hin as [Hin | Hin];
              [inversion Hin; subst; clear Hin;
               split; [in_rules | split; [| quiet_closing]] |]);
        try contradiction; try reflexivity.
      destruct Ht as [| c t Hc Ht]; [reflexivity |].
      cbn [Classes.quiet app js map list_ascii_of_string].
      unfold match_here. cbn [exec atom_ok].
      change (N_of_ascii "*") with 42%N.
      unfold char_eq at 1. cbn [cu_eqb N.eqb Pos.eqb orb].
      rewrite (inline_char c 42%N Hc) by (simpl; tauto). reflexivity.
Qed.

(** X8 on two phrases. *)
Lemma emphasis_sample :
  Forall (fun c => Classes.inline c = true) (js "no later than 2030") /\
  markdownToHtml (Some (js "**no later than 2030**"))
  = js "<strong>no later than 2030</strong>" /\
  markdownToHtml (Some (js "*no later than 2030*")) = js "<em>no later than 2030</em>".
Proof.
  assert (H : Forall (fun c => Classes.inline c = true) (js "no later than 2030"))
    by (repeat constructor).
  split; [exact H |].
  exact (emphasis_is_rendered (js "no later than 2030") H).
Defined.

(** X9. Code.  A text without markup of its own that is not empty is
    rendered, between two backticks, as that text in a [code] element,
    and between two triples of backticks in a [code] element inside a
    [pre] element. *)
Theorem code_is_rendered (t : jsstring) :
  Forall (fun c => Classes.inline c = true) t ->
  t <> [] ->
  markdownToHtml (Some (js "`" ++ t ++ js "`")) = js "<code>" ++ t ++ js "</code>" /\
  markdownToHtml (Some (js "```" ++ t ++ js "```"))
  = js "<pre><code>" ++ t ++ js "</code></pre>".
Proof.
  intros Ht Hne.
  destruct t as [| c t]; [contradiction |].
  split.
  - apply (marked_rendered
             (Cat (lits (js "`")) (Cat (Group (Plus (NoneOf (js "`")))) (lits (js "`"))))
             (js "`") "<code>" "</code>" (c :: t)
             (firstn 6 markdown_rules) (skipn 7 markdown_rules));
      [reflexivity | repeat constructor | discriminate | reflexivity | reflexivity
      | | | quiet_list | exact Ht].
    + apply greedy_group_found; [left; reflexivity | exact Ht].
    + intros r rp Hin. simpl in Hin.
      repeat (destruct Hin as [Hin | Hin];
              [inversion Hin; subst; clear Hin;
               split; [in_rules | split; [| quiet_closing]] |]);
        try contradiction; try reflexivity.
      inversion Ht as [| ? ? Hc _]; subst.
      cbn [Classes.quiet app js map list_ascii_of_string].
      unfold match_here. cbn [exec atom_ok].
      change (N_of_ascii "`") with 96%N.
      unfold char_eq at 1. cbn [cu_eqb N.eqb Pos.eqb orb].
      rewrite (inline_char c 96%N Hc) by (simpl; tauto). reflexivity.
  - apply (marked_rendered
             (Cat (lits (js "```")) (Cat (Group (Plus (NoneOf (js "`")))) (lits (js "```"))))
             (js "```") "<pre><code>" "</code></pre>" (c :: t)
             (firstn 5 markdown_rules) (skipn 6 markdown_rules));
      [reflexivity | repeat constructor | discriminate | reflexivity | reflexivity
      | | quiet_list | quiet_list | exact Ht].
    apply greedy_group_found; [right; reflexivity | exact Ht].
Qed.

(** X9 on an identifier. *)
Lemma code_sample :
  Forall (fun c => Classes.inline c = true) (js "max_tokens = 1024") /\
  js "max_tokens = 1024" <> [] /\
  markdownToHtml (Some (js "`max_tokens = 1024`")) = js "<code>max_tokens = 1024</code>".
Proof.
  assert (H : Forall (fun c => Classes.inline c = true) (js "max_tokens = 1024"))
    by (repeat constructor).
  split; [exact H |]. split; [discriminate |].
  exact (proj1 (code_is_rendered (js "max_tokens = 1024") H ltac:(discriminate))).
Defined.

(** ** Lists *)

Section Lines.
Import Classes.

Lemma join_lines_cons (l l' : jsstring) (ls : list jsstring) :
  join_lines (l :: l' :: ls) = l ++ 10%N :: join_lines (l' :: ls).
Proof. reflexivity. Qed.

Lemma join_cons (sep l l' : jsstring) (ls : list jsstring) :
  join sep (l :: l' :: ls) = l ++ sep ++ join sep (l' :: ls).
Proof. reflexivity. Qed.

Lemma apply_rules_cons (rule : re * replacement) (rules : list (re * replacement))
      (html : jsstring) :
  apply_rules (fun c : cu => c) (fun c : cu => c) (rule :: rules) html
  = apply_rules (fun c : cu => c) (fun c : cu => c) rules
                (replace (fun c : cu => c) (fun c : cu => c) true (fst rule) (snd rule)
                         html).
Proof. reflexivity. Qed.

(** No pattern before the last matches from a line feed. *)
Lemma feed_fails (r : re) (rp : replacement) :
  In (r, rp) (removelast markdown_rules) ->
  forall (prev : option cu) (s : jsstring), match_here true r prev (10%N :: s) = None.
Proof.
  intros Hin prev s. apply (opens_fails r rp Hin).
  destruct (at_line_start prev); reflexivity.
Qed.

(** A pattern that finds nothing in any of the lines copies them. *)
Lemma lines_copied (r : re) (rp : replacement) :
  In (r, rp) (removelast markdown_rules) ->
  forall (lines : list jsstring) (f : nat) (prev : option cu),
    Forall (fun l => forall prev tail,
                at_line_start prev = true -> quiet r prev l tail = true) lines ->
    at_line_start prev = true ->
    List.length (join_lines lines) <= f ->
    replace_from (fun c : cu => c) (fun c : cu => c) f true r rp prev (join_lines lines)
    = join_lines lines.
Proof.
  intros Hin lines.
  induction lines as [| l ls IH]; intros f prev Hq Hprev Hf.
  - apply rest_nil. apply (nothing_in_the_empty_text r rp (earlier_rule _ Hin)).
  - inversion Hq as [| ? ? Hl Hls]; subst.
    destruct ls as [| l' ls].
    + cbn [join_lines] in *. rewrite <- (app_nil_r l) at 1.
      rewrite (skip_quiet r rp l f prev [] (Hl prev [] Hprev) Hf).
      rewrite rest_nil
        by (apply (nothing_in_the_empty_text r rp (earlier_rule _ Hin))).
      apply app_nil_r.
    + rewrite join_lines_cons in *. rewrite length_app in Hf. cbn [List.length] in Hf.
      rewrite (skip_quiet r rp l f prev _ (Hl prev _ Hprev)) by lia.
      destruct (f - List.length l) as [| g] eqn:Hg; [lia |].
      cbn [replace_from]. rewrite map_id, (feed_fails r rp Hin).
      do 2 f_equal. apply IH; [exact Hls | reflexivity | lia].
Qed.

Lemma rules_lines_copied (rules : list (re * replacement)) (lines : list jsstring) :
  (forall r rp, In (r, rp) rules ->
                In (r, rp) (removelast markdown_rules) /\
                Forall (fun l => forall prev tail,
                            at_line_start prev = true -> quiet r prev l tail = true)
                       lines) ->
  apply_rules (fun c : cu => c) (fun c : cu => c) rules (join_lines lines)
  = join_lines lines.
Proof.
  induction rules as [| [r rp] rules IH]; intro Hrules; [reflexivity |].
  unfold apply_rules. cbn [fold_left fst snd]. unfold replace.
  destruct (Hrules r rp (or_introl eq_refl)) as (Hin & Hq).
  rewrite (lines_copied r rp Hin lines _ None Hq eq_refl) by lia.
  apply IH. intros r' rp' Hin'. apply Hrules. right. exact Hin'.
Qed.

(** A line of which nothing matches from the first code unit, and of
    which the rest is a text without markup. *)
Lemma marked_line_quiet (r : re) (rp : replacement) (c : cu) (rest : jsstring) :
  In (r, rp) markdown_rules ->
  (forall prev s, match_here true r prev (c :: s) = None) ->
  inline c = true ->
  Forall (fun x => inline x = true) rest ->
  forall prev tail, quiet r prev (c :: rest) tail = true.
Proof.
  intros Hin Hc Hi Hrest prev tail.
  cbn [quiet app]. rewrite Hc.
  apply (quiet_inline r rp Hin); [exact Hrest |].
  cbn [at_line_start]. exact (proj2 (proj2 (inline_parts c Hi))).
Qed.

(** A match of a line and its replacement by the group between two
    tags. *)
Lemma fire_wrapped (r : re) (open close : string) (mark t tail : jsstring)
      (f : nat) (prev : option cu) :
  match_here true r prev (mark ++ t ++ tail)
  = Some (List.length mark + List.length t,
          Some (List.length mark,
                List.length mark + List.length t - List.length mark)) ->
  mark <> [] ->
  replace_from (fun c : cu => c) (fun c : cu => c) (S f) true r (wrap open close) prev
               (mark ++ t ++ tail)
  = js open ++ t ++ js close
    ++ replace_from (fun c : cu => c) (fun c : cu => c) f true r (wrap open close)
                    (last_code (fun x : cu => x) prev (mark ++ t)) tail.
Proof.
  intros Hm Hne.
  destruct (List.length mark + List.length t) as [| n] eqn:Hn;
    [destruct mark; [contradiction | discriminate] |].
  rewrite (fire r (wrap open close) f n _ prev _ Hm).
  rewrite <- Hn, <- length_app, app_assoc, firstn_opening, skipn_opening.
  unfold wrap. cbn [expand flat_map expand_piece].
  rewrite !map_id, skipn_opening, app_nil_r.
  replace (List.length (mark ++ t) - List.length mark) with (List.length t)
    by (rewrite length_app; lia).
  rewrite firstn_all, <- !app_assoc. reflexivity.
Qed.

(** A pattern that rewrites every line. *)
Lemma lines_rewritten (r : re) (open close : string) :
  In (r, wrap open close) markdown_rules ->
  (forall prev s, at_line_start prev = false -> match_here true r prev (10%N :: s) = None) ->
  forall (items : list (jsstring * jsstring)) (f : nat) (prev : option cu),
    Forall (fun it =>
              fst it <> [] /\
              (forall prev, at_line_start (last_code (fun x : cu => x) prev
                                                     (fst it ++ snd it)) = false) /\
              forall prev tail,
                at_line_start prev = true -> at_line_end tail = true ->
                match_here true r prev (fst it ++ snd it ++ tail)
                = Some (List.length (fst it) + List.length (snd it),
                        Some (List.length (fst it),
                              List.length (fst it) + List.length (snd it)
                              - List.length (fst it)))) items ->
    at_line_start prev = true ->
    List.length (join_lines (map (fun it => fst it ++ snd it) items)) < f ->
    replace_from (fun c : cu => c) (fun c : cu => c) f true r (wrap open close) prev
                 (join_lines (map (fun it => fst it ++ snd it) items))
    = join_lines (map (fun it => js open ++ snd it ++ js close) items).
Proof.
  intros Hin Hfeed items.
  induction items as [| [mark t] items IH]; intros f prev Hitems Hprev Hf.
  - apply rest_nil. apply (nothing_in_the_empty_text r _ Hin).
  - inversion Hitems as [| ? ? (Hne & Hlast & Hfound) Hrest]; subst.
    cbn [fst snd] in *.
    destruct f as [| f]; [lia |].
    destruct items as [| it items].
    + cbn [map join_lines fst snd] in *.
      rewrite <- (app_nil_r t) at 1.
      rewrite (fire_wrapped r open close mark t [] f prev (Hfound prev [] Hprev eq_refl) Hne).
      rewrite rest_nil by (apply (nothing_in_the_empty_text r _ Hin)).
      rewrite app_nil_r. reflexivity.
    + cbn [map] in *. rewrite !join_lines_cons in *.
      cbn [fst snd] in *. rewrite <- app_assoc.
      rewrite (fire_wrapped r open close mark t _ f prev
                 (Hfound prev (10%N :: _) Hprev eq_refl) Hne).
      rewrite !length_app in Hf. cbn [List.length] in Hf.
      destruct f as [| g]; [lia |].
      cbn [replace_from]. rewrite map_id, (Hfeed _ _ (Hlast prev)).
      rewrite <- !app_assoc. do 4 f_equal.
      apply IH; [exact Hrest | reflexivity |].
      assert (Hmark : 0 < List.length mark)
        by (destruct mark; [contradiction | simpl; lia]).
      cbn [map]. unfold jsstring, cu in *. lia.
Qed.

Lemma no_feed_kept (l : jsstring) :
  Forall (fun c => cu_eqb c 10%N = false) l ->
  flat_map (fun c => if cu_eqb c 10%N then js "<br>" else [c]) l = l.
Proof.
  induction 1 as [| c l Hc _ IH]; [reflexivity |].
  cbn [flat_map]. rewrite Hc, IH. reflexivity.
Qed.

(** The text of a line break for every line feed, on lines without line
    feed. *)
Lemma feeds_become_breaks (lines : list jsstring) :
  Forall (fun l => Forall (fun c => cu_eqb c 10%N = false) l) lines ->
  flat_map (fun c => if cu_eqb c 10%N then js "<br>" else [c]) (join_lines lines)
  = join (js "<br>") lines.
Proof.
  pose proof no_feed_kept as Hline.
  induction 1 as [| l ls Hl Hls IH]; [reflexivity |].
  destruct ls as [| l' ls].
  - cbn [join_lines join]. exact (Hline l Hl).
  - rewrite join_lines_cons, join_cons, flat_map_app.
    change (10%N :: join_lines (l' :: ls)) with ([10%N] ++ join_lines (l' :: ls)).
    rewrite flat_map_app, (Hline l Hl).
    f_equal. f_equal. exact IH.
Qed.

Lemma join_lines_all (P : cu -> Prop) (lines : list jsstring) :
  P 10%N -> Forall (fun l => Forall P l) lines -> Forall P (join_lines lines).
Proof.
  intros Hfeed. induction 1 as [| l ls Hl Hls IH]; [constructor |].
  destruct ls as [| l' ls]; [exact Hl |].
  rewrite join_lines_cons. apply Forall_app. split; [exact Hl |].
  constructor; assumption.
Qed.

(** A pattern anchored at the start of a line matches nowhere inside a
    line. *)
Lemma quiet_inside (r : re) (rest : jsstring) :
  forall (prev : option cu) (tail : jsstring),
    at_line_start prev = false ->
    Forall (fun c => line_terminator c = false) rest ->
    quiet (Cat Bol r) prev rest tail = true.
Proof.
  induction rest as [| c rest IH]; intros prev tail Hprev Hrest; [reflexivity |].
  inversion Hrest as [| ? ? Hc Hrest']; subst.
  cbn [quiet]. unfold match_here. cbn [exec]. rewrite Hprev.
  apply IH; [exact Hc | exact Hrest'].
Qed.

(** The patterns of the bullets and of the rule find nothing in a line
    that begins with a tag and holds no line terminator. *)
Lemma tag_line_quiet (r : re) (rp : replacement) :
  In (r, rp) (skipn 10 (removelast markdown_rules)) ->
  forall rest : jsstring,
    Forall (fun c => line_terminator c = false) rest ->
    forall prev tail, quiet r prev (60%N :: rest) tail = true.
Proof.
  intros Hin rest Hrest prev tail. simpl in Hin.
  repeat (destruct Hin as [Hin | Hin];
          [inversion Hin; subst; clear Hin;
           unfold line_starting;
           change (quiet (Cat Bol ?r0) prev (60%N :: rest) tail)
             with (match match_here true (Cat Bol r0) prev (60%N :: rest ++ tail) with
                   | None => quiet (Cat Bol r0) (Some 60%N) rest tail
                   | Some _ => false
                   end);
           rewrite (quiet_inside _ rest (Some 60%N) tail eq_refl Hrest);
           unfold match_here; cbn; destruct (at_line_start prev); reflexivity |]).
  contradiction.
Qed.

Lemma inline_line (t : jsstring) :
  Forall (fun c => inline c = true) t ->
  Forall (fun c => line_terminator c = false) t.
Proof.
  intro H. eapply Forall_impl; [| exact H].
  intros c Hc. exact (proj2 (proj2 (inline_parts c Hc))).
Qed.

Lemma inline_no_feed (t : jsstring) :
  Forall (fun c => inline c = true) t ->
  Forall (fun c => cu_eqb c 10%N = false) t.
Proof.
  intro H. eapply Forall_impl; [| exact H].
  intros c Hc.
  apply (not_mem c [10; 13; 8232; 8233]%N);
    [exact (proj2 (proj2 (inline_parts c Hc))) | simpl; tauto].
Qed.

(** What the rules make of lines that begin with the marker of a rule of
    the bullets: every line becomes an item, and the items stay apart. *)
Lemma bullets_rendered (mark : jsstring) (c0 : cu) (mrest : jsstring)
      (before after : list (re * replacement)) (ts : list jsstring) :
  mark = c0 :: mrest ->
  removelast markdown_rules
  = before ++ (line_starting mark, wrap "<li>" "</li>") :: after ->
  (forall rule, In rule after -> In rule (skipn 10 (removelast markdown_rules))) ->
  (forall r rp, In (r, rp) before ->
                In (r, rp) (removelast markdown_rules) /\
                forall prev s, match_here true r prev (c0 :: s) = None) ->
  Forall (fun c => inline c = true) mark ->
  ts <> [] ->
  Forall (fun t => Forall (fun c => inline c = true) t) ts ->
  markdownToHtml (Some (join_lines (map (fun t => mark ++ t) ts)))
  = join (js "<br>") (map (fun t => js "<li>" ++ t ++ js "</li>") ts).
Proof.
  intros Hmark Hrules Hafter Hbefore Hm Hne Hts.
  unfold markdownToHtml.
  replace (truthy (join_lines (map (fun t => mark ++ t) ts))) with true
    by (subst mark; destruct ts as [| t [| t' ts]]; [contradiction | |]; reflexivity).
  assert (Hlines : Forall (fun l => Forall (fun c => inline c = true) l)
                          (map (fun t => mark ++ t) ts)).
  { apply Forall_map. eapply Forall_impl; [| exact Hts].
    intros t Ht. apply Forall_app. split; assumption. }
  rewrite escapeHtml_chars, unescaped.
  2:{ apply join_lines_all; [reflexivity |].
      eapply Forall_impl; [| exact Hlines]. intros l. apply inline_unescaped. }
  change markdown_rules
    with (removelast markdown_rules ++ [(Atom (Lit 10%N), Template [Text (js "<br>")])]).
  rewrite apply_rules_snoc, Hrules, apply_rules_app.
  rewrite rules_lines_copied.
  2:{ intros r rp Hin. destruct (Hbefore r rp Hin) as (Hin' & Hc0). split.
      - exact Hin'.
      - apply Forall_map. eapply Forall_impl; [| exact Hts].
        intros t Ht prev tail _. subst mark. cbn [app].
        inversion Hm as [| ? ? Hc0i Hmrest]; subst.
        apply (marked_line_quiet r rp c0 (mrest ++ t));
          [apply earlier_rule; exact Hin' | exact Hc0 | exact Hc0i |].
        apply Forall_app. split; assumption. }
  rewrite apply_rules_cons. cbn [fst snd].
  unfold replace at 2.
  replace (map (fun t => mark ++ t) ts)
    with (map (fun it => fst it ++ snd it) (map (fun t => (mark, t)) ts))
    by (rewrite map_map; reflexivity).
  rewrite (lines_rewritten (line_starting mark) "<li>" "</li>").
  - rewrite map_map. cbn [snd].
    rewrite rules_lines_copied.
    + unfold replace. rewrite break_lines_from by lia.
      apply feeds_become_breaks.
      apply Forall_map. eapply Forall_impl; [| exact Hts].
      intros t Ht.
      apply Forall_app; split; [repeat constructor |].
      apply Forall_app; split; [exact (inline_no_feed t Ht) | repeat constructor].
    + intros r rp Hin. split.
      * rewrite Hrules. apply in_or_app. right. right. exact Hin.
      * apply Forall_map. eapply Forall_impl; [| exact Hts].
        intros t Ht prev tail _.
        apply (tag_line_quiet r rp (Hafter _ Hin)).
        change (Forall (fun c => line_terminator c = false)
                       (js "li>" ++ t ++ js "</li>")).
        apply Forall_app; split; [repeat constructor |].
        apply Forall_app; split; [exact (inline_line t Ht) | repeat constructor].
  - apply earlier_rule. rewrite Hrules. apply in_or_app. right. left. reflexivity.
  - intros prev s _. apply (feed_fails (line_starting mark) (wrap "<li>" "</li>")).
    rewrite Hrules. apply in_or_app. right. left. reflexivity.
  - apply Forall_map. eapply Forall_impl; [| exact Hts].
    intros t Ht. cbn [fst snd]. repeat split.
    + subst mark. discriminate.
    + intro prev. rewrite last_code_app.
      apply last_code_inline; [exact Ht |].
      subst mark. rewrite last_code_cons.
      inversion Hm as [| ? ? Hc0i Hmrest]; subst.
      apply last_code_inline; [exact Hmrest |].
      cbn [at_line_start]. exact (proj2 (proj2 (inline_parts c0 Hc0i))).
    + intros prev tail Hprev Htail. apply line_found; assumption.
  - reflexivity.
  - lia.
Qed.

Lemma digit_range (d : cu) : digit d = true -> (48 <= d <= 57)%N.
Proof.
  unfold digit. intro H. apply andb_true_iff in H. destruct H as (H1 & H2).
  apply N.leb_le in H1, H2. split; assumption.
Qed.

Lemma digit_is_not (d p : cu) :
  digit d = true -> (p < 48 \/ 57 < p)%N -> cu_eqb d p = false.
Proof.
  intros Hd Hp. apply digit_range in Hd.
  unfold cu_eqb. apply N.eqb_neq. lia.
Qed.

Lemma digit_inline (d : cu) : digit d = true -> inline d = true.
Proof.
  intro Hd. unfold inline, line_terminator, mem. cbn [existsb].
  rewrite !(digit_is_not d _ Hd) by lia. reflexivity.
Qed.

(** The patterns before the one of the numbered lines match nothing from
    a digit. *)
Lemma early_rule_digit (r : re) (rp : replacement) (d : cu) :
  In (r, rp) (firstn 7 markdown_rules) ->
  digit d = true ->
  forall (prev : option cu) (s : jsstring), match_here true r prev (d :: s) = None.
Proof.
  intros Hin Hd prev s.
  assert (Hc : forall p, In p [35; 42; 96]%N -> char_eq true p d = false).
  { intros p Hp. simpl in Hp.
    repeat (destruct Hp as [Hp | Hp];
            [subst p; apply other_char; [reflexivity | apply digit_is_not; [exact Hd | lia]] |]).
    contradiction. }
  simpl in Hin.
  repeat (destruct Hin as [Hin | Hin];
          [inversion Hin; subst; clear Hin;
           unfold match_here;
           cbn [exec line_starting lits js map list_ascii_of_string
                N_of_ascii N_of_digits Plus atom_ok];
           try (destruct (at_line_start prev); [| reflexivity]);
           rewrite Hc by (simpl; tauto); reflexivity |]).
  contradiction.
Qed.

(** The pattern of the numbered lines finds a line of digits, a full
    stop, a space and a text, with the text for its group. *)
Lemma numbered_found (ds t tail : jsstring) (prev : option cu) :
  ds <> [] ->
  Forall (fun c => digit c = true) ds ->
  Forall (fun c => inline c = true) t ->
  at_line_start prev = true ->
  at_line_end tail = true ->
  match_here true (Cat Bol (Cat (Plus Digit) (Cat (lits (js ". ")) line_rest))) prev
             ((ds ++ js ". ") ++ t ++ tail)
  = Some (List.length (ds ++ js ". ") + List.length t,
          Some (List.length (ds ++ js ". "),
                List.length (ds ++ js ". ") + List.length t
                - List.length (ds ++ js ". "))).
Proof.
  intros Hne Hds Ht Hprev Htail.
  destruct ds as [| d ds]; [contradiction |].
  inversion Hds as [| ? ? Hd Hds']; subst.
  unfold match_here. cbn [exec Plus]. rewrite Hprev.
  rewrite <- app_assoc. cbn [app atom_ok].
  change ((48 <=? d)%N && (d <=? 57)%N) with (digit d). rewrite Hd.
  apply greedy_takes; [exact Hds' |].
  apply greedy_stops; [reflexivity |].
  rewrite lits_match, line_rest_found by assumption.
  cbn [List.length]. rewrite !length_app.
  match goal with
  | |- Some (?n, Some (?o, ?l)) = Some (?n', Some (?o', ?l')) =>
      replace n with n' by lia; replace o with o' by lia;
      replace l with l' by lia; reflexivity
  end.
Qed.

Lemma flat_map_map (A B C : Type) (f : A -> B) (g : B -> list C) (l : list A) :
  flat_map g (map f l) = flat_map (fun x => g (f x)) l.
Proof.
  induction l as [| x l IH]; [reflexivity |]. cbn [map flat_map]. rewrite IH. reflexivity.
Qed.

Lemma join_lines_flat (l : jsstring) (ls : list jsstring) :
  join_lines (l :: ls) = l ++ flat_map (fun l' => 10%N :: l') ls.
Proof.
  revert l. induction ls as [| l' ls IH]; intro l.
  - cbn [join_lines flat_map]. rewrite app_nil_r. reflexivity.
  - rewrite join_lines_cons, IH. reflexivity.
Qed.

(** The pattern of the line feed between two items joins the items. *)
Lemma items_joined_from (ts : list jsstring) :
  forall (t : jsstring) (f : nat) (prev : option cu),
    Forall (fun t => Forall (fun c => inline c = true) t) (t :: ts) ->
    at_line_start prev = false ->
    List.length (t ++ js "</li>"
                 ++ flat_map (fun t' => 10%N :: js "<li>" ++ t' ++ js "</li>") ts) < f ->
    replace_from (fun c : cu => c) (fun c : cu => c) f true
                 (Cat (lits (js "</li>")) (Cat (Atom (Lit 10%N)) (lits (js "<li>"))))
                 (Template [Text (js "</li><li>")]) prev
                 (t ++ js "</li>"
                  ++ flat_map (fun t' => 10%N :: js "<li>" ++ t' ++ js "</li>") ts)
    = t ++ js "</li>" ++ flat_map (fun t' => js "<li>" ++ t' ++ js "</li>") ts.
Proof.
  assert (Hin : In (Cat (lits (js "</li>")) (Cat (Atom (Lit 10%N)) (lits (js "<li>"))),
                    Template [Text (js "</li><li>")]) markdown_rules)
    by (unfold markdown_rules; cbn [In]; repeat (first [left; reflexivity | right])).
  induction ts as [| t' ts IH]; intros t f prev Hts Hprev Hf;
    inversion Hts as [| ? ? Ht Hts']; subst.
  - cbn [flat_map] in *. rewrite !length_app in Hf.
    rewrite (skip_quiet _ _ t f prev _ (quiet_inline _ _ Hin t prev _ Ht Hprev)) by lia.
    rewrite skip_quiet; [| reflexivity | lia].
    rewrite rest_nil by (apply (nothing_in_the_empty_text _ _ Hin)).
    reflexivity.
  - rewrite (skip_quiet _ _ t f prev _ (quiet_inline _ _ Hin t prev _ Ht Hprev))
      by (rewrite length_app in Hf; lia).
    cbn [flat_map] in *.
    replace (js "</li>" ++ (10%N :: js "<li>" ++ t' ++ js "</li>")
             ++ flat_map (fun t'0 => 10%N :: js "<li>" ++ t'0 ++ js "</li>") ts)
      with ((js "</li>" ++ 10%N :: js "<li>")
            ++ t' ++ js "</li>"
            ++ flat_map (fun t'0 => 10%N :: js "<li>" ++ t'0 ++ js "</li>") ts)
      in *
      by (cbn [app js map list_ascii_of_string]; rewrite <- !app_assoc; reflexivity).
    rewrite !length_app in Hf.
    change (List.length (js "</li>" ++ 10%N :: js "<li>")) with 10 in Hf.
    destruct (f - List.length t) as [| g] eqn:Hg; [lia |].
    erewrite fire; [| reflexivity].
    change (firstn 10) with (firstn (A:=cu) (List.length (js "</li>" ++ 10%N :: js "<li>"))).
    change (skipn 10) with (skipn (A:=cu) (List.length (js "</li>" ++ 10%N :: js "<li>"))).
    rewrite firstn_opening, skipn_opening.
    rewrite IH;
      [| exact Hts' | reflexivity
       | rewrite !length_app; cbn [List.length js map list_ascii_of_string] in *;
         unfold jsstring, cu in *; lia].
    cbn [expand flat_map expand_piece]. rewrite map_id, app_nil_r.
    cbn [app js map list_ascii_of_string]. rewrite <- !app_assoc. reflexivity.
Qed.

Lemma items_joined (t : jsstring) (ts : list jsstring) :
  Forall (fun t => Forall (fun c => inline c = true) t) (t :: ts) ->
  replace (fun c : cu => c) (fun c : cu => c) true
          (Cat (lits (js "</li>")) (Cat (Atom (Lit 10%N)) (lits (js "<li>"))))
          (Template [Text (js "</li><li>")])
          (join_lines (map (fun t' => js "<li>" ++ t' ++ js "</li>") (t :: ts)))
  = flat_map (fun t' => js "<li>" ++ t' ++ js "</li>") (t :: ts).
Proof.
  intro Hts. unfold replace. cbn [map]. rewrite join_lines_flat, flat_map_map.
  cbn [flat_map]. rewrite <- !app_assoc.
  rewrite skip_quiet; [| reflexivity | rewrite !length_app; lia].
  rewrite items_joined_from;
    [reflexivity | exact Hts | reflexivity |].
  rewrite !length_app. cbn [List.length js map list_ascii_of_string]. lia.
Qed.

Lemma items_line (ts : list jsstring) :
  Forall (fun t => Forall (fun c => inline c = true) t) ts ->
  Forall (fun c => line_terminator c = false)
         (flat_map (fun t' => js "<li>" ++ t' ++ js "</li>") ts).
Proof.
  induction 1 as [| t ts Ht _ IH]; [constructor |].
  cbn [flat_map]. apply Forall_app. split; [| exact IH].
  apply Forall_app; split; [repeat constructor |].
  apply Forall_app; split; [exact (inline_line t Ht) | repeat constructor].
Qed.

(** The items of one line end with a closing tag. *)
Lemma closing_last (ts : list jsstring) :
  forall t : jsstring,
    Forall (fun t => Forall (fun c => inline c = true) t) (t :: ts) ->
    exists u, t ++ js "</li>" ++ flat_map (fun t' => js "<li>" ++ t' ++ js "</li>") ts
              = u ++ js "</li>" /\
              Forall (fun c => line_terminator c = false) u.
Proof.
  induction ts as [| t' ts IH]; intros t Hts; inversion Hts as [| ? ? Ht Hts']; subst.
  - exists t. cbn [flat_map]. rewrite app_nil_r. split; [reflexivity |].
    exact (inline_line t Ht).
  - destruct (IH t' Hts') as (u & Hu & Hline).
    exists (t ++ js "</li>" ++ js "<li>" ++ u). split.
    + cbn [flat_map]. rewrite <- !app_assoc. rewrite <- Hu. reflexivity.
    + apply Forall_app; split; [exact (inline_line t Ht) |].
      apply Forall_app; split; [repeat constructor |].
      apply Forall_app; split; [repeat constructor | exact Hline].
Qed.

(** The pattern of the ordered list takes the items of one line whole. *)
Lemma items_wrapped (t : jsstring) (ts : list jsstring) :
  Forall (fun t => Forall (fun c => inline c = true) t) (t :: ts) ->
  replace (fun c : cu => c) (fun c : cu => c) true
          (Group (Cat (lits (js "<li>")) (Cat (Star true Dot) (lits (js "</li>")))))
          (wrap "<ol>" "</ol>")
          (flat_map (fun t' => js "<li>" ++ t' ++ js "</li>") (t :: ts))
  = js "<ol>" ++ flat_map (fun t' => js "<li>" ++ t' ++ js "</li>") (t :: ts) ++ js "</ol>".
Proof.
  intro Hts.
  destruct (closing_last ts t Hts) as (u & Hu & Hline).
  assert (HS : flat_map (fun t' => js "<li>" ++ t' ++ js "</li>") (t :: ts)
               = js "<li>" ++ u ++ js "</li>")
    by (cbn [flat_map]; rewrite <- !app_assoc; rewrite Hu; reflexivity).
  rewrite HS. clear HS Hu.
  pose proof (whole_match_is_wrapped
                (Group (Cat (lits (js "<li>")) (Cat (Star true Dot) (lits (js "</li>")))))
                "<ol>" "</ol>" [] (js "<li>" ++ u ++ js "</li>") []
                (List.length (js "<li>" ++ u ++ js "</li>")) 0
                (List.length (js "<li>" ++ u ++ js "</li>"))) as H.
  cbn [app] in H. rewrite app_nil_r in H. apply H; clear H.
  - unfold markdown_rules; cbn [In]; repeat (first [left; reflexivity | right]).
  - unfold match_here. cbn [exec]. rewrite lits_match. cbn [exec].
    apply greedy_takes.
    { eapply Forall_impl; [| exact Hline]. intros c Hc. cbn [atom_ok]. rewrite Hc.
      reflexivity. }
    cbn. rewrite !length_app. cbn [List.length].
    match goal with
    | |- Some (?n, Some (?o, ?l)) = Some (?n', Some (?o', ?l')) =>
        replace n with n' by lia; replace l with l' by lia; reflexivity
    end.
  - reflexivity.
  - reflexivity.
  - reflexivity.
  - discriminate.
Qed.

Lemma line_no_feed (l : jsstring) :
  Forall (fun c => line_terminator c = false) l ->
  Forall (fun c => cu_eqb c 10%N = false) l.
Proof.
  intro H. eapply Forall_impl; [| exact H].
  intros c Hc. apply (not_mem c [10; 13; 8232; 8233]%N); [exact Hc | simpl; tauto].
Qed.

Lemma numbered_line_inline (ds t : jsstring) :
  Forall (fun c => digit c = true) ds ->
  Forall (fun c => inline c = true) t ->
  Forall (fun c => inline c = true) (ds ++ js ". " ++ t).
Proof.
  intros Hds Ht. apply Forall_app; split.
  - eapply Forall_impl; [| exact Hds]. exact digit_inline.
  - apply Forall_app; split; [repeat constructor | exact Ht].
Qed.

(** The pattern of the numbered lines makes an item of every line. *)
Lemma numbered_rewritten (items : list (jsstring * jsstring)) :
  Forall (fun it => fst it <> [] /\
                    Forall (fun c => digit c = true) (fst it) /\
                    Forall (fun c => inline c = true) (snd it)) items ->
  replace (fun c : cu => c) (fun c : cu => c) true
          (Cat Bol (Cat (Plus Digit) (Cat (lits (js ". ")) line_rest)))
          (wrap "<li>" "</li>")
          (join_lines (map (fun it => fst it ++ js ". " ++ snd it) items))
  = join_lines (map (fun t => js "<li>" ++ t ++ js "</li>") (map snd items)).
Proof.
  intro Hitems.
  assert (Hin : In (Cat Bol (Cat (Plus Digit) (Cat (lits (js ". ")) line_rest)),
                    wrap "<li>" "</li>") (removelast markdown_rules))
    by (cbn; repeat (first [left; reflexivity | right])).
  unfold replace.
  replace (map (fun it => fst it ++ js ". " ++ snd it) items)
    with (map (fun it => fst it ++ snd it)
              (map (fun it => (fst it ++ js ". ", snd it)) items))
    by (rewrite map_map; apply map_ext; intros [ds t]; cbn [fst snd];
        rewrite <- app_assoc; reflexivity).
  rewrite (lines_rewritten _ "<li>" "</li>" (earlier_rule _ Hin)).
  - rewrite !map_map. reflexivity.
  - intros prev s _. apply (feed_fails _ _ Hin).
  - apply Forall_map. eapply Forall_impl; [| exact Hitems].
    intros [ds t] (Hne & Hds & Ht). cbn [fst snd] in *. repeat split.
    + destruct ds; [contradiction | discriminate].
    + intro prev. rewrite <- app_assoc.
      destruct ds as [| d ds]; [contradiction |].
      inversion Hds as [| ? ? Hd Hds']; subst.
      cbn [app]. rewrite last_code_cons.
      apply last_code_inline; [exact (numbered_line_inline ds t Hds' Ht) |].
      cbn [at_line_start]. exact (proj2 (proj2 (inline_parts d (digit_inline d Hd)))).
    + intros prev tail Hprev Htail. apply numbered_found; assumption.
  - reflexivity.
  - lia.
Qed.

Lemma early_is_earlier (rule : re * replacement) :
  In rule (firstn 7 markdown_rules) -> In rule (removelast markdown_rules).
Proof.
  intro H.
  change (removelast markdown_rules)
    with (firstn 7 markdown_rules ++ skipn 7 (removelast markdown_rules)).
  apply in_or_app. left. exact H.
Qed.

Lemma late_is_earlier (rule : re * replacement) :
  In rule (skipn 10 (removelast markdown_rules)) -> In rule (removelast markdown_rules).
Proof.
  intro H.
  change (removelast markdown_rules)
    with (firstn 10 markdown_rules ++ skipn 10 (removelast markdown_rules)).
  apply in_or_app. right. exact H.
Qed.

(** What the rules make of numbered lines. *)
Lemma numbered_rendered (items : list (jsstring * jsstring)) :
  items <> [] ->
  Forall (fun it => fst it <> [] /\
                    Forall (fun c => digit c = true) (fst it) /\
                    Forall (fun c => inline c = true) (snd it)) items ->
  apply_rules (fun c : cu => c) (fun c : cu => c) markdown_rules
              (join_lines (map (fun it => fst it ++ js ". " ++ snd it) items))
  = js "<ol>" ++ flat_map (fun t => js "<li>" ++ t ++ js "</li>") (map snd items)
    ++ js "</ol>".
Proof.
  intros Hne Hitems.
  assert (Hts : Forall (fun t => Forall (fun c => inline c = true) t) (map snd items)).
  { apply Forall_map. eapply Forall_impl; [| exact Hitems].
    intros it (_ & _ & Ht). exact Ht. }
  change markdown_rules
    with (firstn 7 markdown_rules
          ++ (Cat Bol (Cat (Plus Digit) (Cat (lits (js ". ")) line_rest)),
              wrap "<li>" "</li>")
          :: (Cat (lits (js "</li>")) (Cat (Atom (Lit 10%N)) (lits (js "<li>"))),
              Template [Text (js "</li><li>")])
          :: (Group (Cat (lits (js "<li>")) (Cat (Star true Dot) (lits (js "</li>")))),
              wrap "<ol>" "</ol>")
          :: skipn 10 (removelast markdown_rules)
          ++ [(Atom (Lit 10%N), Template [Text (js "<br>")])]).
  rewrite apply_rules_app, !apply_rules_cons, apply_rules_snoc. cbn [fst snd].
  rewrite rules_lines_copied.
  2:{ intros r rp Hin. split; [exact (early_is_earlier _ Hin) |].
      apply Forall_map. eapply Forall_impl; [| exact Hitems].
      intros [ds t] (Hds & Hdigits & Ht) prev tail _. cbn [fst snd] in *.
      destruct ds as [| d ds]; [contradiction |].
      inversion Hdigits as [| ? ? Hd Hds']; subst.
      cbn [app].
      apply (marked_line_quiet r rp d (ds ++ js ". " ++ t));
        [exact (earlier_rule _ (early_is_earlier _ Hin))
        | exact (early_rule_digit r rp d Hin Hd)
        | exact (digit_inline d Hd)
        | exact (numbered_line_inline ds t Hds' Ht)]. }
  rewrite (numbered_rewritten items Hitems).
  destruct (map snd items) as [| t ts] eqn:Hmap;
    [destruct items; [contradiction | discriminate] |].
  rewrite (items_joined t ts Hts), (items_wrapped t ts Hts).
  set (S := flat_map (fun t' => js "<li>" ++ t' ++ js "</li>") (t :: ts)).
  assert (HS : Forall (fun c => line_terminator c = false) (js "ol>" ++ S ++ js "</ol>")).
  { apply Forall_app; split; [repeat constructor |].
    apply Forall_app; split; [exact (items_line _ Hts) | repeat constructor]. }
  change (js "<ol>" ++ S ++ js "</ol>")
    with (join_lines [60%N :: js "ol>" ++ S ++ js "</ol>"]) at 1.
  rewrite rules_lines_copied.
  - cbn [join_lines]. unfold replace. rewrite break_lines_from by lia.
    apply (no_feed_kept (60%N :: js "ol>" ++ S ++ js "</ol>")).
    constructor; [reflexivity | exact (line_no_feed _ HS)].
  - intros r rp Hin. split; [exact (late_is_earlier _ Hin) |].
    constructor; [| constructor].
    intros prev tail _. exact (tag_line_quiet r rp Hin _ HS prev tail).
Qed.

End Lines.

(** X10. Bullets.  Lines that all begin with a hyphen and a space, each
    followed by a text without markup of its own, are rendered as one
    [li] element for each line, with a [<br>] tag between one element
    and the next and no list element around them; so are lines that
    begin with a bullet and a space, and lines that begin with a middle
    dot. *)
Theorem bullet_lines_are_rendered (ts : list jsstring) :
  ts <> [] ->
  Forall (fun t => Forall (fun c => Classes.inline c = true) t) ts ->
  markdownToHtml (Some (Classes.join_lines (map (fun t => js "- " ++ t) ts)))
  = Classes.join (js "<br>") (map (fun t => js "<li>" ++ t ++ js "</li>") ts) /\
  markdownToHtml (Some (Classes.join_lines (map (fun t => [8226; 32]%N ++ t) ts)))
  = Classes.join (js "<br>") (map (fun t => js "<li>" ++ t ++ js "</li>") ts) /\
  markdownToHtml (Some (Classes.join_lines (map (fun t => [12539%N] ++ t) ts)))
  = Classes.join (js "<br>") (map (fun t => js "<li>" ++ t ++ js "</li>") ts).
Proof.
  intros Hne Hts. repeat split.
  - apply (bullets_rendered (js "- ") 45%N [32%N]
             (firstn 10 markdown_rules) (skipn 11 (removelast markdown_rules)));
      [reflexivity | reflexivity | | | repeat constructor | exact Hne | exact Hts].
    + intros rule Hin. simpl in Hin. simpl. tauto.
    + intros r rp Hin. simpl in Hin.
      repeat (destruct Hin as [Hin | Hin];
              [inversion Hin; subst; clear Hin;
               split; [cbn; repeat (first [left; reflexivity | right])
                      | intros prev s; unfold match_here; cbn;
                        try (destruct (at_line_start prev)); reflexivity] |]).
      contradiction.
  - apply (bullets_rendered [8226; 32]%N 8226%N [32%N]
             (firstn 11 markdown_rules) (skipn 12 (removelast markdown_rules)));
      [reflexivity | reflexivity | | | repeat constructor | exact Hne | exact Hts].
    + intros rule Hin. simpl in Hin. simpl. tauto.
    + intros r rp Hin. simpl in Hin.
      repeat (destruct Hin as [Hin | Hin];
              [inversion Hin; subst; clear Hin;
               split; [cbn; repeat (first [left; reflexivity | right])
                      | intros prev s; unfold match_here; cbn;
                        try (destruct (at_line_start prev)); reflexivity] |]).
      contradiction.
  - apply (bullets_rendered [12539%N] 12539%N []
             (firstn 12 markdown_rules) (skipn 13 (removelast markdown_rules)));
      [reflexivity | reflexivity | | | repeat constructor | exact Hne | exact Hts].
    + intros rule Hin. simpl in Hin. simpl. tauto.
    + intros r rp Hin. simpl in Hin.
      repeat (destruct Hin as [Hin | Hin];
              [inversion Hin; subst; clear Hin;
               split; [cbn; repeat (first [left; reflexivity | right])
                      | intros prev s; unfold match_here; cbn;
                        try (destruct (at_line_start prev)); reflexivity] |]).
      contradiction.
Qed.

(** X10 on three lines. *)
Lemma bullet_lines_sample :
  [js "cost"; js "speed"; js "risk"] <> [] /\
  Forall (fun t => Forall (fun c => Classes.inline c = true) t)
         [js "cost"; js "speed"; js "risk"] /\
  markdownToHtml (Some (js "- cost" ++ 10%N :: js "- speed" ++ 10%N :: js "- risk"))
  = js "<li>cost</li><br><li>speed</li><br><li>risk</li>".
Proof.
  assert (H : Forall (fun t => Forall (fun c => Classes.inline c = true) t)
                     [js "cost"; js "speed"; js "risk"])
    by (repeat constructor).
  split; [discriminate |]. split; [exact H |].
  exact (proj1 (bullet_lines_are_rendered [js "cost"; js "speed"; js "risk"]
                  ltac:(discriminate) H)).
Defined.

(** X11. Numbered lines.  Lines that each begin with digits, a full stop
    and a space, followed by a text without markup of its own, are
    rendered as one ordered list on one line: an [li] element for each
    line, in their order and with nothing between them, inside one [ol]
    element.  The numbers themselves are dropped. *)
Theorem numbered_lines_are_rendered (items : list (jsstring * jsstring)) :
  items <> [] ->
  Forall (fun it => fst it <> [] /\
                    Forall (fun c => Classes.digit c = true) (fst it) /\
                    Forall (fun c => Classes.inline c = true) (snd it)) items ->
  markdownToHtml
    (Some (Classes.join_lines (map (fun it => fst it ++ js ". " ++ snd it) items)))
  = js "<ol>" ++ flat_map (fun t => js "<li>" ++ t ++ js "</li>") (map snd items)
    ++ js "</ol>".
Proof.
  intros Hne Hitems. unfold markdownToHtml.
  assert (Hlines : Forall (fun l => Forall (fun c => Classes.inline c = true) l)
                          (map (fun it => fst it ++ js ". " ++ snd it) items)).
  { apply Forall_map. eapply Forall_impl; [| exact Hitems].
    intros [ds t] (_ & Hds & Ht). exact (numbered_line_inline ds t Hds Ht). }
  replace (truthy (Classes.join_lines
                     (map (fun it => fst it ++ js ". " ++ snd it) items)))
    with true.
  2:{ destruct items as [| [ds t] items]; [contradiction |].
      inversion Hitems as [| ? ? (Hds & _) _]; subst. cbn [fst] in Hds.
      destruct ds as [| d ds]; [contradiction |].
      destruct items; reflexivity. }
  rewrite escapeHtml_chars, unescaped.
  - exact (numbered_rendered items Hne Hitems).
  - apply join_lines_all; [reflexivity |].
    eapply Forall_impl; [| exact Hlines]. intros l. apply inline_unescaped.
Qed.

(** X11 on three lines. *)
Lemma numbered_lines_sample :
  markdownToHtml (Some (js "1. cost" ++ 10%N :: js "2. speed" ++ 10%N :: js "10. risk"))
  = js "<ol><li>cost</li><li>speed</li><li>risk</li></ol>".
Proof.
  apply (numbered_lines_are_rendered
           [(js "1", js "cost"); (js "2", js "speed"); (js "10", js "risk")]).
  - discriminate.
  - repeat constructor; discriminate.
Defined.

(** ** Trimming and splitting *)

Section TrimFacts.

Lemma trim_start_fixed (c : cu) (s : jsstring) :
  white_space c = false -> trim_start (c :: s) = c :: s.
Proof. intro H. simpl. rewrite H. reflexivity. Qed.

(** [trim_start] drops a prefix of white space and stops at the first
    other character. *)
Lemma trim_start_spec (s : jsstring) :
  exists pre,
    s = pre ++ trim_start s /\
    Forall (fun c => white_space c = true) pre /\
    match trim_start s with
    | [] => True
    | c :: _ => white_space c = false
    end.
Proof.
  induction s as [| c s IH]; [exists []; repeat split; constructor |].
  cbn [trim_start]. destruct (white_space c) eqn:E.
  - destruct IH as (pre & Hs & Hpre & Hhead).
    exists (c :: pre). split; [simpl; f_equal; exact Hs |].
    split; [constructor; assumption | exact Hhead].
  - exists []. repeat split; [constructor | exact E].
Qed.

Lemma last_rev (c d : cu) (s : jsstring) : last (rev (c :: s)) d = c.
Proof. simpl. apply last_last. Qed.

Lemma hd_rev (c d : cu) (s : jsstring) : hd d (rev (c :: s)) = last (c :: s) d.
Proof.
  revert c. induction s as [| x s IH]; intro c; [reflexivity |].
  change (last (c :: x :: s) d) with (last (x :: s) d). rewrite <- IH.
  cbn [rev]. destruct (rev s ++ [x]) eqn:E; [| reflexivity].
  apply app_eq_nil in E. destruct E as (_ & E). discriminate.
Qed.

Lemma last_default (l : jsstring) (d d' : cu) : l <> [] -> last l d = last l d'.
Proof.
  induction l as [| x l IH]; intro H; [contradiction |].
  destruct l as [| y l]; [reflexivity |].
  change (last (x :: y :: l) d) with (last (y :: l) d).
  change (last (x :: y :: l) d') with (last (y :: l) d').
  apply IH. discriminate.
Qed.

Lemma last_append (a b : jsstring) (d : cu) : b <> [] -> last (a ++ b) d = last b d.
Proof.
  intro Hb. induction a as [| x a IH]; [reflexivity |].
  cbn [app]. destruct (a ++ b) as [| y l] eqn:E.
  - apply app_eq_nil in E. destruct E as (_ & E). contradiction.
  - exact IH.
Qed.

Lemma trimmed_fixed (s : jsstring) : Classes.trimmed s = true -> trim s = s.
Proof.
  destruct s as [| c s]; [reflexivity |].
  unfold Classes.trimmed, trim. intro H. apply andb_true_iff in H.
  destruct H as (Hc & Hl). apply negb_true_iff in Hc, Hl.
  rewrite (trim_start_fixed c s Hc).
  destruct (rev (c :: s)) as [| x t] eqn:E.
  - apply (f_equal (@List.length cu)) in E. rewrite length_rev in E. discriminate.
  - assert (Hx : x = last (c :: s) c).
    { rewrite <- (hd_rev c c s), E. reflexivity. }
    rewrite trim_start_fixed by (rewrite Hx; exact Hl).
    rewrite <- E. apply rev_involutive.
Qed.

(** What [trim] returns has no white space at either end. *)
Lemma trim_trimmed (s : jsstring) : Classes.trimmed (trim s) = true.
Proof.
  unfold trim.
  destruct (trim_start_spec s) as (pre & _ & _ & Ha).
  set (a := trim_start s) in *.
  destruct (trim_start_spec (rev a)) as (pre' & Hb & _ & Hhead).
  set (b := trim_start (rev a)) in *.
  destruct b as [| x b'] eqn:Eb; [reflexivity |].
  assert (Hrev : a = rev (x :: b') ++ rev pre').
  { rewrite <- rev_app_distr, <- Hb. symmetry. apply rev_involutive. }
  destruct (rev (x :: b')) as [| y t] eqn:Er.
  - apply (f_equal (@List.length cu)) in Er. rewrite length_rev in Er. discriminate.
  - unfold Classes.trimmed.
    assert (Hy : white_space y = false).
    { rewrite Hrev in Ha. exact Ha. }
    assert (Hlast : last (y :: t) y = x).
    { rewrite <- Er. apply last_rev. }
    rewrite Hy, Hlast, Hhead. reflexivity.
Qed.

Lemma trim_idempotent (s : jsstring) : trim (trim s) = trim s.
Proof. apply trimmed_fixed, trim_trimmed. Qed.

Lemma trimmed_iff (s : jsstring) : Classes.trimmed s = true <-> trim s = s.
Proof.
  split; [apply trimmed_fixed |].
  intro H. rewrite <- H. apply trim_trimmed.
Qed.

(** [trim] only removes characters. *)
Lemma trim_start_incl (s : jsstring) (c : cu) : In c (trim_start s) -> In c s.
Proof.
  destruct (trim_start_spec s) as (pre & Hs & _). intro H.
  rewrite Hs. apply in_or_app. right. exact H.
Qed.

Lemma trim_incl (s : jsstring) (c : cu) : In c (trim s) -> In c s.
Proof.
  unfold trim. intro H. apply in_rev in H. apply trim_start_incl in H.
  apply in_rev in H. apply trim_start_incl in H. exact H.
Qed.

End TrimFacts.

Section SplitFacts.
Import Text.

Lemma mem_In (c : cu) (s : jsstring) : mem c s = true <-> In c s.
Proof.
  unfold mem. rewrite existsb_exists. split.
  - intros (x & Hx & E). unfold cu_eqb in E. apply N.eqb_eq in E. subst. exact Hx.
  - intro H. exists c. split; [exact H | apply N.eqb_refl].
Qed.

Lemma mem_cons (c x : cu) (s : jsstring) :
  mem c (x :: s) = false -> cu_eqb x c = false /\ mem c s = false.
Proof.
  unfold mem. simpl. intro H. apply orb_false_iff in H. destruct H as (H1 & H2).
  split; [| exact H2]. unfold cu_eqb in *. rewrite N.eqb_sym. exact H1.
Qed.

Lemma mem_consed (c x : cu) (s : jsstring) :
  cu_eqb x c = false -> mem c s = false -> mem c (x :: s) = false.
Proof.
  unfold mem. cbn [existsb]. intros H1 H2. rewrite H2, orb_false_r.
  unfold cu_eqb in *. rewrite N.eqb_sym. exact H1.
Qed.

Lemma mem_app (c : cu) (a b : jsstring) : mem c (a ++ b) = mem c a || mem c b.
Proof. unfold mem. apply existsb_app. Qed.

Lemma split_whole (sep : cu) (s : jsstring) :
  mem sep s = false -> split sep s = [s].
Proof.
  induction s as [| c s IH]; intro H; [reflexivity |].
  destruct (mem_cons sep c s H) as (Hc & Hs).
  cbn [split]. rewrite Hc, (IH Hs). reflexivity.
Qed.

Lemma split_at (sep : cu) (a rest : jsstring) :
  mem sep a = false -> split sep (a ++ sep :: rest) = a :: split sep rest.
Proof.
  induction a as [| c a IH]; intro H.
  - cbn [app split]. unfold cu_eqb. rewrite N.eqb_refl. reflexivity.
  - destruct (mem_cons sep c a H) as (Hc & Ha).
    cbn [app split]. rewrite Hc, (IH Ha). reflexivity.
Qed.

(** The pieces hold no separator, and nothing the text did not hold. *)
Lemma split_pieces (sep : cu) (s : jsstring) :
  Forall (fun piece => mem sep piece = false /\ forall c, In c piece -> In c s)
         (split sep s).
Proof.
  induction s as [| c s IH]; cbn [split].
  - constructor; [split; [reflexivity | tauto] | constructor].
  - destruct (cu_eqb c sep) eqn:E.
    + constructor; [split; [reflexivity | intros ? []] |].
      eapply Forall_impl; [| exact IH].
      intros piece (Hm & Hin). split; [exact Hm | intros x Hx; right; auto].
    + destruct (split sep s) as [| piece pieces]; [constructor; [| constructor] |].
      * split; [| intros x Hx; destruct Hx as [<- | []]; left; reflexivity].
        apply mem_consed; [exact E | reflexivity].
      * inversion IH as [| ? ? (Hm & Hin) Hrest]; subst.
        constructor.
        -- split.
           ++ apply mem_consed; [exact E | exact Hm].
           ++ intros x [<- | Hx]; [left; reflexivity | right; auto].
        -- eapply Forall_impl; [| exact Hrest].
           intros q (Hqm & Hqin). split; [exact Hqm | intros x Hx; right; auto].
Qed.

Lemma split_lines_whole (line : jsstring) :
  mem 10%N line = false -> split_lines line = [line].
Proof.
  induction line as [| c line IH]; intro H; [reflexivity |].
  destruct (mem_cons 10%N c line H) as (Hc & Hl).
  cbn [split_lines]. rewrite Hc.
  destruct line as [| d line']; [reflexivity |].
  destruct (mem_cons 10%N d line' Hl) as (Hd & _).
  rewrite Hd, andb_false_r, (IH Hl). reflexivity.
Qed.

Lemma split_lines_at (line rest : jsstring) :
  mem 10%N line = false ->
  last line 0%N <> 13%N ->
  split_lines (line ++ 10%N :: rest) = line :: split_lines rest.
Proof.
  induction line as [| c line IH]; intros H Hlast.
  - reflexivity.
  - destruct (mem_cons 10%N c line H) as (Hc & Hl).
    cbn [app split_lines]. rewrite Hc.
    destruct line as [| d line'].
    + cbn [app]. cbn [last] in Hlast.
      replace (cu_eqb c 13%N) with false
        by (symmetry; apply N.eqb_neq; exact Hlast).
      cbn [andb]. cbn [split_lines]. reflexivity.
    + destruct (mem_cons 10%N d line' Hl) as (Hd & _).
      cbn [app]. rewrite Hd, andb_false_r.
      change (d :: line' ++ 10%N :: rest) with ((d :: line') ++ 10%N :: rest).
      rewrite (IH Hl Hlast). reflexivity.
Qed.

(** The lines hold no line feed, and nothing the text did not hold. *)
Lemma split_lines_pieces (s : jsstring) :
  Forall (fun line => mem 10%N line = false /\ forall c, In c line -> In c s)
         (split_lines s).
Proof.
  assert (Hgen : forall n s, List.length s <= n ->
             Forall (fun line => mem 10%N line = false /\ forall c, In c line -> In c s)
                    (split_lines s)).
  { clear s. induction n as [| n IH]; intros s Hn.
    - destruct s; [| simpl in Hn; lia].
      constructor; [split; [reflexivity | tauto] | constructor].
    - destruct s as [| c s]; [constructor; [split; [reflexivity | tauto] | constructor] |].
      cbn [split_lines]. destruct (cu_eqb c 10%N) eqn:Ec.
      + constructor; [split; [reflexivity | intros ? []] |].
        eapply Forall_impl; [| apply (IH s); simpl in Hn; lia].
        intros line (Hm & Hin). split; [exact Hm | intros x Hx; right; auto].
      + destruct s as [| d s'].
        * constructor; [| constructor].
          split; [| tauto]. apply mem_consed; [exact Ec | reflexivity].
        * destruct (cu_eqb c 13%N && cu_eqb d 10%N) eqn:Ecr.
          -- constructor; [split; [reflexivity | intros ? []] |].
             eapply Forall_impl; [| apply (IH s'); simpl in Hn; lia].
             intros line (Hm & Hin). split; [exact Hm |].
             intros x Hx. right. right. auto.
          -- pose proof (IH (d :: s') ltac:(simpl in Hn |- *; lia)) as Hrec.
             destruct (split_lines (d :: s')) as [| line lines].
             ++ constructor; [| constructor].
                split; [| intros x [<- | []]; left; reflexivity].
                apply mem_consed; [exact Ec | reflexivity].
             ++ inversion Hrec as [| ? ? (Hm & Hin) Hrest]; subst.
                constructor.
                ** split.
                   --- apply mem_consed; [exact Ec | exact Hm].
                   --- intros x [<- | Hx]; [left; reflexivity | right; auto].
                ** eapply Forall_impl; [| exact Hrest].
                   intros q (Hqm & Hqin). split; [exact Hqm | intros x Hx; right; auto]. }
  apply (Hgen (List.length s)). lia.
Qed.

End SplitFacts.

(** ** The parsers of role files *)

Section Parsers.
Import Text RolesFile Classes.
Variable sep : cu.
Variable empty : file_error.
Hypothesis sep_no_space : white_space sep = false.
Hypothesis sep_no_feed : cu_eqb sep 10%N = false.

Lemma lines_of_blank (content : jsstring) :
  lines_of content = [] <-> Forall (fun line => trim line = []) (split_lines content).
Proof.
  unfold lines_of. induction (split_lines content) as [| line lines IH]; cbn [map filter].
  - split; [constructor | reflexivity].
  - destruct (trim line) eqn:E; cbn [truthy].
    + rewrite IH. split; [intro H; constructor; assumption | intro H; inversion H; assumption].
    + split; [discriminate | intro H; inversion H; congruence].
Qed.

(** The lines the parsers work on: not empty, trimmed, free of line feeds. *)
Lemma lines_of_clean (content : jsstring) :
  Forall (fun line => truthy line = true /\ trimmed line = true /\ mem 10%N line = false)
         (lines_of content).
Proof.
  unfold lines_of.
  pose proof (split_lines_pieces content) as H.
  induction H as [| line lines (Hm & _) _ IH]; cbn [map filter]; [constructor |].
  destruct (truthy (trim line)) eqn:E; [| exact IH].
  constructor; [| exact IH].
  split; [exact E |]. split; [apply trim_trimmed |].
  destruct (mem 10%N (trim line)) eqn:F; [| reflexivity].
  apply mem_In in F. apply trim_incl in F. apply mem_In in F. congruence.
Qed.

Lemma cell_of_piece (line piece : jsstring) :
  mem 10%N line = false ->
  mem sep piece = false -> (forall c, In c piece -> In c line) ->
  cell sep (trim piece) = true.
Proof.
  intros Hline Hsep Hin. unfold cell. rewrite trim_trimmed. cbn [andb].
  apply andb_true_iff. split; apply negb_true_iff.
  - destruct (mem sep (trim piece)) eqn:E; [| reflexivity].
    apply mem_In in E. apply trim_incl in E. apply mem_In in E. congruence.
  - destruct (mem 10%N (trim piece)) eqn:E; [| reflexivity].
    apply mem_In in E. apply trim_incl in E. apply Hin in E. apply mem_In in E.
    congruence.
Qed.

(** A line gives at most one role, and what it gives is well formed once
    its name is not empty. *)
Lemma row_of_clean (line : jsstring) :
  mem 10%N line = false ->
  List.length (row_of sep line) <= 1 /\
  Forall (fun r => truthy (name r) = true -> well_formed sep r = true)
         (row_of sep line).
Proof.
  intro Hline. unfold row_of.
  pose proof (split_pieces sep line) as H.
  destruct (split sep line) as [| first [| second rest]];
    [split; [simpl; lia | constructor] | split; [simpl; lia | constructor] |].
  inversion H as [| ? ? (Hf & Hfin) H']; subst.
  inversion H' as [| ? ? (Hs & Hsin) _]; subst.
  split; [simpl; lia |].
  constructor; [| constructor].
  cbn [name description]. intro Hname. unfold well_formed. cbn [name description].
  rewrite Hname, (cell_of_piece line first Hline Hf Hfin),
    (cell_of_piece line second Hline Hs Hsin).
  reflexivity.
Qed.

Lemma rows_clean (lines : list jsstring) :
  Forall (fun line => truthy line = true /\ trimmed line = true /\ mem 10%N line = false)
         lines ->
  List.length (filter (fun r => truthy (name r)) (flat_map (row_of sep) lines))
  <= List.length lines /\
  Forall (fun r => well_formed sep r = true)
         (filter (fun r => truthy (name r)) (flat_map (row_of sep) lines)).
Proof.
  induction 1 as [| line lines (_ & _ & Hline) _ (IHlen & IHwf)]; cbn [flat_map].
  - split; [simpl; lia | constructor].
  - rewrite filter_app, length_app.
    destruct (row_of_clean line Hline) as (Hone & Hrow).
    split.
    + pose proof (filter_length_le (fun r => truthy (name r)) (row_of sep line)).
      cbn [List.length]. lia.
    + apply Forall_app. split; [| exact IHwf].
      apply Forall_forall. intros r Hr. apply filter_In in Hr. destruct Hr as (Hr & Hn).
      rewrite Forall_forall in Hrow. exact (Hrow r Hr Hn).
Qed.

(** What the parser returns on any file. *)
Lemma parse_rows_result (includesTopic : bool) (content : jsstring) :
  match parse_rows sep empty includesTopic content with
  | Err e =>
      e = empty /\ Forall (fun line => trim line = []) (split_lines content)
  | Ok f =>
      ~ Forall (fun line => trim line = []) (split_lines content) /\
      Forall (fun r => well_formed sep r = true) (roles f) /\
      List.length (roles f) + (if includesTopic then 1 else 0)
      <= List.length (lines_of content) /\
      match topic f with
      | Some t => includesTopic = true /\ trim t = t
      | None => includesTopic = false
      end
  end.
Proof.
  unfold parse_rows.
  pose proof (lines_of_blank content) as Hblank.
  pose proof (lines_of_clean content) as Hclean.
  destruct (lines_of content) as [| first rest].
  - split; [reflexivity | apply Hblank; reflexivity].
  - split; [intro H; apply Hblank in H; discriminate |].
    cbn [roles topic].
    destruct includesTopic.
    + inversion Hclean as [| ? ? _ Hrest]; subst.
      destruct (rows_clean rest Hrest) as (Hlen & Hwf).
      split; [exact Hwf |]. split; [cbn [List.length]; lia |].
      split; [reflexivity |].
      unfold topic_of.
      destruct (split sep first) as [| a [| b l]];
        [reflexivity | apply trim_idempotent | apply trim_idempotent].
    + destruct (rows_clean (first :: rest) Hclean) as (Hlen & Hwf).
      split; [exact Hwf |]. split; [lia | reflexivity].
Qed.

(** Reading back the lines of well-formed roles. *)
Lemma cell_parts (s : jsstring) :
  cell sep s = true -> trimmed s = true /\ mem sep s = false /\ mem 10%N s = false.
Proof.
  unfold cell. intro H. apply andb_true_iff in H. destruct H as (H & H3).
  apply andb_true_iff in H. destruct H as (H1 & H2).
  apply negb_true_iff in H2, H3. auto.
Qed.

Lemma trimmed_app (a b : jsstring) :
  trimmed a = true -> trimmed (sep :: b) = true -> trimmed (a ++ sep :: b) = true.
Proof.
  intros Ha Hb. destruct a as [| c a]; [exact Hb |].
  unfold trimmed in *. cbn [app].
  apply andb_true_iff in Ha. destruct Ha as (Hc & _).
  apply andb_true_iff in Hb. destruct Hb as (_ & Hl).
  rewrite Hc. cbn [andb].
  change (c :: a ++ sep :: b) with ((c :: a) ++ sep :: b).
  rewrite last_append by discriminate.
  rewrite (last_default (sep :: b) c sep) by discriminate. exact Hl.
Qed.

Lemma trimmed_after_sep (b : jsstring) :
  trimmed b = true -> trimmed (sep :: b) = true.
Proof.
  intro Hb. unfold trimmed in *. rewrite sep_no_space. cbn [negb andb].
  destruct b as [| d b]; [cbn [last]; rewrite sep_no_space; reflexivity |].
  apply andb_true_iff in Hb. destruct Hb as (_ & Hl).
  change (last (sep :: d :: b) sep) with (last (d :: b) sep).
  rewrite (last_default (d :: b) sep d) by discriminate. exact Hl.
Qed.

Lemma line_of_clean (a b : jsstring) :
  cell sep a = true -> cell sep b = true ->
  truthy (a ++ sep :: b) = true /\
  trim (a ++ sep :: b) = a ++ sep :: b /\
  mem 10%N (a ++ sep :: b) = false /\
  last (a ++ sep :: b) 0%N <> 13%N /\
  split sep (a ++ sep :: b) = [a; b].
Proof.
  intros Ha Hb.
  destruct (cell_parts a Ha) as (Hat & Has & Haf).
  destruct (cell_parts b Hb) as (Hbt & Hbs & Hbf).
  assert (Ht : trimmed (a ++ sep :: b) = true)
    by (apply trimmed_app; [exact Hat | apply trimmed_after_sep; exact Hbt]).
  split; [destruct a; reflexivity |].
  split; [apply trimmed_fixed; exact Ht |].
  split.
  { rewrite mem_app, Haf. cbn [orb]. apply mem_consed; [exact sep_no_feed | exact Hbf]. }
  split.
  { intro Hcr. destruct (a ++ sep :: b) as [| c l] eqn:E;
      [destruct a; discriminate |].
    unfold trimmed in Ht. apply andb_true_iff in Ht. destruct Ht as (_ & Hl).
    rewrite (last_default (c :: l) c 0%N) in Hl by discriminate.
    rewrite Hcr in Hl. discriminate. }
  rewrite (split_at sep a b Has), (split_whole sep b Hbs). reflexivity.
Qed.

Lemma lines_of_join (lines : list jsstring) :
  Forall (fun line => truthy line = true /\ trim line = line /\
                      mem 10%N line = false /\ last line 0%N <> 13%N) lines ->
  lines_of (join_lines lines) = lines.
Proof.
  unfold lines_of.
  induction 1 as [| line lines (Hn & Ht & Hf & Hl) Hrest IH]; [reflexivity |].
  destruct lines as [| next lines'].
  - cbn [join_lines]. rewrite (split_lines_whole line Hf). cbn [map filter].
    rewrite Ht, Hn. reflexivity.
  - change (join_lines (line :: next :: lines'))
      with (line ++ 10%N :: join_lines (next :: lines')).
    rewrite (split_lines_at line _ Hf Hl). cbn [map filter].
    rewrite Ht, Hn. f_equal. exact IH.
Qed.

Lemma rows_of_lines (rows : list role_row) :
  Forall (fun r => well_formed sep r = true) rows ->
  Forall (fun line => truthy line = true /\ trim line = line /\
                      mem 10%N line = false /\ last line 0%N <> 13%N)
         (map (line_of sep) rows) /\
  filter (fun r => truthy (name r)) (flat_map (row_of sep) (map (line_of sep) rows))
  = rows.
Proof.
  induction 1 as [| [n d] rows Hr _ (IHl & IHr)]; [split; [constructor | reflexivity] |].
  unfold well_formed in Hr. cbn [name description] in Hr.
  apply andb_true_iff in Hr. destruct Hr as (Hr & Hd).
  apply andb_true_iff in Hr. destruct Hr as (Hn & Hc).
  destruct (line_of_clean n d Hc Hd) as (H1 & H2 & H3 & H4 & H5).
  split.
  - cbn [map]. constructor; [| exact IHl]. unfold line_of. cbn [name description]. auto.
  - cbn [map flat_map]. unfold row_of at 1. unfold line_of at 1. cbn [name description].
    rewrite H5. cbn [app filter name].
    destruct (cell_parts n Hc) as (Hnt & _). destruct (cell_parts d Hd) as (Hdt & _).
    rewrite (trimmed_fixed n Hnt), (trimmed_fixed d Hdt), Hn.
    f_equal. exact IHr.
Qed.

Lemma parse_rows_reads_back (rows : list role_row) :
  rows <> [] ->
  Forall (fun r => well_formed sep r = true) rows ->
  parse_rows sep empty false (join_lines (map (line_of sep) rows))
  = Ok {| roles := rows; topic := None |}.
Proof.
  intros Hne Hwf. destruct (rows_of_lines rows Hwf) as (Hlines & Hrows).
  unfold parse_rows. rewrite (lines_of_join _ Hlines).
  destruct rows as [| r rows]; [contradiction |].
  cbn [map]. cbn [map] in Hrows. rewrite Hrows. reflexivity.
Qed.

Lemma parse_rows_reads_back_topic (label t : jsstring) (rows : list role_row) :
  cell sep label = true -> cell sep t = true ->
  Forall (fun r => well_formed sep r = true) rows ->
  parse_rows sep empty true
             (join_lines ((label ++ sep :: t) :: map (line_of sep) rows))
  = Ok {| roles := rows; topic := Some t |}.
Proof.
  intros Hlabel Ht Hwf. destruct (rows_of_lines rows Hwf) as (Hlines & Hrows).
  destruct (line_of_clean label t Hlabel Ht) as (H1 & H2 & H3 & H4 & H5).
  unfold parse_rows.
  rewrite (lines_of_join ((label ++ sep :: t) :: map (line_of sep) rows))
    by (constructor; auto).
  rewrite Hrows. unfold topic_of. rewrite H5.
  destruct (cell_parts t Ht) as (Htt & _). rewrite (trimmed_fixed t Htt).
  reflexivity.
Qed.

End Parsers.

(** X12. The two parsers of role files throw on exactly one kind of file:
    one in which every line is blank (the empty file among them); the
    error is then the one about an empty file.  On any other file they
    return a result, whatever the lines hold. *)
Theorem roles_file_is_refused_only_when_blank (includesTopic : bool) (content : jsstring) :
  (RolesFile.parseRolesCsv includesTopic content = Err RolesFile.EmptyCsv
   <-> Forall (fun line => trim line = []) (Text.split_lines content)) /\
  (RolesFile.parseRolesTxt includesTopic content = Err RolesFile.EmptyTxt
   <-> Forall (fun line => trim line = []) (Text.split_lines content)) /\
  (forall e, RolesFile.parseRolesCsv includesTopic content = Err e ->
             e = RolesFile.EmptyCsv) /\
  (forall e, RolesFile.parseRolesTxt includesTopic content = Err e ->
             e = RolesFile.EmptyTxt).
Proof.
  unfold RolesFile.parseRolesCsv, RolesFile.parseRolesTxt.
  pose proof (parse_rows_result 44%N RolesFile.EmptyCsv includesTopic content) as Hc.
  pose proof (parse_rows_result 58%N RolesFile.EmptyTxt includesTopic content) as Ht.
  destruct (RolesFile.parse_rows 44%N RolesFile.EmptyCsv includesTopic content)
    as [fc | ec];
    destruct (RolesFile.parse_rows 58%N RolesFile.EmptyTxt includesTopic content)
      as [ft | et].
  - destruct Hc as (Hc & _). destruct Ht as (Ht & _).
    repeat split; try discriminate; intro H; contradiction.
  - destruct Hc as (Hc & _). destruct Ht as (-> & Ht). contradiction.
  - destruct Ht as (Ht & _). destruct Hc as (-> & Hc). contradiction.
  - destruct Hc as (-> & Hc). destruct Ht as (-> & Ht).
    repeat split; auto; intros e H; inversion H; reflexivity.
Qed.

(** X13. Whatever the file, the roles a parser returns are well formed:
    each has a name that is not empty, and its name and its description
    carry no white space at their ends, no separator and no line feed.
    There are at most as many of them as the file has lines that are not
    blank, the topic line not counted, and the topic, returned exactly
    when the switch is on, is trimmed. *)
Theorem parsed_roles_are_well_formed (includesTopic : bool) (content : jsstring) :
  match RolesFile.parseRolesCsv includesTopic content with
  | Ok f =>
      Forall (fun r => Classes.well_formed 44%N r = true) (RolesFile.roles f) /\
      List.length (RolesFile.roles f) + (if includesTopic then 1 else 0)
      <= List.length (RolesFile.lines_of content) /\
      match RolesFile.topic f with
      | Some t => includesTopic = true /\ trim t = t
      | None => includesTopic = false
      end
  | Err _ => True
  end /\
  match RolesFile.parseRolesTxt includesTopic content with
  | Ok f =>
      Forall (fun r => Classes.well_formed 58%N r = true) (RolesFile.roles f) /\
      List.length (RolesFile.roles f) + (if includesTopic then 1 else 0)
      <= List.length (RolesFile.lines_of content) /\
      match RolesFile.topic f with
      | Some t => includesTopic = true /\ trim t = t
      | None => includesTopic = false
      end
  | Err _ => True
  end.
Proof.
  unfold RolesFile.parseRolesCsv, RolesFile.parseRolesTxt.
  pose proof (parse_rows_result 44%N RolesFile.EmptyCsv includesTopic content) as Hc.
  pose proof (parse_rows_result 58%N RolesFile.EmptyTxt includesTopic content) as Ht.
  split.
  - destruct (RolesFile.parse_rows 44%N RolesFile.EmptyCsv includesTopic content);
      [destruct Hc as (_ & Hc); exact Hc | exact I].
  - destruct (RolesFile.parse_rows 58%N RolesFile.EmptyTxt includesTopic content);
      [destruct Ht as (_ & Ht); exact Ht | exact I].
Qed.

(** X14. A file written from well-formed roles, one line for each with the
    name, the separator and the description, is read back as these roles
    in their order, by the parser of its kind; with the switch on and a
    first line of a label, the separator and the topic, it is read back
    as these roles and that topic. *)
Theorem well_formed_roles_are_read_back (rows : list RolesFile.role_row) :
  rows <> [] ->
  (Forall (fun r => Classes.well_formed 44%N r = true) rows ->
   RolesFile.parseRolesCsv false (Classes.join_lines (map (Classes.line_of 44%N) rows))
   = Ok {| RolesFile.roles := rows; RolesFile.topic := None |} /\
   forall label t,
     Classes.cell 44%N label = true -> Classes.cell 44%N t = true ->
     RolesFile.parseRolesCsv true
       (Classes.join_lines ((label ++ 44%N :: t) :: map (Classes.line_of 44%N) rows))
     = Ok {| RolesFile.roles := rows; RolesFile.topic := Some t |}) /\
  (Forall (fun r => Classes.well_formed 58%N r = true) rows ->
   RolesFile.parseRolesTxt false (Classes.join_lines (map (Classes.line_of 58%N) rows))
   = Ok {| RolesFile.roles := rows; RolesFile.topic := None |} /\
   forall label t,
     Classes.cell 58%N label = true -> Classes.cell 58%N t = true ->
     RolesFile.parseRolesTxt true
       (Classes.join_lines ((label ++ 58%N :: t) :: map (Classes.line_of 58%N) rows))
     = Ok {| RolesFile.roles := rows; RolesFile.topic := Some t |}).
Proof.
  intro Hne. split; intro Hwf; (split; [| intros label t Hl Ht]).
  - apply parse_rows_reads_back; auto.
  - apply parse_rows_reads_back_topic; auto.
  - apply parse_rows_reads_back; auto.
  - apply parse_rows_reads_back_topic; auto.
Qed.

(** X14 on a file of two roles under a topic line. *)
Lemma read_back_sample :
  Cases.two_roles <> [] /\
  Forall (fun r => Classes.well_formed 44%N r = true) Cases.two_roles /\
  Classes.join_lines (js "Topic,Remote work" :: map (Classes.line_of 44%N) Cases.two_roles)
  = Cases.two_roles_csv /\
  RolesFile.parseRolesCsv true Cases.two_roles_csv
  = Ok {| RolesFile.roles := Cases.two_roles;
          RolesFile.topic := Some (js "Remote work") |}.
Proof.
  assert (Hne : Cases.two_roles <> []) by discriminate.
  assert (Hwf : Forall (fun r => Classes.well_formed 44%N r = true) Cases.two_roles)
    by (repeat constructor).
  split; [exact Hne |]. split; [exact Hwf |]. split; [reflexivity |].
  destruct (well_formed_roles_are_read_back Cases.two_roles Hne) as (Hcsv & _).
  destruct (Hcsv Hwf) as (_ & Htopic).
  exact (Htopic (js "Topic") (js "Remote work") eq_refl eq_refl).
Defined.

(** ** Importing roles into the form *)


(** X15. What [importRoles] does to the role fields.  With no role to
    import (none in the preview that has a name and a description) it
    touches nothing and reports the error.  Otherwise the fields the form
    starts the loop with (all of them, or with the clearing switch on the
    first two, emptied) are overwritten in order by the role texts, fields
    in excess keep what they held, and texts in excess are added as new
    fields, up to six fields in all: a text beyond that is dropped with the
    error about six roles on display, while the status still counts every
    role as imported.  A field holds its text as a text field does, without
    line feeds and carriage returns (and with U+FFFD for a NUL, in a field
    that is added): the texts themselves when they hold none of these. *)
Theorem import_fills_the_role_fields
        (innerText : jsstring -> jsstring) (p : page) (dl : RolesFile.dialog) :
  (RolesFile.preview_roles (RolesFile.rolesPreviewContainer dl) = [] ->
   fst (RolesFile.importRoles innerText p dl) = p /\
   RolesFile.rolesUploadError (snd (RolesFile.importRoles innerText p dl))
   = Some RolesFile.NothingToImport) /\
  (RolesFile.preview_roles (RolesFile.rolesPreviewContainer dl) <> [] ->
   let texts := map RolesFile.role_text
                    (RolesFile.preview_roles (RolesFile.rolesPreviewContainer dl)) in
   let start := if RolesFile.clearExistingRoles dl
                then map (fun _ => []) (firstn 2 (roleInputs (form p)))
                else roleInputs (form p) in
   roleInputs (form (fst (RolesFile.importRoles innerText p dl)))
   = firstn (Nat.max (List.length start) 6)
            (RolesFile.field_values (List.length start) texts)
     ++ skipn (List.length texts) start /\
   (Forall (fun t => Classes.kept_by_field t = true) texts ->
    roleInputs (form (fst (RolesFile.importRoles innerText p dl)))
    = firstn (Nat.max (List.length start) 6) texts ++ skipn (List.length texts) start) /\
   (forall i t,
       i < List.length texts ->
       nth_error (roleInputs (form (fst (RolesFile.importRoles innerText p dl)))) i
       = Some t ->
       Forall (fun c => c <> 10%N /\ c <> 13%N) t) /\
   (Nat.max (List.length start) 6 < List.length texts ->
    errorShown (fst (RolesFile.importRoles innerText p dl)) = Some TooManyRoles) /\
   (exists t,
       RolesFile.rolesUploadStatus (snd (RolesFile.importRoles innerText p dl))
       = Some (List.length texts, t)) /\
   List.length (roleInputs (form (fst (RolesFile.importRoles innerText p dl))))
   <= Nat.max 6 (List.length (roleInputs (form p)))).
Proof.
  unfold RolesFile.importRoles. cbv zeta.
  destruct (RolesFile.preview_roles (RolesFile.rolesPreviewContainer dl))
    as [| r rs] eqn:Hroles.
  - split; [intros _; split; reflexivity | intro H; contradiction].
  - split; [discriminate |]. intros _. cbv zeta.
    set (texts := map RolesFile.role_text (r :: rs)).
    set (p1 := match match RolesFile.rolesPreviewContainer dl with
                     | RolesFile.Previewed v => RolesFile.preview_topic innerText v
                     | _ => None
                     end with
               | Some t => if truthy t then RolesFile.set_topic t p else p
               | None => p
               end).
    assert (Hp1 : roleInputs (form p1) = roleInputs (form p)).
    { unfold p1.
      destruct (match RolesFile.rolesPreviewContainer dl with
                | RolesFile.Previewed v => RolesFile.preview_topic innerText v
                | _ => None
                end) as [t |]; [destruct (truthy t) |]; reflexivity. }
    rewrite Hp1.
    set (start := if RolesFile.clearExistingRoles dl
                  then map (fun _ : jsstring => @nil cu) (firstn 2 (roleInputs (form p)))
                  else roleInputs (form p)).
    set (p2 := if RolesFile.clearExistingRoles dl
               then set_roles (map (fun _ : jsstring => @nil cu)
                                   (firstn 2 (roleInputs (form p)))) p1
               else p1).
    assert (Hp2 : roleInputs (form p2) = start).
    { unfold p2, start. destruct (RolesFile.clearExistingRoles dl);
        [reflexivity | exact Hp1]. }
    cbn [fst snd RolesFile.rolesUploadStatus].
    rewrite Hp2.
    destruct (filled_fields texts start p2 Hp2) as (Hf & He & _).
    assert (Hvalues : List.length (RolesFile.field_values (List.length start) texts)
                      = List.length texts).
    { unfold RolesFile.field_values.
      rewrite length_app, !length_map, <- length_app, firstn_skipn. reflexivity. }
    split; [exact Hf |].
    split.
    { intro Hkept. rewrite Hf, (kept_texts_are_values _ _ Hkept). reflexivity. }
    split.
    { intros i t Hi Hnth. rewrite Hf in Hnth.
      destruct (Nat.lt_ge_cases i
                  (List.length (firstn (Nat.max (List.length start) 6)
                                       (RolesFile.field_values (List.length start) texts))))
        as [Hin | Hout].
      - rewrite nth_error_app1 in Hnth by exact Hin.
        apply nth_error_In in Hnth.
        assert (Hv : In t (RolesFile.field_values (List.length start) texts)).
        { rewrite <- (firstn_skipn (Nat.max (List.length start) 6)).
          apply in_or_app. left. exact Hnth. }
        unfold RolesFile.field_values in Hv. apply in_app_or in Hv.
        destruct Hv as [Hv | Hv]; apply in_map_iff in Hv; destruct Hv as (x & <- & _).
        + apply field_value_on_one_line.
        + unfold text_field_attribute. apply field_value_on_one_line.
      - assert (Hsix : 6 <= i /\ List.length start <= i)
          by (rewrite length_firstn, Hvalues in Hout; lia).
        rewrite nth_error_app2 in Hnth by exact Hout.
        apply nth_error_In in Hnth.
        rewrite skipn_all2 in Hnth by (unfold texts, jsstring, cu in *; lia).
        destruct Hnth. }
    split.
    { intro Hmany. rewrite He. apply Nat.ltb_lt in Hmany.
      match goal with
      | |- (if ?b then _ else _) = _ =>
          replace b with true by (symmetry; exact Hmany)
      end.
      reflexivity. }
    split.
    { eexists. unfold texts. rewrite length_map. reflexivity. }
    rewrite Hf, length_app, length_firstn, length_skipn.
    assert (Hstart : List.length start <= List.length (roleInputs (form p))).
    { unfold start. destruct (RolesFile.clearExistingRoles dl); [| apply Nat.le_refl].
      rewrite length_map, length_firstn. apply Nat.le_min_r. }
    unfold jsstring in *. lia.
Qed.

(** ** From the preview back to roles *)

Section PreviewFacts.
Import Text RolesFile.

Lemma preview_items_roles (rs : list role_row) :
  forall index,
    map (fun li => {| name := roleName li; description := roleDescription li |})
        (preview_items index rs) = rs.
Proof.
  induction rs as [| [n d] rs IH]; intro index; [reflexivity |].
  cbn [preview_items map preview_item_of roleName roleDescription name description].
  rewrite IH. reflexivity.
Qed.

Lemma preview_items_length (rs : list role_row) :
  forall index, List.length (preview_items index rs) = List.length rs.
Proof.
  induction rs as [| r rs IH]; intro index; [reflexivity |].
  cbn [preview_items List.length]. rewrite IH. reflexivity.
Qed.

Lemma space_class (c : cu) : atom_ok false (OneOf space_units) c = white_space c.
Proof.
  unfold atom_ok, white_space, mem, space_units, char_eq.
  cbn [existsb andb]. rewrite !orb_false_r. reflexivity.
Qed.

(** [.*] at the end of a pattern takes a text without line terminators
    whole. *)
Lemma dots_take_all (t : jsstring) (f : nat -> nat * capture) :
  Forall (fun c => line_terminator c = false) t ->
  forall (prev : option cu) (pos : nat) (cap : capture),
    star_greedy false Dot prev t pos cap (fun _ _ pos' _ => Some (f pos'))
    = Some (f (pos + List.length t)).
Proof.
  induction 1 as [| c t Hc _ IH]; intros prev pos cap.
  - cbn [star_greedy List.length]. rewrite Nat.add_0_r. reflexivity.
  - cbn [star_greedy atom_ok List.length]. rewrite Hc. cbn [negb].
    rewrite IH. f_equal. f_equal. lia.
Qed.

(** The topic is found after its label and one space. *)
Lemma topic_found (t : jsstring) :
  truthy t = true -> Classes.trimmed t = true ->
  Forall (fun c => line_terminator c = false) t ->
  search false topic_pattern None ([12486; 12540; 12510; 58; 32]%N ++ t)
  = Some ([12486; 12540; 12510; 58; 32]%N ++ t, Some t).
Proof.
  intros Hne Htrim Hlt.
  destruct t as [| c t]; [discriminate |].
  unfold Classes.trimmed in Htrim. apply andb_true_iff in Htrim.
  destruct Htrim as (Hc & _). apply negb_true_iff in Hc.
  assert (Hm : match_here false topic_pattern None
                          ([12486; 12540; 12510; 58; 32]%N ++ c :: t)
               = Some (5 + List.length (c :: t), Some (5, List.length (c :: t)))).
  { unfold match_here, topic_pattern.
    cbn [exec lits app atom_ok char_eq cu_eqb N.eqb Pos.eqb orb andb].
    cbn [star_greedy]. rewrite !space_class.
    replace (white_space 32%N) with true by reflexivity. rewrite Hc.
    inversion Hlt as [| ? ? Hcl Htl]; subst.
    cbn [atom_ok]. rewrite Hcl. cbn [negb].
    rewrite (dots_take_all t (fun pos' => (pos', Some (5, pos' - 5))) Htl).
    cbn [List.length].
    replace (6 + List.length t - 5) with (S (List.length t)) by lia.
    replace (6 + List.length t) with (5 + S (List.length t)) by lia.
    reflexivity. }
  change (search false topic_pattern None ([12486; 12540; 12510; 58; 32]%N ++ c :: t))
    with (match
             match match_here false topic_pattern None
                              ([12486; 12540; 12510; 58; 32]%N ++ c :: t) with
             | Some (len, cap) =>
                 Some (firstn len ([12486; 12540; 12510; 58; 32]%N ++ c :: t),
                       match cap with
                       | Some (off, n) =>
                           Some (firstn n
                                   (skipn off
                                      (firstn len
                                         ([12486; 12540; 12510; 58; 32]%N ++ c :: t))))
                       | None => None
                       end)
             | None => None
             end
           with
           | Some m => Some m
           | None => search false topic_pattern (Some 12486%N)
                            ([12540; 12510; 58; 32]%N ++ c :: t)
           end).
  rewrite Hm.
  replace (firstn (5 + List.length (c :: t)) ([12486; 12540; 12510; 58; 32]%N ++ c :: t))
    with ([12486; 12540; 12510; 58; 32]%N ++ c :: t)
    by (symmetry; apply firstn_all2; rewrite length_app; cbn [List.length];
        unfold jsstring, cu in *; lia).
  cbn [skipn app]. rewrite firstn_all. reflexivity.
Qed.

End PreviewFacts.

(** X16. What is previewed is what can be imported.  The roles
    [importRoles] reads from a preview built by [displayRolesPreview] are
    the previewed roles that have a name and a description, in their
    order: a role without description is listed and counted in the preview
    and left out of the import.  The topic is read back as well, when the
    text the browser renders for its header is the label, one space and
    the topic, the topic being trimmed and on one line. *)
Theorem preview_is_read_back_on_import
        (innerText : jsstring -> jsstring) (f : RolesFile.roles_file) :
  RolesFile.preview_roles (RolesFile.Previewed (RolesFile.displayRolesPreview f))
  = filter (fun r => truthy (RolesFile.name r) && truthy (RolesFile.description r))
           (RolesFile.roles f) /\
  List.length (RolesFile.items (RolesFile.displayRolesPreview f))
  = List.length (RolesFile.roles f) /\
  (RolesFile.topic f = None ->
   RolesFile.preview_topic innerText (RolesFile.displayRolesPreview f) = None) /\
  (forall t,
      RolesFile.topic f = Some t ->
      truthy t = true -> trim t = t ->
      Forall (fun c => line_terminator c = false) t ->
      innerText (RolesFile.topic_label ++ escapeHtml (Some t))
      = [12486; 12540; 12510; 58; 32]%N ++ t ->
      RolesFile.preview_topic innerText (RolesFile.displayRolesPreview f) = Some t).
Proof.
  split; [| split; [| split]].
  - unfold RolesFile.preview_roles, RolesFile.displayRolesPreview.
    cbn [RolesFile.items]. rewrite preview_items_roles. reflexivity.
  - unfold RolesFile.displayRolesPreview. cbn [RolesFile.items].
    apply preview_items_length.
  - intro Hnone. unfold RolesFile.preview_topic, RolesFile.displayRolesPreview.
    cbn [RolesFile.topicHeader]. rewrite Hnone. reflexivity.
  - intros t Hsome Hne Htrim Hlt Hinner.
    unfold RolesFile.preview_topic, RolesFile.displayRolesPreview.
    cbn [RolesFile.topicHeader]. rewrite Hsome, Hne, Hinner.
    rewrite (topic_found t Hne (proj2 (trimmed_iff t) Htrim) Hlt).
    rewrite Hne, Htrim. reflexivity.
Qed.

(** ** Choosing the encoding *)

(** X17. A file that does not start with the UTF-8 byte order mark and
    holds a byte in 0x81-0x9F or 0xE0-0xEF (as every UTF-8 text with a
    character beyond U+07FF does) is taken for Shift-JIS, and what
    [handleRolesFileSelect] leaves in the dialog is the same whatever the
    file's text in UTF-8 is: that text is never read. *)
Theorem high_bytes_are_never_read_as_utf8
        (ext : RolesFile.extension) (bytes : list N)
        (read read' : RolesFile.encoding -> option jsstring) (dl : RolesFile.dialog) :
  starts_with [239; 187; 191]%N bytes = false ->
  existsb (fun byte => (129 <=? byte) && (byte <=? 159)
                       || (224 <=? byte) && (byte <=? 239))%N bytes = true ->
  read RolesFile.ShiftJis = read' RolesFile.ShiftJis ->
  read RolesFile.EucJp = read' RolesFile.EucJp ->
  RolesFile.detect bytes = RolesFile.ShiftJis /\
  RolesFile.handleRolesFileSelect
    (Some {| RolesFile.fileExt := ext; RolesFile.readAsArrayBuffer := Some bytes;
             RolesFile.readAsText := read |}) dl
  = RolesFile.handleRolesFileSelect
      (Some {| RolesFile.fileExt := ext; RolesFile.readAsArrayBuffer := Some bytes;
               RolesFile.readAsText := read' |}) dl.
Proof.
  intros Hbom Hhigh Hs He.
  assert (Hd : RolesFile.detect bytes = RolesFile.ShiftJis).
  { unfold RolesFile.detect. rewrite Hbom, Hhigh. reflexivity. }
  split; [exact Hd |].
  unfold RolesFile.handleRolesFileSelect.
  cbn [RolesFile.readAsArrayBuffer RolesFile.readAsText RolesFile.fileExt].
  rewrite Hd, Hs. unfold RolesFile.retry. rewrite He. reflexivity.
Qed.

(** X17 on a file whose first character is a kanji in UTF-8. *)
Lemma high_bytes_sample :
  RolesFile.detect Cases.japanese_bytes = RolesFile.ShiftJis /\
  RolesFile.handleRolesFileSelect
    (Some {| RolesFile.fileExt := RolesFile.Csv;
             RolesFile.readAsArrayBuffer := Some Cases.japanese_bytes;
             RolesFile.readAsText :=
               fun e => match e with
                        | RolesFile.Utf8 => Some [24441; 44; 97]%N
                        | _ => Some [29824; 65401; 44; 97]%N
                        end |}) Cases.fresh_dialog
  = RolesFile.handleRolesFileSelect
      (Some {| RolesFile.fileExt := RolesFile.Csv;
               RolesFile.readAsArrayBuffer := Some Cases.japanese_bytes;
               RolesFile.readAsText := fun _ => Some [29824; 65401; 44; 97]%N |})
      Cases.fresh_dialog.
Proof.
  apply (high_bytes_are_never_read_as_utf8 RolesFile.Csv Cases.japanese_bytes);
    reflexivity.
Defined.

(** ** From the file to the form *)

Section FileToForm.
Import Text RolesFile.

Lemma previewed_roles_all (rows : list role_row) :
  Forall (fun r => Classes.well_formed 44%N r = true) rows ->
  Forall (fun r => truthy (description r) = true) rows ->
  filter (fun r => truthy (name r) && truthy (description r)) rows = rows.
Proof.
  induction 1 as [| r rows Hr _ IH]; intro Hd; [reflexivity |].
  inversion Hd as [| ? ? Hdr Hdrest]; subst.
  cbn [filter]. unfold Classes.well_formed in Hr.
  apply andb_true_iff in Hr. destruct Hr as (Hr & _).
  apply andb_true_iff in Hr. destruct Hr as (Hn & _).
  rewrite Hn, Hdr. cbn [andb]. f_equal. exact (IH Hdrest).
Qed.

End FileToForm.

(** X18. From the file to the form.  A CSV file written from well-formed
    roles that all have a description, chosen with the topic switch off
    and read in the encoding the handler picks, is previewed by
    [handleRolesFileSelect] with the import button enabled; [importRoles],
    with the clearing switch on, then leaves in the form the texts
    name, colon, space, description of the first six of these roles (and
    an empty second field when there is one role only), each as a text
    field holds it, and reports all of them as imported.  A carriage
    return inside a cell, which the parser keeps, does not reach the field;
    texts without NUL and carriage return are in the fields as they are. *)
Theorem file_roles_reach_the_form
        (innerText : jsstring -> jsstring) (file : RolesFile.chosen_file)
        (bytes : list N) (rows : list RolesFile.role_row)
        (p : page) (dl : RolesFile.dialog) :
  rows <> [] ->
  Forall (fun r => Classes.well_formed 44%N r = true) rows ->
  Forall (fun r => truthy (RolesFile.description r) = true) rows ->
  RolesFile.fileExt file = RolesFile.Csv ->
  RolesFile.includesTopicSwitch dl = false ->
  RolesFile.clearExistingRoles dl = true ->
  RolesFile.readAsArrayBuffer file = Some bytes ->
  RolesFile.readAsText file (RolesFile.detect bytes)
  = Some (Classes.join_lines (map (Classes.line_of 44%N) rows)) ->
  RolesFile.importRolesBtn_disabled (RolesFile.handleRolesFileSelect (Some file) dl)
  = false /\
  roleInputs (form (fst (RolesFile.importRoles innerText p
                           (RolesFile.handleRolesFileSelect (Some file) dl))))
  = firstn 6 (RolesFile.field_values
                (List.length (firstn 2 (roleInputs (form p))))
                (map RolesFile.role_text rows))
    ++ skipn (List.length rows)
             (map (fun _ => []) (firstn 2 (roleInputs (form p)))) /\
  (Forall (fun r => Classes.kept_by_field (RolesFile.role_text r) = true) rows ->
   roleInputs (form (fst (RolesFile.importRoles innerText p
                            (RolesFile.handleRolesFileSelect (Some file) dl))))
   = firstn 6 (map RolesFile.role_text rows)
     ++ skipn (List.length rows)
              (map (fun _ => []) (firstn 2 (roleInputs (form p))))) /\
  RolesFile.rolesUploadStatus
    (snd (RolesFile.importRoles innerText p
            (RolesFile.handleRolesFileSelect (Some file) dl)))
  = Some (List.length rows, None) /\
  topicInput (form (fst (RolesFile.importRoles innerText p
                           (RolesFile.handleRolesFileSelect (Some file) dl))))
  = topicInput (form p) /\
  (forall t,
      In t (roleInputs (form (fst (RolesFile.importRoles innerText p
                                     (RolesFile.handleRolesFileSelect (Some file) dl))))) ->
      Forall (fun c => c <> 10%N /\ c <> 13%N) t).
Proof.
  intros Hne Hwf Hdesc Hext Htopic Hclear Hbytes Htext.
  assert (Hselect :
            RolesFile.handleRolesFileSelect (Some file) dl
            = {| RolesFile.rolesPreviewContainer :=
                   RolesFile.Previewed
                     (RolesFile.displayRolesPreview
                        {| RolesFile.roles := rows; RolesFile.topic := None |});
                 RolesFile.importRolesBtn_disabled := false;
                 RolesFile.includesTopicSwitch := false;
                 RolesFile.clearExistingRoles := true;
                 RolesFile.rolesUploadStatus := None;
                 RolesFile.rolesUploadError := None |}).
  { unfold RolesFile.handleRolesFileSelect. rewrite Hbytes, Htext, Hext.
    unfold RolesFile.processFile.
    cbn [RolesFile.includesTopicSwitch RolesFile.clearExistingRoles
         RolesFile.rolesUploadStatus RolesFile.rolesUploadError].
    rewrite Htopic, Hclear. unfold RolesFile.parseRolesCsv.
    rewrite (parse_rows_reads_back 44%N RolesFile.EmptyCsv eq_refl eq_refl rows Hne Hwf).
    cbn [RolesFile.roles].
    destruct rows as [| r rows]; [contradiction | reflexivity]. }
  rewrite Hselect. clear Hselect.
  split; [reflexivity |].
  assert (Hroles :
            RolesFile.preview_roles
              (RolesFile.Previewed
                 (RolesFile.displayRolesPreview
                    {| RolesFile.roles := rows; RolesFile.topic := None |}))
            = rows).
  { unfold RolesFile.preview_roles, RolesFile.displayRolesPreview.
    cbn [RolesFile.items RolesFile.roles].
    rewrite preview_items_roles. apply previewed_roles_all; assumption. }
  unfold RolesFile.importRoles. cbv zeta.
  cbn [RolesFile.rolesPreviewContainer RolesFile.clearExistingRoles].
  rewrite Hroles.
  destruct rows as [| r rows]; [contradiction |].
  unfold RolesFile.preview_topic, RolesFile.displayRolesPreview.
  cbn [RolesFile.topicHeader RolesFile.topic fst snd RolesFile.rolesUploadStatus].
  set (start := map (fun _ : jsstring => @nil cu) (firstn 2 (roleInputs (form p)))).
  assert (Hlen : List.length start <= 2)
    by (unfold start; rewrite length_map, length_firstn; apply Nat.le_min_l).
  assert (Hstart : List.length start = List.length (firstn 2 (roleInputs (form p))))
    by (unfold start; apply length_map).
  destruct (filled_fields (map RolesFile.role_text (r :: rows)) start
                          (set_roles start p) eq_refl) as (Hf & _ & Ht).
  change (roleInputs (form (set_roles start p))) with start.
  match type of Hf with
  | context [Nat.max ?a 6] =>
      rewrite (Nat.max_r a 6) in Hf by (unfold jsstring, cu in *; lia)
  end.
  rewrite Hf, Ht, !length_map, <- Hstart.
  split; [reflexivity |]. split; [| split; [reflexivity | split; [reflexivity |]]].
  - intro Hkept. rewrite kept_texts_are_values; [reflexivity |].
    apply Forall_forall. intros t Hin. apply in_map_iff in Hin.
    destruct Hin as (x & <- & Hx). rewrite Forall_forall in Hkept. exact (Hkept x Hx).
  - intros t Hin. apply in_app_or in Hin. destruct Hin as [Hin | Hin].
    + assert (Hv : In t (RolesFile.field_values
                           (List.length start) (map RolesFile.role_text (r :: rows)))).
      { rewrite <- (firstn_skipn 6). apply in_or_app. left. exact Hin. }
      unfold RolesFile.field_values in Hv. apply in_app_or in Hv.
      destruct Hv as [Hv | Hv]; apply in_map_iff in Hv; destruct Hv as (x & <- & _).
      * apply field_value_on_one_line.
      * unfold text_field_attribute. apply field_value_on_one_line.
    + assert (Hs : In t start).
      { rewrite <- (firstn_skipn (List.length (r :: rows)) start).
        apply in_or_app. right. exact Hin. }
      unfold start in Hs. apply in_map_iff in Hs. destruct Hs as (x & <- & _).
      constructor.
Qed.

(** X18 on the sample file of two roles and the sample form. *)
Lemma file_roles_sample :
  roleInputs (form (fst (RolesFile.importRoles Samples.plain_text Samples.sample_page
                           (RolesFile.handleRolesFileSelect
                              (Some Cases.roles_csv_file) Cases.fresh_dialog))))
  = [js "Analyst: weighs the costs"; js "Engineer: builds the system"] /\
  validate (fst (RolesFile.importRoles Samples.plain_text Samples.sample_page
                   (RolesFile.handleRolesFileSelect
                      (Some Cases.roles_csv_file) Cases.fresh_dialog))) = None.
Proof.
  assert (Hwf : Forall (fun r => Classes.well_formed 44%N r = true) Cases.two_roles)
    by (repeat constructor).
  assert (Hd : Forall (fun r => truthy (RolesFile.description r) = true) Cases.two_roles)
    by (repeat constructor).
  destruct (file_roles_reach_the_form
              Samples.plain_text Cases.roles_csv_file Cases.roles_csv Cases.two_roles
              Samples.sample_page Cases.fresh_dialog
              ltac:(discriminate) Hwf Hd eq_refl eq_refl eq_refl eq_refl eq_refl)
    as (_ & Hfields & _ & _ & _ & _).
  split; [rewrite Hfields; reflexivity | reflexivity].
Defined.

(** A carriage return inside a name is kept by the parser and by the
    preview, and is gone from the field: the one role of the file fills the
    first field, the second is left empty. *)
Lemma carriage_return_stays_out_of_the_field :
  RolesFile.preview_roles
    (RolesFile.rolesPreviewContainer
       (RolesFile.handleRolesFileSelect (Some Cases.returned_csv_file) Cases.fresh_dialog))
  = [ {| RolesFile.name := js "A" ++ [13%N] ++ js "X";
         RolesFile.description := js "weighs the costs" |} ] /\
  roleInputs (form (fst (RolesFile.importRoles
                           Samples.plain_text Samples.sample_page
                           (RolesFile.handleRolesFileSelect
                              (Some Cases.returned_csv_file) Cases.fresh_dialog))))
  = [js "AX: weighs the costs"; []].
Proof. split; vm_compute; reflexivity. Qed.

(** ** The display and the transcript *)

Section ContinuationDisplay.
Variable srv : server.

(** One invocation of the continuation loop shows what it stores. *)
Lemma continuation_step_shows (q : continuation_request ref) (cd : ref)
      (after : Z) (p : page) :
  exists news,
    List.length news <= 1 /\
    cells (arrays (fst (continuation_step srv q cd after p))) cd
    = cells (arrays p) cd ++ map Some news /\
    bubbles (fst (continuation_step srv q cd after p))
    = bubbles p ++ map bubble_of news /\
    consultantMessages (fst (continuation_step srv q cd after p))
    = consultantMessages p.
Proof.
  unfold continuation_step, fetch. cbv zeta.
  destruct (read_reply _) as [d | x];
    [| exists []; cbn; rewrite !app_nil_r; repeat split; lia].
  destruct (reported d); [exists []; cbn; rewrite !app_nil_r; repeat split; lia |].
  destruct (message d) as [m |];
    [| exists []; cbn; rewrite !app_nil_r; repeat split; lia].
  exists [m].
  destruct (is_complete d);
    cbn [fst arrays bubbles consultantMessages showLoading with_loading with_header
         appendMessage with_container push with_arrays with_log array_push cells
         List.length map];
    rewrite Nat.eqb_refl; repeat split; lia.
Qed.

Lemma continuation_loop_shows (fuel : nat) :
  forall (q : continuation_request ref) (cd : ref) (after : Z) (p : page),
  exists news,
    List.length news <= fuel /\
    cells (arrays (fst (fetchNextContinuationTurn srv fuel q cd after p))) cd
    = cells (arrays p) cd ++ map Some news /\
    bubbles (fst (fetchNextContinuationTurn srv fuel q cd after p))
    = bubbles p ++ map bubble_of news /\
    consultantMessages (fst (fetchNextContinuationTurn srv fuel q cd after p))
    = consultantMessages p.
Proof.
  induction fuel as [| fuel IH]; intros q cd after p.
  - exists []. cbn. rewrite !app_nil_r. repeat split; lia.
  - cbn [fetchNextContinuationTurn].
    destruct (continuation_step_shows q cd after p) as (n1 & Hl1 & Ha1 & Hb1 & Hc1).
    destruct (continuation_step srv q cd after p) as [p1 [o | q1 after1]];
      cbn [fst] in *.
    + exists n1. repeat split; auto; lia.
    + destruct (IH q1 cd after1 p1) as (n2 & Hl2 & Ha2 & Hb2 & Hc2).
      exists (n1 ++ n2).
      rewrite Ha2, Hb2, Hc2, Ha1, Hb1, Hc1, !map_app, <- !app_assoc, length_app.
      repeat split. lia.
Qed.

End ContinuationDisplay.

(** X19. A continuation shows what it stores.  Whatever the server
    answers, and whether the run completes, fails or is still under way,
    the utterances [handleContinueDiscussion] has appended to the
    transcript it collected from the page are exactly those it has added
    to the display, one bubble each and in the same order; it adds no
    consultant analysis, and at most one utterance for each request. *)
Theorem continuation_shows_what_it_stores
        (rv : revision) (textContent : jsstring -> jsstring) (srv : server)
        (fuel : nat) (p : page) :
  exists news,
    List.length news <= fuel /\
    (lt (additionalTurnsInput (form p)) (Int 1)
     || gt (additionalTurnsInput (form p)) (Int 5) = false ->
     transcript (next_ref (arrays p))
                (fst (handleContinueDiscussion textContent rv srv fuel p))
     = map Some (collect textContent rv p ++ news)) /\
    bubbles (fst (handleContinueDiscussion textContent rv srv fuel p))
    = bubbles p ++ map bubble_of news /\
    consultantMessages (fst (handleContinueDiscussion textContent rv srv fuel p))
    = consultantMessages p.
Proof.
  unfold handleContinueDiscussion.
  destruct (lt _ _ || gt _ _).
  - exists []. cbn. rewrite !app_nil_r. repeat split; [lia | discriminate].
  - unfold new_array. cbv beta iota zeta.
    match goal with
    | |- context [fetchNextContinuationTurn srv fuel ?q ?cd 0 ?p2] =>
        destruct (continuation_loop_shows srv fuel q cd 0 p2)
          as (news & Hl & Ha & Hb & Hc)
    end.
    exists news. split; [exact Hl |].
    split; [intros _ | split; [exact Hb | exact Hc]].
    unfold transcript. rewrite Ha.
    cbn [arrays with_arrays hideError showLoading with_error with_loading cells].
    rewrite Nat.eqb_refl, map_app. reflexivity.
Qed.

Section FreshDisplay.
Import Classes.
Variable rv : revision.
Variable srv : server.
Variable md : mode.
Variable topic : jsstring.
Variable roles : list jsstring.
Variable numTurns : jsnum.
Variable disc : ref.
Variable language : jsstring.

Lemma shown_app (a b : list entry) : shown (a ++ b) = shown a ++ shown b.
Proof. unfold shown. apply flat_map_app. Qed.

Lemma first_display_clears (p : page) :
  bubbles (first_display rv srv md topic p) = [] /\
  arrays (first_display rv srv md topic p) = arrays p.
Proof.
  unfold first_display. destruct md; [split; reflexivity |].
  destruct rv; split; reflexivity.
Qed.

(** One invocation of the fresh loop: the display is reset when the
    invocation counts as the first, and the entry stored is shown. *)
Lemma turn_step_shows (t r : Z) (after : Z) (p : page) :
  exists added,
    cells (arrays (fst (turn_step rv srv md topic roles numTurns disc t r
                                  language after p))) disc
    = cells (arrays p) disc ++ added /\
    bubbles (fst (turn_step rv srv md topic roles numTurns disc t r language after p))
    = (if first_iteration (List.length roles) t r then [] else bubbles p)
      ++ shown added /\
    forall t' r' after',
      snd (turn_step rv srv md topic roles numTurns disc t r language after p)
      = Again (t', r') after' ->
      exists n q d,
        read_turn_reply (srv n (GenerateNextTurn q)) = Ok d /\
        tr_roles q = roles /\ t' = next_turn d /\ r' = next_role_index d.
Proof.
  unfold turn_step, first_iteration. cbv zeta.
  set (first := (t * Z.of_nat (List.length roles) + r + 1 =? 1)%Z).
  set (p1 := if first then first_display rv srv md topic p else p).
  assert (Hp1 : bubbles p1 = (if first then [] else bubbles p) /\ arrays p1 = arrays p).
  { unfold p1. destruct first; [apply first_display_clears | split; reflexivity]. }
  destruct Hp1 as (Hb1 & Ha1).
  unfold fetch. cbv beta iota zeta.
  match goal with
  | |- context [read_turn_reply (srv ?n (GenerateNextTurn ?q))] =>
      set (n0 := n); set (q0 := q);
      destruct (read_turn_reply (srv n0 (GenerateNextTurn q0))) as [d | x] eqn:Hread
  end.
  - destruct (reported d).
    + exists []. cbn [fst snd]. rewrite app_nil_r.
      cbn [fail showError showLoading with_error with_loading with_log arrays bubbles
           shown flat_map].
      rewrite Ha1, Hb1, app_nil_r. repeat split. discriminate.
    + destruct (message d) as [m |].
      * exists [Some m].
        destruct (is_complete d); cbn [fst snd];
          cbn [with_current showLoading with_loading appendMessage with_container push
               with_arrays with_log arrays bubbles array_push cells shown flat_map app];
          rewrite Nat.eqb_refl, Ha1, Hb1; (split; [reflexivity |]);
          (split; [reflexivity |]).
        -- discriminate.
        -- intros t' r' after' H. inversion H; subst.
           exists n0, q0, d. repeat split. exact Hread.
      * exists [None]. cbn [fst snd].
        cbn [fail showError showLoading with_error with_loading push with_arrays
             with_log arrays bubbles array_push cells shown flat_map app].
        rewrite Nat.eqb_refl, Ha1, Hb1, app_nil_r. repeat split. discriminate.
  - exists []. cbn [fst snd]. rewrite app_nil_r.
    cbn [fail showError showLoading with_error with_loading with_log arrays bubbles
         shown flat_map].
    rewrite Ha1, Hb1, app_nil_r. repeat split. discriminate.
Qed.

Hypothesis no_restart :
  forall n q d,
    read_turn_reply (srv n (GenerateNextTurn q)) = Ok d ->
    tr_roles q = roles ->
    first_iteration (List.length roles) (next_turn d) (next_role_index d) = false.

Lemma turn_loop_shows (fuel : nat) :
  forall (t r : Z) (after : Z) (p : page),
    (if first_iteration (List.length roles) t r
     then shown (cells (arrays p) disc) = []
     else bubbles p = shown (cells (arrays p) disc)) ->
    bubbles (fst (turn_loop rv srv (S fuel) md topic roles numTurns disc t r
                            language after p))
    = shown (cells (arrays (fst (turn_loop rv srv (S fuel) md topic roles numTurns
                                           disc t r language after p))) disc).
Proof.
  induction fuel as [| fuel IH]; intros t r after p Hinv.
  - cbn [turn_loop].
    destruct (turn_step_shows t r after p) as (added & Ha & Hb & _).
    destruct (turn_step rv srv md topic roles numTurns disc t r language after p)
      as [p1 [o | [t' r'] after']]; cbn [fst] in *;
      rewrite Ha, Hb, shown_app;
      destruct (first_iteration (List.length roles) t r);
      rewrite Hinv; reflexivity.
  - cbn [turn_loop].
    destruct (turn_step_shows t r after p) as (added & Ha & Hb & Hnext).
    destruct (turn_step rv srv md topic roles numTurns disc t r language after p)
      as [p1 [o | [t' r'] after']]; cbn [fst snd] in *.
    + rewrite Ha, Hb, shown_app.
      destruct (first_iteration (List.length roles) t r); rewrite Hinv; reflexivity.
    + apply (IH t' r' after' p1).
      destruct (Hnext t' r' after' eq_refl) as (n & q & d & Hread & Hroles & -> & ->).
      rewrite (no_restart n q d Hread Hroles).
      rewrite Ha, Hb, shown_app.
      destruct (first_iteration (List.length roles) t r); rewrite Hinv; reflexivity.
Qed.

End FreshDisplay.

(** X20. A fresh run shows its transcript.  Take a server none of whose
    replies sends the loop back to the cursor it takes for the start of a
    run.  Then whatever else the server answers, and whether the run
    completes, fails or is still under way, after [handleFormSubmit] on a
    valid form the bubbles on display are the utterances of the new
    transcript, one bubble each and in the same order. *)
Theorem fresh_run_shows_its_transcript
        (rv : revision) (srv : server) (fuel : nat) (p : page) :
  validate p = None ->
  (forall n q d,
      read_turn_reply (srv n (GenerateNextTurn q)) = Ok d ->
      tr_roles q = roles_of_form p ->
      Classes.first_iteration (List.length (roles_of_form p))
                              (next_turn d) (next_role_index d) = false) ->
  bubbles (fst (handleFormSubmit rv srv (S fuel) p))
  = Classes.shown (transcript (next_ref (arrays p))
                              (fst (handleFormSubmit rv srv (S fuel) p))).
Proof.
  intros Hvalid Hsrv. unfold handleFormSubmit. rewrite Hvalid.
  unfold generateDiscussion, reset_discussion, new_array, generateNextTurn.
  cbv beta iota zeta. unfold transcript.
  apply (turn_loop_shows rv srv Plain (trim (topicInput (form p))) (roles_of_form p)
                         (numTurnsInput (form p)) (next_ref (arrays p))
                         (languageSelect (form (hideError (showLoading true p))))
                         Hsrv fuel 0%Z 0%Z 0%Z).
  replace (Classes.first_iteration (List.length (roles_of_form p)) 0 0) with true
    by reflexivity.
  cbn [arrays with_current with_arrays cells]. rewrite Nat.eqb_refl. reflexivity.
Qed.

(** X20 on the sample form, against a server that closes the run with its
    first reply. *)
Lemma fresh_run_display_sample :
  validate Samples.sample_page = None /\
  bubbles (fst (handleFormSubmit Latest Cases.closing 2 Samples.sample_page))
  = [bubble_of {| role := js "Analyst"; content := js "Costs fall." |}] /\
  transcript 0 (fst (handleFormSubmit Latest Cases.closing 2 Samples.sample_page))
  = [Some {| role := js "Analyst"; content := js "Costs fall." |}].
Proof.
  split; [reflexivity |].
  assert (H : bubbles (fst (handleFormSubmit Latest Cases.closing 2 Samples.sample_page))
              = Classes.shown
                  (transcript (next_ref (arrays Samples.sample_page))
                              (fst (handleFormSubmit Latest Cases.closing 2
                                                     Samples.sample_page)))).
  { apply (fresh_run_shows_its_transcript Latest Cases.closing 1 Samples.sample_page).
    - reflexivity.
    - intros n q d Hread _. destruct q; simpl in Hread.
      inversion Hread; subst. reflexivity. }
  split; [rewrite H; reflexivity | reflexivity].
Defined.

(** ** A guidance request that fails *)

(** X21. A failed guidance request leaves the discussion as it was.  When
    the request for guidance is rejected, answered with an error status or
    answered with an error in its body, [handleProvideGuidance] stops with
    the error on display and the loading indicator off, and neither the
    bubbles, the consultant analyses, the header, the transcript arrays
    nor [currentDiscussion] have changed.  A reply that reports no error
    and carries no discussion is different: the handler has already
    assigned the missing discussion to [currentDiscussion] when reading it
    fails. *)
Theorem failed_guidance_keeps_the_discussion
        (rv : revision) (textContent : jsstring -> jsstring) (srv : server)
        (p : page) (e : exchange) :
  truthy (trim (guidanceInstructionInput (form p))) = true ->
  lt (guidanceAdditionalTurns (form p)) (Int 1)
  || gt (guidanceAdditionalTurns (form p)) (Int 5) = false ->
  log (fst (handleProvideGuidance textContent rv srv p)) = log p ++ [e] ->
  (step_failed e = true ->
   snd (handleProvideGuidance textContent rv srv p) = Failed /\
   errorShown (fst (handleProvideGuidance textContent rv srv p)) <> None /\
   loading (fst (handleProvideGuidance textContent rv srv p)) = false /\
   bubbles (fst (handleProvideGuidance textContent rv srv p)) = bubbles p /\
   consultantMessages (fst (handleProvideGuidance textContent rv srv p))
   = consultantMessages p /\
   discussionTopicHeader (fst (handleProvideGuidance textContent rv srv p))
   = discussionTopicHeader p /\
   arrays (fst (handleProvideGuidance textContent rv srv p)) = arrays p /\
   currentDiscussion (fst (handleProvideGuidance textContent rv srv p))
   = currentDiscussion p) /\
  (forall d,
      read e = Ok d -> reported d = None -> discussion d = None ->
      snd (handleProvideGuidance textContent rv srv p) = Failed /\
      errorShown (fst (handleProvideGuidance textContent rv srv p))
      = Some (Thrown TypeError) /\
      bubbles (fst (handleProvideGuidance textContent rv srv p)) = bubbles p /\
      arrays (fst (handleProvideGuidance textContent rv srv p)) = arrays p /\
      currentDiscussion (fst (handleProvideGuidance textContent rv srv p)) = None).
Proof.
  intros Hinstr Hturns.
  unfold handleProvideGuidance. cbv zeta.
  rewrite Hinstr, Hturns. cbn [negb]. unfold fetch. cbv beta iota zeta.
  match goal with
  | |- context [read_reply ?a] =>
      set (answer := a); destruct (read_reply answer) as [d' | x] eqn:Hans
  end.
  - destruct (reported d') as [msg |] eqn:Hrep.
    + intro Hlog.
      cbn [fst log showError showLoading with_error with_loading with_log hideError]
        in Hlog.
      apply app_inv_head in Hlog. inversion Hlog; subst e. clear Hlog.
      split.
      * intros _. cbn. repeat split. discriminate.
      * intros d Hread. unfold read in Hread. cbn [sent received] in Hread.
        fold answer in Hread. rewrite Hans in Hread. inversion Hread; subst d'.
        intro H. rewrite Hrep in H. discriminate.
    + destruct (discussion d') as [msgs |] eqn:Hdisc.
      * unfold new_array. cbv beta iota zeta. intro Hlog.
        cbn [fst log with_header] in Hlog.
        match type of Hlog with
        | context [displayDiscussion ?v ?m ?t ?p4] =>
            destruct (displayDiscussion_keeps v m t p4) as (_ & _ & Hl)
        end.
        rewrite Hl in Hlog.
        cbn [log with_current with_arrays showLoading with_loading with_log hideError
             with_error] in Hlog.
        apply app_inv_head in Hlog. inversion Hlog; subst e. clear Hlog.
        split.
        -- unfold step_failed, read. cbn [sent received]. fold answer.
           rewrite Hans, Hrep. discriminate.
        -- intros d Hread. unfold read in Hread. cbn [sent received] in Hread.
           fold answer in Hread. rewrite Hans in Hread. inversion Hread; subst d'.
           intros _ H. rewrite Hdisc in H. discriminate.
      * intro Hlog.
        assert (He : e = {| shown := None; delay := 0;
                            sent := ProvideGuidance
                                      {| gr_discussion_data := collect textContent rv p;
                                         gr_topic := topic_of_header (discussionTopicHeader p);
                                         gr_instruction :=
                                           trim (guidanceInstructionInput (form p));
                                         gr_num_additional_turns :=
                                           guidanceAdditionalTurns (form p);
                                         gr_use_document := useDocumentForGuidance (form p);
                                         gr_language := languageSelect (form p);
                                         gr_settings :=
                                           current_settings rv
                                             (hideError (showLoading true p)) |};
                            received := answer |}).
        { destruct rv;
            cbn [fst log fail showError showLoading with_error with_loading with_log
                 hideError with_current with_header] in Hlog;
            apply app_inv_head in Hlog; inversion Hlog; reflexivity. }
        subst e. clear Hlog.
        split.
        -- unfold step_failed, read. cbn [sent received]. fold answer.
           rewrite Hans, Hrep. discriminate.
        -- intros _ _ _ _. destruct rv; cbn; repeat split.
  - intro Hlog.
    cbn [fst log fail showError showLoading with_error with_loading with_log hideError]
      in Hlog.
    apply app_inv_head in Hlog. inversion Hlog; subst e. clear Hlog.
    split.
    + intros _. cbn. repeat split. discriminate.
    + intros d Hread. unfold read in Hread. cbn [sent received] in Hread.
      fold answer in Hread. rewrite Hans in Hread. discriminate.
Qed.

(** X21 on the sample page, with the server out of reach. *)
Lemma failed_guidance_sample :
  exists e,
    log (fst (handleProvideGuidance Samples.plain_text Latest Samples.offline
                                    Samples.discussed_page)) = [e] /\
    step_failed e = true /\
    bubbles (fst (handleProvideGuidance Samples.plain_text Latest Samples.offline
                                        Samples.discussed_page))
    = bubbles Samples.discussed_page /\
    errorShown (fst (handleProvideGuidance Samples.plain_text Latest Samples.offline
                                           Samples.discussed_page))
    = Some (Thrown (NetworkError (js "offline"))).
Proof.
  eexists. split; [reflexivity |]. split; [reflexivity |].
  destruct (failed_guidance_keeps_the_discussion
              Latest Samples.plain_text Samples.offline Samples.discussed_page
              _ eq_refl eq_refl eq_refl) as (Hfail & _).
  destruct (Hfail eq_refl) as (_ & _ & _ & Hb & _).
  split; [exact Hb | reflexivity].
Defined.
